(** * HRAM cartridge filesystem driver: wire codec, frame cache, file layer

    A shallow embedding of [cart_driver.c] and [cart_cache.c].

    Conventions of the embedding.
    - C integers are [Z]; conversions to a fixed width are written out
      ([uint8], [uint16], [uint64], [int16], [int32]).
    - Arrays are lists; an access outside the allocated block, or through a
      null or freed pointer, is undefined behaviour in C; here the code then
      "goes wrong" ([None] in the cache, [GoesWrong] with the reason in the
      driver) instead of returning.
    - Whatever the environment decides is an explicit input: the bytes found
      in storage that was never written, the bytes that follow the block of a
      stored file name, whether [malloc] has a block for the cache, and the
      answers of the remote controller.
    - [client_cart_bus_request] of [cart_client.c], the exchange with the
      remote controller over a socket, is a parameter of the driver.
    - [malloc] and [realloc] are taken to succeed in [cart_open],
      [cart_read] and [cart_write]; the [malloc] of [init_cart_cache] may
      answer a null pointer. A path is a C string, given by the characters
      before its terminator. A loop is a recursion on the number of its
      rounds.
    - Additions on [int] are not wrapped: signed overflow is undefined in C;
      priorities stay within [1 .. myMaxFrames], offsets within the file.
    - An argument of a call is a value of the C type of its parameter (a
      handle an [int16_t], a count an [int32_t]); the conversion at the call
      is left to the caller, and a statement that depends on the range says
      so. *)

From Stdlib Require Import ZArith List Lia Strings.Byte String Bool.
From stdpp Require Import base tactics option numbers list.

Local Open Scope Z_scope.

(** ** Fixed-width integers *)

Definition uint8 (z : Z) : Z := z mod 2 ^ 8.
Definition uint16 (z : Z) : Z := z mod 2 ^ 16.
Definition uint32 (z : Z) : Z := z mod 2 ^ 32.
Definition uint64 (z : Z) : Z := z mod 2 ^ 64.

(** Conversion to a signed type keeps the low bits (two's complement). *)
Definition int16 (z : Z) : Z :=
  let u := z mod 2 ^ 16 in if u <? 2 ^ 15 then u else u - 2 ^ 16.
Definition int32 (z : Z) : Z :=
  let u := z mod 2 ^ 32 in if u <? 2 ^ 31 then u else u - 2 ^ 32.

(** ** Wire codec ([cart_driver.c], [regstate], [generateBusRequest],
       [readBusResponse]) *)

Record regs : Type := mkRegs {
  kyOne : Z;   (* uint8_t  *)
  ctOne : Z;   (* uint16_t *)
  fmOne : Z;   (* uint16_t *)
  rt    : Z    (* uint8_t  *)
}.

Definition generateBusRequest (regstate : regs) : Z :=
  let temp := kyOne regstate in
  let temp := uint64 (Z.shiftl temp 56) in
  let toReturn := temp in
  let temp := ctOne regstate in
  let temp := uint64 (Z.shiftl temp 31) in
  let toReturn := uint64 (toReturn + temp) in
  let temp := fmOne regstate in
  let temp := uint64 (Z.shiftl temp 15) in
  let toReturn := uint64 (toReturn + temp) in
  toReturn.

Definition readBusResponse (busResponse : Z) : regs :=
  let temp := Z.land busResponse 0xff00000000000000 in
  let ky := uint8 (Z.shiftr temp 56) in
  let temp := Z.land busResponse 0x7fff80000000 in
  let ct := uint16 (Z.shiftr temp 31) in
  let temp := Z.land busResponse 0x7fff8000 in
  let fm := uint16 (Z.shiftr temp 15) in
  let temp := Z.land busResponse 0x800000000000 in
  let r := uint8 (Z.shiftr temp 47) in
  {| kyOne := ky; ctOne := ct; fmOne := fm; rt := r |}.

(** The register file as [runBusRequest] fills it before a request: the
    arguments are converted to the width of their register, the return code
    is cleared. *)
Definition request_regs (ky ct fm : Z) : regs :=
  {| kyOne := uint8 ky; ctOne := uint16 ct; fmOne := uint16 fm; rt := 0 |}.

(** Modelled from the spec: the repository's [htonll64] (declared in the
    absent [cart_network.h]) puts the 64-bit word in network byte order, most
    significant byte first. *)
Definition be_bytes64 (w : Z) : list Z :=
  map (fun k => (w / 2 ^ (8 * k)) mod 2 ^ 8) [7; 6; 5; 4; 3; 2; 1; 0].


(** ** Frame cache ([cart_cache.c]) *)

Record cachedFrame : Type := mkCachedFrame {
  frame     : Z;          (* int *)
  cartridge : Z;          (* int *)
  cache     : list byte;  (* char cache[CART_FRAME_SIZE] *)
  priority  : Z           (* int; myMaxFrames means next to be evicted *)
}.

(** The three globals of [cart_cache.c]. [myCache] is the block [malloc]
    returned; the entries in use are those at the indices
    [numberOfUnoccupiedFrames .. myMaxFrames - 1]. *)
Record cache_state : Type := mkCache {
  myCache : list cachedFrame;
  myMaxFrames : Z;
  numberOfUnoccupiedFrames : Z
}.

Definition with_priority (p : Z) (e : cachedFrame) : cachedFrame :=
  {| frame := frame e; cartridge := cartridge e; cache := cache e; priority := p |}.
Definition with_frame (f : Z) (e : cachedFrame) : cachedFrame :=
  {| frame := f; cartridge := cartridge e; cache := cache e; priority := priority e |}.
Definition with_cartridge (c : Z) (e : cachedFrame) : cachedFrame :=
  {| frame := frame e; cartridge := c; cache := cache e; priority := priority e |}.
Definition with_cache (b : list byte) (e : cachedFrame) : cachedFrame :=
  {| frame := frame e; cartridge := cartridge e; cache := b; priority := priority e |}.

Definition with_myCache (c : list cachedFrame) (s : cache_state) : cache_state :=
  {| myCache := c; myMaxFrames := myMaxFrames s;
     numberOfUnoccupiedFrames := numberOfUnoccupiedFrames s |}.

(** [myCache[i]] read and written; [None] outside the block. *)
Definition cache_entry (c : list cachedFrame) (i : Z) : option cachedFrame :=
  if i <? 0 then None else c !! Z.to_nat i.

Definition cache_store (c : list cachedFrame) (i : Z) (e : cachedFrame)
  : option (list cachedFrame) :=
  match cache_entry c i with
  | Some _ => Some (<[Z.to_nat i := e]> c)
  | None => None
  end.

(** Number of rounds of [for (i = from; i >= downto; i--)]. *)
Definition rounds_down (from downto : Z) : nat := Z.to_nat (from - downto + 1).

Definition set_cart_cache_size (max_frames : Z) (s : cache_state) : cache_state * Z :=
  ({| myCache := myCache s;
      myMaxFrames := int32 max_frames;
      numberOfUnoccupiedFrames := int32 max_frames |}, 0).

(** [block] is what [malloc] answers: [None] for a null pointer, otherwise
    the fresh block with whatever it happens to contain. *)
Definition init_cart_cache (block : option (list cachedFrame)) (s : cache_state)
  : cache_state * Z :=
  match block with
  | None => (with_myCache [] s, -1)
  | Some b => (with_myCache b s, 0)
  end.

Definition close_cart_cache (s : cache_state) : cache_state * Z :=
  (with_myCache [] s, 0).

(** The body of the loop of [adjust_priority], for [i], [i - 1], ... *)
Fixpoint adjust_priority_loop (n : nat) (i exempt abovePriority : Z)
    (c : list cachedFrame) : option (list cachedFrame) :=
  match n with
  | O => Some c
  | S n' =>
      c' ← (if i =? exempt then Some c
            else
              e ← cache_entry c i;
              if priority e <? abovePriority
              then cache_store c i (with_priority (priority e + 1) e)
              else Some c);
      adjust_priority_loop n' (i - 1) exempt abovePriority c'
  end.

Definition adjust_priority (exempt abovePriority : Z) (s : cache_state)
  : option (cache_state * Z) :=
  let top := myMaxFrames s - 1 in
  c' ← adjust_priority_loop (rounds_down top (numberOfUnoccupiedFrames s))
         top exempt abovePriority (myCache s);
  Some (with_myCache c' s, 0).

(** The search loops of [put_cart_cache] and [get_cart_cache] return from
    inside the loop at the first index that passes the test; the search gives
    that index, the caller then runs the body. *)
Fixpoint find_frame (n : nat) (i cart frm : Z) (c : list cachedFrame)
  : option (option Z) :=
  match n with
  | O => Some None
  | S n' =>
      e ← cache_entry c i;
      if (frame e =? frm) && (cartridge e =? cart) then Some (Some i)
      else find_frame n' (i - 1) cart frm c
  end.

Fixpoint find_priority (n : nat) (i p : Z) (c : list cachedFrame)
  : option (option Z) :=
  match n with
  | O => Some None
  | S n' =>
      e ← cache_entry c i;
      if priority e =? p then Some (Some i)
      else find_priority n' (i - 1) p c
  end.

Section Cache.

Variable CART_FRAME_SIZE : Z.

(** [memcpy(myCache[i].cache, buf, CART_FRAME_SIZE)]: the whole array is
    overwritten; reading past the end of [buf] is undefined. *)
Definition frame_payload (buf : list byte) : option (list byte) :=
  if CART_FRAME_SIZE <=? Z.of_nat (length buf)
  then Some (take (Z.to_nat CART_FRAME_SIZE) buf) else None.

Definition put_cart_cache (cart frm : Z) (buf : list byte) (s : cache_state)
  : option (cache_state * Z) :=
  let top := myMaxFrames s - 1 in
  let unocc := numberOfUnoccupiedFrames s in
  hit ← find_frame (rounds_down top unocc) top cart frm (myCache s);
  match hit with
  | Some i =>
      e ← cache_entry (myCache s) i;
      let prioritiesToAdjust := priority e in
      c1 ← cache_store (myCache s) i (with_priority (unocc + 1) e);
      '(s2, _) ← adjust_priority i prioritiesToAdjust (with_myCache c1 s);
      e2 ← cache_entry (myCache s2) i;
      b ← frame_payload buf;
      c3 ← cache_store (myCache s2) i (with_cache b e2);
      Some (with_myCache c3 s2, 0)
  | None =>
      if unocc =? 0 then
        victim ← find_priority (rounds_down top unocc) top (myMaxFrames s)
                   (myCache s);
        match victim with
        | Some i =>
            e ← cache_entry (myCache s) i;
            let prioritiesToAdjust := priority e in
            c1 ← cache_store (myCache s) i (with_priority (unocc + 1) e);
            '(s2, _) ← adjust_priority i prioritiesToAdjust (with_myCache c1 s);
            e2 ← cache_entry (myCache s2) i;
            b ← frame_payload buf;
            c3 ← cache_store (myCache s2) i
                   (with_cache b (with_cartridge cart (with_frame frm e2)));
            Some (with_myCache c3 s2, 0)
        | None => Some (s, -1)
        end
      else
        let i := unocc - 1 in
        e ← cache_entry (myCache s) i;
        b ← frame_payload buf;
        c1 ← cache_store (myCache s) i
               (with_cache b (with_cartridge cart (with_frame frm
                  (with_priority unocc e))));
        Some ({| myCache := c1; myMaxFrames := myMaxFrames s;
                 numberOfUnoccupiedFrames := unocc - 1 |}, 0)
  end.

(** The pointer returned by the C function is used by its callers for one
    [memcpy] before any other cache call, so the bytes are returned. *)
Definition get_cart_cache (cart frm : Z) (s : cache_state)
  : option (cache_state * option (list byte)) :=
  let top := myMaxFrames s - 1 in
  let unocc := numberOfUnoccupiedFrames s in
  hit ← find_frame (rounds_down top unocc) top cart frm (myCache s);
  match hit with
  | Some i =>
      e ← cache_entry (myCache s) i;
      let prioritiesToAdjust := priority e in
      c1 ← cache_store (myCache s) i (with_priority (unocc + 1) e);
      '(s2, _) ← adjust_priority i prioritiesToAdjust (with_myCache c1 s);
      e2 ← cache_entry (myCache s2) i;
      Some (s2, Some (cache e2))
  | None => Some (s, None)
  end.

(** The cache as [cart_poweron] leaves it: a size was set, then
    [init_cart_cache] got a block of that many entries. *)
Definition cache_after_init (max_frames : Z) (block : list cachedFrame)
  : cache_state :=
  fst (init_cart_cache (Some block)
         (fst (set_cart_cache_size max_frames (mkCache [] 0 0)))).

(** States the cache goes through after initialisation. *)
Inductive cache_reachable : cache_state -> Prop :=
| reach_init (max_frames : Z) (block : list cachedFrame) :
    0 <= max_frames < 2 ^ 31 ->
    length block = Z.to_nat max_frames ->
    cache_reachable (cache_after_init max_frames block)
| reach_put s cart frm buf s' r :
    cache_reachable s ->
    put_cart_cache cart frm buf s = Some (s', r) ->
    cache_reachable s'
| reach_get s cart frm s' r :
    cache_reachable s ->
    get_cart_cache cart frm s = Some (s', r) ->
    cache_reachable s'.

End Cache.

(** The entries in use, in array order, and their number. *)
Definition occupied (s : cache_state) : list cachedFrame :=
  drop (Z.to_nat (numberOfUnoccupiedFrames s)) (myCache s).

Definition occupied_count (s : cache_state) : Z :=
  myMaxFrames s - numberOfUnoccupiedFrames s.

(** ** Byte buffers *)

(** [memcpy]/[strncpy] store their bytes at [dst + off]; storing past the end
    of [dst] is undefined. *)
Definition write_at (dst : list byte) (off : Z) (data : list byte)
  : option (list byte) :=
  if (0 <=? off) && (off + Z.of_nat (length data) <=? Z.of_nat (length dst))
  then Some (take (Z.to_nat off) dst ++ data
               ++ drop (Z.to_nat off + length data) dst)
  else None.

(** The [n] bytes [strncpy] stores: the bytes of [src] up to its first null
    byte, and null bytes from there on. Reading past the end of [src] before
    a null byte or the [n]-th byte is undefined. *)
Fixpoint strncpy_bytes (n : nat) (src : list byte) : option (list byte) :=
  match n with
  | O => Some []
  | S n' =>
      match src with
      | [] => None
      | b :: src' =>
          if Byte.eqb b x00 then Some (replicate (S n') x00)
          else cons b <$> strncpy_bytes n' src'
      end
  end.

(** The bytes [strncpy(dst, &src[soff], n)] stores; a negative [n] converts
    to a huge [size_t]. *)
Definition strncpy_from (src : list byte) (soff n : Z) : option (list byte) :=
  if (n <? 0) || (soff <? 0) then None
  else strncpy_bytes (Z.to_nat n) (drop (Z.to_nat soff) src).

(** [strncpy(&dst[doff], &src[soff], n)] *)
Definition strncpy (dst : list byte) (doff : Z) (src : list byte) (soff n : Z)
  : option (list byte) :=
  w ← strncpy_from src soff n;
  write_at dst doff w.

(** [strcmp(s1, s2) == 0], where [s1] and [s2] are the bytes that can be
    read from the two pointers on: the bytes are compared in turn up to the
    first difference or to a null byte in both; reading past the end of
    either is undefined. *)
Fixpoint strcmp_bytes (s1 s2 : list byte) : option bool :=
  match s1, s2 with
  | a :: s1', b :: s2' =>
      if Byte.eqb a b
      then if Byte.eqb a x00 then Some true else strcmp_bytes s1' s2'
      else Some false
  | _, _ => None
  end.

(** [strcmp(path, fileName) == 0] for a path and a stored file name. The
    path has its terminator. The name was stored by
    [strncpy(fileName, path, strlen(path))] in a block of [strlen(path)]
    bytes, so it has none: after its characters come the bytes [after] that
    follow the block in memory, as far as they can be read. *)
Definition strcmp (path stored : string) (after : list byte) : option bool :=
  strcmp_bytes (list_byte_of_string path ++ [x00])
    (list_byte_of_string stored ++ after).

(** ** File layer ([cart_driver.c]) *)

(** A pointer to a heap block: null, live with its contents, or freed. *)
Inductive pointer (A : Type) : Type :=
| NULL : pointer A
| Block : A -> pointer A
| Freed : pointer A.
Arguments NULL {A}.
Arguments Block {A} _.
Arguments Freed {A}.

Record file_location : Type := mkLocation {
  cartridges : Z;
  occupiedCartridges : list Z;   (* int*, one cartridge number per slot *)
  frames : Z;                    (* number of slots minus one *)
  occupiedFrames : list Z        (* int*, one frame number per slot *)
}.

(** [struct files]. The name is the string of the characters stored in
    the block of [fileName]; the C code stores them without a terminator. *)
Record files : Type := mkFile {
  fileName : string;
  file_length : Z;               (* int32_t length *)
  filePointer : Z;               (* int32_t *)
  location : file_location;
  fileHandle : Z                 (* int16_t; positive when open *)
}.

Definition with_length (n : Z) (f : files) : files :=
  mkFile (fileName f) n (filePointer f) (location f) (fileHandle f).
Definition with_filePointer (p : Z) (f : files) : files :=
  mkFile (fileName f) (file_length f) p (location f) (fileHandle f).
Definition with_location (l : file_location) (f : files) : files :=
  mkFile (fileName f) (file_length f) (filePointer f) l (fileHandle f).
Definition with_fileHandle (h : Z) (f : files) : files :=
  mkFile (fileName f) (file_length f) (filePointer f) (location f) h.
Definition with_fileName (s : string) (f : files) : files :=
  mkFile s (file_length f) (filePointer f) (location f) (fileHandle f).

(** [a[i]] on an [int] array. *)
Definition slot_at (a : list Z) (i : Z) : option Z :=
  if i <? 0 then None else a !! Z.to_nat i.

Definition slot_store (a : list Z) (i v : Z) : option (list Z) :=
  match slot_at a i with
  | Some _ => Some (<[Z.to_nat i := v]> a)
  | None => None
  end.

(** What undefined behaviour the driver ran into. *)
Inductive fault : Type :=
| NullFilesystem               (* filesystem[i] while filesystem is null *)
| FreedFilesystem              (* filesystem[i] after free(filesystem) *)
| FileOutOfBounds (i : Z)      (* filesystem[i] outside the block *)
| SlotOutOfBounds (i : Z)      (* occupiedFrames[i] or occupiedCartridges[i]
                                  outside the array *)
| BufferOutOfBounds            (* a copy that leaves its source or target *)
| CacheOutOfBounds             (* the same inside cart_cache.c *)
| OutOfFuel.                   (* not a C behaviour: a loop bound of the
                                  embedding was too small *)

(** Code running on globals of type [S] either returns a value and the new
    globals, or goes wrong. *)
Inductive outcome (S A : Type) : Type :=
| Returns (a : A) (s : S)
| GoesWrong (f : fault).
Arguments Returns {S A} a s.
Arguments GoesWrong {S A} f.

Section Driver.

(** Constants of the absent [cart_controller.h]. *)
Variable CART_FRAME_SIZE : Z.
Variable CART_MAX_CARTRIDGES : Z.

(** The remote controller behind [client_cart_bus_request]: given the request
    word and the buffer, it answers a response word and the buffer as it is
    after the call. *)
Variable Dev : Type.
Variable client_cart_bus_request : Z -> list byte -> Dev -> Z * list byte * Dev.

(** What is found in storage that was never written. *)
Variable indeterminate : Z.
Variable indeterminate_byte : byte.

(** Whether [malloc] has a block for a cache of that many entries. *)
Variable cache_malloc_ok : Z -> bool.

(** The bytes that follow the block of [filesystem[i].fileName] in memory,
    as far as they can be read. *)
Variable after_name : Z -> list byte.

Record driver : Type := mkDriver {
  regstate : regs;
  filesystem : pointer (list files);
  fileSystemSize : Z;            (* number of files minus one *)
  currentlyLoadedCartridge : Z;
  nextFrame : Z;
  nextCartridge : Z;
  cart_cache : cache_state;      (* the globals of cart_cache.c *)
  controller : Dev;
  bus_log : list Z               (* request words sent so far, oldest first *)
}.

Definition act (A : Type) : Type := driver -> outcome driver A.

Definition ret {A} (a : A) : act A := fun d => Returns a d.
Definition bind {A B} (m : act A) (k : A -> act B) : act B :=
  fun d => match m d with Returns a d' => k a d' | GoesWrong f => GoesWrong f end.
Definition undefined {A} (f : fault) : act A := fun _ => GoesWrong f.
Definition get {A} (proj : driver -> A) : act A := fun d => Returns (proj d) d.
Definition modify (f : driver -> driver) : act unit := fun d => Returns tt (f d).
Definition defined {A} (f : fault) (o : option A) : act A :=
  fun d => match o with Some a => Returns a d | None => GoesWrong f end.

(** [a[k]] on a slot array, and the result of a copy between buffers. *)
Definition slot_of (a : list Z) (k : Z) : act Z :=
  defined (SlotOutOfBounds k) (slot_at a k).
Definition copied (o : option (list byte)) : act (list byte) :=
  defined BufferOutOfBounds o.

Notation "'let*' x ':=' m 'in' k" := (bind m (fun x => k))
  (at level 10, x name, m at level 99, k at level 200).
Notation "m ';;' k" := (bind m (fun _ => k))
  (at level 100, k at level 200, right associativity).

Definition set_regstate (r : regs) (d : driver) : driver :=
  mkDriver r (filesystem d) (fileSystemSize d) (currentlyLoadedCartridge d)
    (nextFrame d) (nextCartridge d) (cart_cache d) (controller d) (bus_log d).
Definition set_filesystem (p : pointer (list files)) (d : driver) : driver :=
  mkDriver (regstate d) p (fileSystemSize d) (currentlyLoadedCartridge d)
    (nextFrame d) (nextCartridge d) (cart_cache d) (controller d) (bus_log d).
Definition set_fileSystemSize (n : Z) (d : driver) : driver :=
  mkDriver (regstate d) (filesystem d) n (currentlyLoadedCartridge d)
    (nextFrame d) (nextCartridge d) (cart_cache d) (controller d) (bus_log d).
Definition set_currentlyLoadedCartridge (c : Z) (d : driver) : driver :=
  mkDriver (regstate d) (filesystem d) (fileSystemSize d) c
    (nextFrame d) (nextCartridge d) (cart_cache d) (controller d) (bus_log d).
Definition set_nextFrame (n : Z) (d : driver) : driver :=
  mkDriver (regstate d) (filesystem d) (fileSystemSize d)
    (currentlyLoadedCartridge d) n (nextCartridge d) (cart_cache d)
    (controller d) (bus_log d).
Definition set_nextCartridge (n : Z) (d : driver) : driver :=
  mkDriver (regstate d) (filesystem d) (fileSystemSize d)
    (currentlyLoadedCartridge d) (nextFrame d) n (cart_cache d)
    (controller d) (bus_log d).
Definition set_cart_cache (c : cache_state) (d : driver) : driver :=
  mkDriver (regstate d) (filesystem d) (fileSystemSize d)
    (currentlyLoadedCartridge d) (nextFrame d) (nextCartridge d) c
    (controller d) (bus_log d).

(** A function of [cart_cache.c] called from the driver. *)
Definition on_cache {A} (f : cache_state -> option (cache_state * A)) : act A :=
  fun d => match f (cart_cache d) with
           | Some (c, a) => Returns a (set_cart_cache c d)
           | None => GoesWrong CacheOutOfBounds
           end.

(** [filesystem[i]] read, and updated in place. *)
Definition file_at (i : Z) : act files :=
  fun d => match filesystem d with
           | NULL => GoesWrong NullFilesystem
           | Freed => GoesWrong FreedFilesystem
           | Block fs =>
               if i <? 0 then GoesWrong (FileOutOfBounds i)
               else match fs !! Z.to_nat i with
                    | Some f => Returns f d
                    | None => GoesWrong (FileOutOfBounds i)
                    end
           end.

Definition file_update (i : Z) (g : files -> files) : act unit :=
  let* f := file_at i in
  fun d => match filesystem d with
           | Block fs =>
               Returns tt (set_filesystem (Block (<[Z.to_nat i := g f]> fs)) d)
           | NULL => GoesWrong NullFilesystem
           | Freed => GoesWrong FreedFilesystem
           end.

Definition runBusRequest (ky ct fm : Z) (buf : list byte) : act (list byte) :=
  fun d =>
    let sent := request_regs ky ct fm in
    let request := generateBusRequest sent in
    let '(response, buf', dev') :=
      client_cart_bus_request request buf (controller d) in
    Returns buf'
      (mkDriver (readBusResponse response) (filesystem d) (fileSystemSize d)
         (currentlyLoadedCartridge d) (nextFrame d) (nextCartridge d)
         (cart_cache d) dev' (bus_log d ++ [request])).

(** The block [malloc] hands to [init_cart_cache]. *)
Definition fresh_cache_block (n : Z) : list cachedFrame :=
  replicate (Z.to_nat n)
    (mkCachedFrame indeterminate indeterminate
       (replicate (Z.to_nat CART_FRAME_SIZE) indeterminate_byte) indeterminate).

(** The loop of [cart_poweron]; [Some r] when the function returns [r] from
    inside the loop. *)
Fixpoint poweron_loop (n : nat) (i : Z) : act (option Z) :=
  match n with
  | O => ret None
  | S n' =>
      runBusRequest 2 i 0 [] ;;
      let* r := get regstate in
      if negb (rt r =? 0) then ret (Some (-1))
      else
        runBusRequest 1 0 0 [] ;;
        let* r := get regstate in
        if negb (rt r =? 0) then ret (Some (-1))
        else
          modify (set_currentlyLoadedCartridge i) ;;
          poweron_loop n' (i + 1)
  end.

Definition cart_poweron : act Z :=
  runBusRequest 0 0 0 [] ;;
  let* r := get regstate in
  if negb (rt r =? 0) then ret (-1)
  else
    let* early := poweron_loop (Z.to_nat CART_MAX_CARTRIDGES) 0 in
    match early with
    | Some r => ret r
    | None =>
        let* size := get (fun d => myMaxFrames (cart_cache d)) in
        (* myCache = malloc(sizeof(struct cachedFrame) * myMaxFrames) *)
        let block := if cache_malloc_ok size
                     then Some (fresh_cache_block size) else None in
        let* c := on_cache (fun s => Some (init_cart_cache block s)) in
        if negb (c =? 0) then ret (-1) else ret 0
    end.

(** The loop of [cart_poweroff], for [i], [i + 1], ... *)
Fixpoint poweroff_loop (n : nat) (i : Z) : act unit :=
  match n with
  | O => ret tt
  | S n' => file_update i (with_fileHandle 0) ;; poweroff_loop n' (i + 1)
  end.

Definition cart_poweroff : act Z :=
  let* size := get fileSystemSize in
  poweroff_loop (Z.to_nat (size + 1)) 0 ;;
  modify (set_filesystem Freed) ;;
  runBusRequest 5 0 0 [] ;;
  let* r := get regstate in
  if negb (rt r =? 0) then ret (-1)
  else
    let* c := on_cache (fun s => Some (close_cart_cache s)) in
    if negb (c =? 0) then ret (-1) else ret 0.

(** The record of a file that was just allocated and not yet filled in; its
    two slot arrays have room for one [int]. *)
Definition fresh_file : files :=
  mkFile EmptyString indeterminate indeterminate
    (mkLocation indeterminate [indeterminate] indeterminate [indeterminate])
    indeterminate.

(** [for (j = 0; j <= last; j++) if (filesystem[j].fileHandle == h) ...]
    of [cart_open]: is handle [h] taken by one of the files scanned? *)
Fixpoint handle_taken (n : nat) (j h : Z) : act bool :=
  match n with
  | O => ret false
  | S n' =>
      let* f := file_at j in
      let* rest := handle_taken n' (j + 1) h in
      ret ((fileHandle f =? h) || rest)
  end.

(** The [do ... while] of [cart_open]: count up from [fileHandleAssign] to
    the first handle that none of the [scanned] files has. With [scanned]
    files the loop body runs at most [scanned + 1] times. *)
Fixpoint pick_handle (fuel : nat) (scanned : nat) (fileHandleAssign : Z)
  : act Z :=
  let fileHandleAssign := fileHandleAssign + 1 in
  let* taken := handle_taken scanned 0 fileHandleAssign in
  if taken then
    match fuel with
    | O => undefined OutOfFuel
    | S fuel' => pick_handle fuel' scanned fileHandleAssign
    end
  else ret fileHandleAssign.

(** The loop of [cart_open] over the existing files; [Some r] when the
    function returns [r] from inside the loop. *)
Fixpoint open_scan (n : nat) (i : Z) (path : string) : act (option Z) :=
  match n with
  | O => ret None
  | S n' =>
      let* f := file_at i in
      let* same := defined BufferOutOfBounds
                     (strcmp path (fileName f) (after_name i)) in
      if same then
        if fileHandle f >? 0 then ret (Some (-1))
        else
          let* size := get fileSystemSize in
          let scanned := Z.to_nat (size + 1) in
          let* fileHandleAssign := pick_handle scanned scanned 0 in
          file_update i (with_filePointer 0) ;;
          file_update size (with_fileHandle (int16 fileHandleAssign)) ;;
          let* last := file_at size in
          ret (Some (fileHandle last))
      else open_scan n' (i + 1) path
  end.

Definition cart_open (path : string) : act Z :=
  let* table := get filesystem in
  match table with
  | NULL =>
      modify (set_filesystem (Block [fresh_file])) ;;
      file_update 0 (with_fileName path) ;;
      file_update 0 (with_length 0) ;;
      file_update 0 (with_filePointer 0) ;;
      file_update 0 (with_fileHandle 1) ;;
      ret 1
  | Freed => undefined FreedFilesystem
  | Block _ =>
      let* size := get fileSystemSize in
      let* early := open_scan (Z.to_nat (size + 1)) 0 path in
      match early with
      | Some r => ret r
      | None =>
          modify (set_fileSystemSize (size + 1)) ;;
          let* size := get fileSystemSize in
          let* table := get filesystem in
          match table with
          | Block fs =>
              modify (set_filesystem
                        (Block (resize (Z.to_nat (size + 1)) fresh_file fs))) ;;
              file_update size (with_fileName path) ;;
              file_update size (with_length 0) ;;
              file_update size (with_filePointer 0) ;;
              let scanned := Z.to_nat size in
              let* fileHandleAssign := pick_handle scanned scanned 0 in
              file_update size (with_fileHandle (int16 fileHandleAssign)) ;;
              let* last := file_at size in
              ret (fileHandle last)
          | NULL => undefined NullFilesystem
          | Freed => undefined FreedFilesystem
          end
      end
  end.

(** [for (i = 0; i <= fileSystemSize; i++) if (filesystem[i].fileHandle ==
    fd) { fileSystemIndex = i; break; }], starting from [-1]. *)
Fixpoint find_handle (n : nat) (i fd : Z) : act Z :=
  match n with
  | O => ret (-1)
  | S n' =>
      let* f := file_at i in
      if fileHandle f =? fd then ret i else find_handle n' (i + 1) fd
  end.

Definition fileSystemIndex_of (fd : Z) : act Z :=
  let* size := get fileSystemSize in
  find_handle (Z.to_nat (size + 1)) 0 fd.

Definition cart_close (fd : Z) : act Z :=
  let* fileSystemIndex := fileSystemIndex_of fd in
  if fileSystemIndex =? -1 then ret (-1)
  else
    let* f := file_at fileSystemIndex in
    if fileHandle f =? 0 then ret (-1)
    else
      file_update fileSystemIndex (with_fileHandle 0) ;;
      file_update fileSystemIndex (with_filePointer 0) ;;
      ret 0.

(** [loc] is a [uint32_t]; the comparison with the [int32_t] length is made
    on unsigned values, the store converts back to [int32_t]. *)
Definition cart_seek (fd loc : Z) : act Z :=
  let loc := uint32 loc in
  let* fileSystemIndex := fileSystemIndex_of fd in
  if fileSystemIndex =? -1 then ret (-1)
  else
    let* f := file_at fileSystemIndex in
    if fileHandle f =? 0 then ret (-1)
    else if uint32 (file_length f) <? loc then ret (-1)
    else
      file_update fileSystemIndex (with_filePointer (int32 loc)) ;;
      ret 0.

(** [if (currentlyLoadedCartridge != c) { LOAD c; ... }]; [Some r] when the
    function returns [r] because the controller refused. *)
Definition load_cartridge (c : Z) : act (option Z) :=
  let* loaded := get currentlyLoadedCartridge in
  if negb (loaded =? c) then
    runBusRequest 2 c 0 [] ;;
    let* r := get regstate in
    if negb (rt r =? 0) then ret (Some (-1))
    else modify (set_currentlyLoadedCartridge c) ;; ret None
  else ret None.

(** One round of the loops of [cart_read] and [cart_write] that bring slot
    [i + startFrameIndex] of the file into [localBuf], from the cache or from
    the controller. The result is the new [localBuf] and, when the function
    returns from inside the loop, its return value. *)
Definition fetch_slot (fileSystemIndex startFrameIndex i : Z)
    (localBuf : list byte) : act (option Z * list byte) :=
  let* f := file_at fileSystemIndex in
  let* c := slot_of (occupiedCartridges (location f)) (i + startFrameIndex) in
  let* fm := slot_of (occupiedFrames (location f)) (i + startFrameIndex) in
  let* get_cart_cache_results :=
    on_cache (get_cart_cache (uint16 c) (uint16 fm)) in
  match get_cart_cache_results with
  | None =>
      let* early := load_cartridge c in
      match early with
      | Some r => ret (Some r, localBuf)
      | None =>
          let window := take (Z.to_nat CART_FRAME_SIZE)
                          (drop (Z.to_nat (CART_FRAME_SIZE * i)) localBuf) in
          let* received := runBusRequest 3 0 fm window in
          let* localBuf :=
            copied (write_at localBuf (CART_FRAME_SIZE * i)
                      (take (Z.to_nat CART_FRAME_SIZE) received)) in
          let* r := get regstate in
          if negb (rt r =? 0) then ret (Some (-1), localBuf)
          else ret (None, localBuf)
      end
  | Some cached =>
      let* localBuf :=
        copied (write_at localBuf (CART_FRAME_SIZE * i)
                  (take (Z.to_nat CART_FRAME_SIZE) cached)) in
      ret (None, localBuf)
  end.

Fixpoint fetch_loop (n : nat) (fileSystemIndex startFrameIndex i : Z)
    (localBuf : list byte) : act (option Z * list byte) :=
  match n with
  | O => ret (None, localBuf)
  | S n' =>
      let* step := fetch_slot fileSystemIndex startFrameIndex i localBuf in
      match step with
      | (Some r, localBuf) => ret (Some r, localBuf)
      | (None, localBuf) =>
          fetch_loop n' fileSystemIndex startFrameIndex (i + 1) localBuf
      end
  end.

(** [cart_read] returns its result and the bytes it stored in [buf]. *)
Definition cart_read (fd count : Z) : act (Z * list byte) :=
  let* fileSystemIndex := fileSystemIndex_of fd in
  if fileSystemIndex =? -1 then ret (-1, [])
  else
    let* f := file_at fileSystemIndex in
    if fileHandle f =? 0 then ret (-1, [])
    else
      let startFrameIndex := filePointer f ÷ CART_FRAME_SIZE in
      let endFrameIndex := (filePointer f + count) ÷ CART_FRAME_SIZE in
      let frameCount := endFrameIndex - startFrameIndex + 1 in
      let localBuf :=
        replicate (Z.to_nat (CART_FRAME_SIZE * frameCount)) indeterminate_byte in
      (* for (i = 0; i <= endFrameIndex - startFrameIndex
                     && i <= filesystem[fileSystemIndex].location.frames; i++) *)
      let rounds :=
        Z.to_nat (Z.min (endFrameIndex - startFrameIndex) (frames (location f))
                  + 1) in
      let* fetched :=
        fetch_loop rounds fileSystemIndex startFrameIndex 0 localBuf in
      match fetched with
      | (Some r, _) => ret (r, [])
      | (None, localBuf) =>
          let* f := file_at fileSystemIndex in
          let from := filePointer f - startFrameIndex * CART_FRAME_SIZE in
          if filePointer f + count >? file_length f then
            let i := file_length f - filePointer f in
            let* out := copied (strncpy_from localBuf from i) in
            file_update fileSystemIndex (with_filePointer (file_length f)) ;;
            ret (i, out)
          else
            let* out := copied (strncpy_from localBuf from count) in
            file_update fileSystemIndex
              (with_filePointer (filePointer f + count)) ;;
            ret (count, out)
      end.

(** [nextFrame++; if (nextFrame == CART_FRAME_SIZE) { nextFrame = 0;
    nextCartridge++; }] *)
Definition advance_frontier : act unit :=
  let* nf := get nextFrame in
  modify (set_nextFrame (nf + 1)) ;;
  let* nf := get nextFrame in
  if nf =? CART_FRAME_SIZE then
    modify (set_nextFrame 0) ;;
    let* nc := get nextCartridge in
    modify (set_nextCartridge (nc + 1))
  else ret tt.

(** One round of the second loop of [cart_write]: slot [i + startFrameIndex]
    goes from [localBuf] to the cache and to the controller. *)
Definition flush_slot (fileSystemIndex startFrameIndex i : Z)
    (localBuf : list byte) : act (option Z) :=
  let* f := file_at fileSystemIndex in
  let* c := slot_of (occupiedCartridges (location f)) (i + startFrameIndex) in
  let* early := load_cartridge c in
  match early with
  | Some r => ret (Some r)
  | None =>
      let sizeOfFrameBuf :=
        replicate (Z.to_nat CART_FRAME_SIZE) indeterminate_byte in
      let* sizeOfFrameBuf :=
        copied (strncpy sizeOfFrameBuf 0 localBuf (i * CART_FRAME_SIZE)
                  CART_FRAME_SIZE) in
      let* fm := slot_of (occupiedFrames (location f)) (i + startFrameIndex) in
      on_cache (put_cart_cache CART_FRAME_SIZE (uint16 c) (uint16 fm)
                  sizeOfFrameBuf) ;;
      runBusRequest 4 0 fm sizeOfFrameBuf ;;
      let* r := get regstate in
      if negb (rt r =? 0) then ret (Some (-1)) else ret None
  end.

Fixpoint flush_loop (n : nat) (fileSystemIndex startFrameIndex i : Z)
    (localBuf : list byte) : act (option Z) :=
  match n with
  | O => ret None
  | S n' =>
      let* early := flush_slot fileSystemIndex startFrameIndex i localBuf in
      match early with
      | Some r => ret (Some r)
      | None => flush_loop n' fileSystemIndex startFrameIndex (i + 1) localBuf
      end
  end.

Definition update_location (fileSystemIndex : Z)
    (g : file_location -> file_location) : act unit :=
  file_update fileSystemIndex (fun f => with_location (g (location f)) f).

Definition with_frames (n : Z) (l : file_location) : file_location :=
  mkLocation (cartridges l) (occupiedCartridges l) n (occupiedFrames l).
Definition with_cartridges (n : Z) (l : file_location) : file_location :=
  mkLocation n (occupiedCartridges l) (frames l) (occupiedFrames l).
Definition with_occupiedFrames (a : list Z) (l : file_location) : file_location :=
  mkLocation (cartridges l) (occupiedCartridges l) (frames l) a.
Definition with_occupiedCartridges (a : list Z) (l : file_location)
  : file_location :=
  mkLocation (cartridges l) a (frames l) (occupiedFrames l).

(** [occupiedFrames[k] = v] and [occupiedCartridges[k] = v] on file
    [fileSystemIndex]. *)
Definition store_occupiedFrame (fileSystemIndex k v : Z) : act unit :=
  let* f := file_at fileSystemIndex in
  let* a := defined (SlotOutOfBounds k)
              (slot_store (occupiedFrames (location f)) k v) in
  update_location fileSystemIndex (with_occupiedFrames a).

Definition store_occupiedCartridge (fileSystemIndex k v : Z) : act unit :=
  let* f := file_at fileSystemIndex in
  let* a := defined (SlotOutOfBounds k)
              (slot_store (occupiedCartridges (location f)) k v) in
  update_location fileSystemIndex (with_occupiedCartridges a).

(** [realloc] of a slot array to [n] [int]s. *)
Definition realloc_slots (a : list Z) (n : Z) : list Z :=
  resize (Z.to_nat n) indeterminate a.

(** The branch of [cart_write] for a file of length 0. *)
Definition write_first_frame (fileSystemIndex : Z) (buf : list byte) (count : Z)
  : act Z :=
  update_location fileSystemIndex (with_frames 0) ;;
  update_location fileSystemIndex (with_cartridges 0) ;;
  let* nf := get nextFrame in
  store_occupiedFrame fileSystemIndex 0 nf ;;
  let* nc := get nextCartridge in
  store_occupiedCartridge fileSystemIndex 0 nc ;;
  advance_frontier ;;
  file_update fileSystemIndex (with_length count) ;;
  file_update fileSystemIndex (with_filePointer count) ;;
  let sizeOfFrameBuf :=
    replicate (Z.to_nat CART_FRAME_SIZE) indeterminate_byte in
  let* sizeOfFrameBuf := copied (strncpy sizeOfFrameBuf 0 buf 0 count) in
  let* f := file_at fileSystemIndex in
  let* c := slot_of (occupiedCartridges (location f)) 0 in
  let* early := load_cartridge c in
  match early with
  | Some r => ret r
  | None =>
      let* fm := slot_of (occupiedFrames (location f)) 0 in
      on_cache (put_cart_cache CART_FRAME_SIZE (uint16 c) (uint16 fm)
                  sizeOfFrameBuf) ;;
      runBusRequest 4 0 fm sizeOfFrameBuf ;;
      let* r := get regstate in
      if negb (rt r =? 0) then ret (-1) else ret count
  end.

(** The branch of [cart_write] for a file that already has bytes. *)
Definition write_more (fileSystemIndex : Z) (buf : list byte) (count : Z)
  : act Z :=
  let* f := file_at fileSystemIndex in
  (if filePointer f + count >? (frames (location f) + 1) * CART_FRAME_SIZE then
     update_location fileSystemIndex (with_frames (frames (location f) + 1)) ;;
     let* f := file_at fileSystemIndex in
     let last := frames (location f) in
     update_location fileSystemIndex
       (fun l => with_occupiedFrames
                   (realloc_slots (occupiedFrames l) (last + 1)) l) ;;
     let* nf := get nextFrame in
     store_occupiedFrame fileSystemIndex last nf ;;
     modify (set_nextFrame (nf + 1)) ;;
     update_location fileSystemIndex
       (fun l => with_occupiedCartridges
                   (realloc_slots (occupiedCartridges l) (last + 1)) l) ;;
     let* nc := get nextCartridge in
     store_occupiedCartridge fileSystemIndex last nc ;;
     let* nf := get nextFrame in
     if nf =? CART_FRAME_SIZE then
       modify (set_nextFrame 0) ;;
       modify (set_nextCartridge (nc + 1))
     else ret tt
   else ret tt) ;;
  let* f := file_at fileSystemIndex in
  let startFrameIndex := filePointer f ÷ CART_FRAME_SIZE in
  let endFrameIndex :=
    if negb (Z.rem (filePointer f + count) CART_FRAME_SIZE =? 0)
    then (filePointer f + count) ÷ CART_FRAME_SIZE
    else startFrameIndex in
  let frameCount := endFrameIndex - startFrameIndex + 1 in
  let localBuf :=
    replicate (Z.to_nat (CART_FRAME_SIZE * frameCount)) indeterminate_byte in
  (* for (i = 0; i <= endFrameIndex - startFrameIndex; i++) *)
  let rounds := Z.to_nat (endFrameIndex - startFrameIndex + 1) in
  let* fetched := fetch_loop rounds fileSystemIndex startFrameIndex 0 localBuf in
  match fetched with
  | (Some r, _) => ret r
  | (None, localBuf) =>
      let* localBuf :=
        copied (strncpy localBuf
                  (filePointer f - startFrameIndex * CART_FRAME_SIZE)
                  buf 0 count) in
      let* early := flush_loop rounds fileSystemIndex startFrameIndex 0 localBuf in
      match early with
      | Some r => ret r
      | None =>
          let* f := file_at fileSystemIndex in
          (if file_length f <? filePointer f + count then
             file_update fileSystemIndex
               (with_length
                  (file_length f + (count - (file_length f - filePointer f)))) ;;
             let* f := file_at fileSystemIndex in
             file_update fileSystemIndex (with_filePointer (file_length f))
           else
             file_update fileSystemIndex
               (with_filePointer (filePointer f + count))) ;;
          ret count
      end
  end.

Definition cart_write (fd : Z) (buf : list byte) (count : Z) : act Z :=
  let* fileSystemIndex := fileSystemIndex_of fd in
  if fileSystemIndex =? -1 then ret (-1)
  else
    let* f := file_at fileSystemIndex in
    if fileHandle f =? 0 then ret (-1)
    else if file_length f =? 0 then write_first_frame fileSystemIndex buf count
    else write_more fileSystemIndex buf count.

End Driver.

Arguments mkDriver {Dev}.
Arguments regstate {Dev} d.
Arguments filesystem {Dev} d.
Arguments fileSystemSize {Dev} d.
Arguments currentlyLoadedCartridge {Dev} d.
Arguments nextFrame {Dev} d.
Arguments nextCartridge {Dev} d.
Arguments cart_cache {Dev} d.
Arguments controller {Dev} d.
Arguments bus_log {Dev} d.
Arguments set_filesystem {Dev} p d.
Arguments ret {Dev A} a d.
Arguments bind {Dev A B} m k d.
Arguments file_at {Dev} i d.
Arguments file_update {Dev} i g d.
Arguments find_handle {Dev} n i fd d.
Arguments handle_taken {Dev} n j h d.
Arguments pick_handle {Dev} fuel scanned fileHandleAssign d.
Arguments fileSystemIndex_of {Dev} fd d.
Arguments cart_open {Dev} indeterminate after_name path d.
Arguments cart_close {Dev} fd d.
Arguments cart_seek {Dev} fd loc d.
Arguments cart_poweroff {Dev} client_cart_bus_request d.

(** ** Notions used to state the properties *)

(** Entry [e] is at index [i] of the block and in use. *)
Definition in_use (s : cache_state) (i : Z) (e : cachedFrame) : Prop :=
  numberOfUnoccupiedFrames s <= i /\ cache_entry (myCache s) i = Some e.

(** What the cache code keeps true: the entries in use have pairwise
    different priorities, all in
    [numberOfUnoccupiedFrames + 1 .. myMaxFrames], and pairwise different
    keys. *)
Record cache_inv (s : cache_state) : Prop := mkCacheInv {
  inv_bounds : 0 <= numberOfUnoccupiedFrames s <= myMaxFrames s;
  inv_length : Z.of_nat (length (myCache s)) = myMaxFrames s;
  inv_range : forall i e, in_use s i e ->
    numberOfUnoccupiedFrames s + 1 <= priority e <= myMaxFrames s;
  inv_priority : forall i j e e', in_use s i e -> in_use s j e' ->
    priority e = priority e' -> i = j;
  inv_key : forall i j e e', in_use s i e -> in_use s j e' ->
    frame e = frame e' -> cartridge e = cartridge e' -> i = j
}.

(** The effect on entry [j] of touching entry [i], whose priority was [old]:
    [i] gets the lowest priority in use, the entries in use that were below
    [old] move up by one. *)
Definition touch_entry (unocc i old j : Z) (e : cachedFrame) : cachedFrame :=
  if j =? i then with_priority (unocc + 1) e
  else if (unocc <=? j) && (priority e <? old)
       then with_priority (priority e + 1) e
       else e.

Definition touched (s : cache_state) (i old : Z) : list cachedFrame :=
  imap (fun j e => touch_entry (numberOfUnoccupiedFrames s) i old (Z.of_nat j) e)
    (myCache s).

(** The statement of the specification about the priorities in use, as
    written there: they are the numbers [1 .. occupied_count], each once. *)
Definition priorities_one_to_count (s : cache_state) : Prop :=
  priority <$> occupied s ≡ₚ seqZ 1 (occupied_count s).

(** Some entry in use has the key, and an entry in use that has the key has
    priority [p]. *)
Definition key_has_priority (s : cache_state) (cart frm p : Z) : Prop :=
  (exists i e, in_use s i e /\ cartridge e = cart /\ frame e = frm)
  /\ forall i e, in_use s i e -> cartridge e = cart -> frame e = frm ->
       priority e = p.

(** The cache holds the bytes [b] under the key. *)
Definition key_holds (s : cache_state) (cart frm : Z) (b : list byte) : Prop :=
  exists i e, in_use s i e /\ cartridge e = cart /\ frame e = frm /\ cache e = b.

(** A controller that answers return code 0 to every request. *)
Definition accepts_all {Dev} (ctl : Z -> list byte -> Dev -> Z * list byte * Dev)
  : Prop :=
  forall request buf dev, rt (readBusResponse (ctl request buf dev).1.1) = 0.

(** The request words of [cart_poweron] for [n] cartridges: INIT, then LOAD
    and ZERO for each cartridge in turn. *)
Definition load_and_zero (first : Z) (n : nat) : list Z :=
  concat (map (fun c => [generateBusRequest (request_regs 2 c 0);
                         generateBusRequest (request_regs 1 0 0)])
            (seqZ first (Z.of_nat n))).

(** The handles of the first [scanned] files that are greater than [h]. *)
Definition handles_above (h : Z) (scanned : nat) (fs : list files) : list Z :=
  filter (fun k => h < k) (fileHandle <$> take scanned fs).

(** File [f] after its first write, of [n] bytes, when the frontier was
    cartridge [nc], frame [nf]. *)
Definition first_frame (f : files) (nc nf n : Z) : files :=
  mkFile (fileName f) n n
    (mkLocation 0 (<[0%nat := nc]> (occupiedCartridges (location f))) 0
       (<[0%nat := nf]> (occupiedFrames (location f))))
    (fileHandle f).

(** The first file of the table whose handle is [fd], with its index. *)
Definition file_of_handle (fs : list files) (fd : Z) : option (nat * files) :=
  list_find (fun f => fileHandle f = fd) fs.

(** ** A concrete platform, for the examples *)

(** The globals when the program starts, once [set_cart_cache_size] was
    called. *)
Definition at_program_start {Dev} (cache_size : Z) (dev : Dev) : driver Dev :=
  mkDriver (mkRegs 0 0 0 0) NULL 0 0 0 0
    (fst (set_cart_cache_size cache_size (mkCache [] 0 0))) dev [].

(** A controller that accepts every request (its response word is the
    request word with return code 0) and whose frames hold null bytes, as
    after the ZERO requests of [cart_poweron]. *)
Definition zeroed_controller (frame_size : Z) (request : Z) (buf : list byte)
    (dev : unit) : Z * list byte * unit :=
  (Z.clearbit request 47,
   if kyOne (readBusResponse request) =? 3
   then replicate (Z.to_nat frame_size) x00 else buf,
   dev).

Module Demo.
Definition frame_size : Z := 1024.
Definition max_cartridges : Z := 64.
Definition start : driver unit := at_program_start 4 tt.
(** [malloc] has a block for every cache, and a null byte follows the
    block of every stored name. *)
Definition cache_malloc_ok (n : Z) : bool := true.
Definition after_name (i : Z) : list byte := [x00].
Definition poweron : act unit Z :=
  cart_poweron frame_size max_cartridges unit (zeroed_controller frame_size)
    0 x00 cache_malloc_ok.
Definition poweroff : act unit Z := cart_poweroff (zeroed_controller frame_size).
Definition open (path : string) : act unit Z := cart_open 0 after_name path.
Definition close (fd : Z) : act unit Z := cart_close fd.
Definition seek (fd loc : Z) : act unit Z := cart_seek fd loc.
Definition read (fd count : Z) : act unit (Z * list byte) :=
  cart_read frame_size unit (zeroed_controller frame_size) x00 fd count.
Definition write (fd : Z) (buf : list byte) (count : Z) : act unit Z :=
  cart_write frame_size unit (zeroed_controller frame_size) 0 x00 fd buf count.

(** A cache of two places, as [malloc] left it, a frame of 1024 bytes to
    put in it, and the cache once that frame is in it under key (0, 0). *)
Definition junk : cachedFrame := mkCachedFrame 7 7 [] 7.
Definition empty_cache : cache_state := cache_after_init 2 [junk; junk].
Definition payload : list byte := replicate 1024 x01.
Definition one_frame_cache : cache_state :=
  mkCache [junk; mkCachedFrame 0 0 payload 2] 2 1.

(** A cache of no place at all. *)
Definition no_cache : cache_state := cache_after_init 0 [].

(** A file of three bytes, open under handle 1, and the globals of a
    driver that has only this file. *)
Definition three_bytes : files :=
  mkFile "a" 3 3 (mkLocation 0 [0] 0 [0]) 1.
Definition one_file : driver unit :=
  set_filesystem (Block [three_bytes]) start.

(** Run [m], then [k] on its result. *)
Definition and_then {A B} (m : act unit A) (k : A -> act unit B) : act unit B :=
  bind m k.

(** The request words of [cart_poweron] with 64 cartridges. *)
Definition poweron_requests : list Z :=
  generateBusRequest (request_regs 0 0 0) :: load_and_zero 0 64.

(** Power on, create "a" and "b", close "a", open "a" again; the four
    values returned by the calls after [cart_poweron]. *)
Definition reopen : act unit (Z * Z * Z * Z) :=
  and_then poweron (fun _ =>
  and_then (open "a") (fun a =>
  and_then (open "b") (fun b =>
  and_then (close a) (fun c =>
  and_then (open "a") (fun a' =>
  ret (a, b, c, a')))))).

(** Power on, create "a", write [buf] to it, seek back to 0, read as many
    bytes; the values returned by the write, the seek and the read. *)
Definition write_then_read (buf : list byte) : act unit (Z * Z * (Z * list byte)) :=
  let n := Z.of_nat (length buf) in
  and_then poweron (fun _ =>
  and_then (open "a") (fun h =>
  and_then (write h buf n) (fun w =>
  and_then (seek h 0) (fun s =>
  and_then (read h n) (fun r =>
  ret (w, s, r)))))).

(** Power on, create "a", write a frame of null bytes and then a frame of
    bytes 1, seek to the start of the second frame; what the calls after
    [cart_poweron] returned. *)
Definition two_frames : act unit (Z * Z * Z * Z) :=
  and_then poweron (fun _ =>
  and_then (open "a") (fun h =>
  and_then (write h (replicate 1024 x00) 1024) (fun w1 =>
  and_then (write h (replicate 1024 x01) 1024) (fun w2 =>
  and_then (seek h 1024) (fun s =>
  ret (h, w1, w2, s)))))).

(** Power on and create "a". *)
Definition opened : act unit Z := and_then poweron (fun _ => open "a").

(** Write [buf] to the file of handle [h], seek back to 0, read as many
    bytes. *)
Definition write_seek_read (h : Z) (buf : list byte)
  : act unit (Z * Z * (Z * list byte)) :=
  let n := Z.of_nat (length buf) in
  and_then (write h buf n) (fun w =>
  and_then (seek h 0) (fun s =>
  and_then (read h n) (fun r =>
  ret (w, s, r)))).

(** The table of files, without the slot arrays. *)
Definition table_summary (d : driver unit) : list (string * Z * Z * Z) :=
  match filesystem d with
  | Block fs =>
      map (fun f => (fileName f, file_length f, filePointer f, fileHandle f)) fs
  | _ => []
  end.
End Demo.

(** ** More states of the cache for the examples *)

Module DemoCache.

(** The cache of two places of [Demo] once it is full: key (0, 0) was put
    first, then key (0, 1). *)
Definition full_cache : cache_state :=
  mkCache [mkCachedFrame 1 0 Demo.payload 1; mkCachedFrame 0 0 Demo.payload 2] 2 0.

(** A cache of three places as [malloc] left it; the same after frames 0, 1
    and 2 of cartridge 0 were put, in that order; and then after frame 0 was
    got. *)
Definition three_places : cache_state :=
  cache_after_init 3 [Demo.junk; Demo.junk; Demo.junk].
Definition three_keys : cache_state :=
  mkCache [mkCachedFrame 2 0 Demo.payload 1; mkCachedFrame 1 0 Demo.payload 2;
           mkCachedFrame 0 0 Demo.payload 3] 3 0.
Definition three_keys_touched : cache_state :=
  mkCache [mkCachedFrame 2 0 Demo.payload 2; mkCachedFrame 1 0 Demo.payload 3;
           mkCachedFrame 0 0 Demo.payload 1] 3 0.

End DemoCache.

(** ** More notions for the file layer *)

(** The first file of the table whose name is [path], with its index. *)
Definition file_of_name (fs : list files) (path : string)
  : option (nat * files) :=
  list_find (fun f => String.eqb path (fileName f) = true) fs.

(** A null byte can be read after the block of every stored name. *)
Definition names_terminated (after_name : Z -> list byte) : Prop :=
  forall i, exists rest, after_name i = x00 :: rest.

(** A string without a null character, as every C string is. *)
Definition c_string (s : string) : Prop := x00 ∉ list_byte_of_string s.

(** [h] is the handle [cart_open] picks for a table with the files [fs]: the
    least positive number that is the handle of none of them. *)
Definition least_free_handle (fs : list files) (h : Z) : Prop :=
  0 < h /\ (h ∉ fileHandle <$> fs)
  /\ forall k, 0 < k < h -> k ∈ fileHandle <$> fs.

(** The record [cart_open] makes for a new file. *)
Definition new_file (indeterminate : Z) (path : string) (h : Z) : files :=
  mkFile path 0 0
    (mkLocation indeterminate [indeterminate] indeterminate [indeterminate]) h.

(** The numbers of [hs] other than 0 are pairwise different. *)
Definition distinct_unless_0 (hs : list Z) : Prop :=
  forall (i j : nat) a, hs !! i = Some a -> hs !! j = Some a -> a <> 0 -> i = j.

(** A table of files in good order: it has as many files as
    [fileSystemSize] says, their names are pairwise different, no handle is
    negative, and the handles of the open files are pairwise different. *)
Record table_ok (fs : list files) (size : Z) : Prop := mkTableOk {
  ok_size : Z.of_nat (length fs) = size + 1;
  ok_names : NoDup (fileName <$> fs);
  ok_handles_pos : Forall (fun f => 0 <= fileHandle f) fs;
  ok_handles : distinct_unless_0 (fileHandle <$> fs)
}.

(** The globals of the file layer in good order: no table yet, as when the
    program starts, or a table in good order. *)
Definition driver_ok {Dev} (d : driver Dev) : Prop :=
  match filesystem d with
  | NULL => fileSystemSize d = 0
  | Block fs => table_ok fs (fileSystemSize d)
  | Freed => False
  end.

(** ** More tables of files for the examples *)

Module DemoFiles.

(** A table of two files: "a", of three bytes, is closed, and "b", without
    bytes, is open under handle 1. *)
Definition closed_a : files :=
  mkFile "a" 3 0 (mkLocation 0 [0] 0 [0]) 0.
Definition open_b : files :=
  mkFile "b" 0 0 (mkLocation 0 [0] 0 [0]) 1.
Definition two_files : driver unit :=
  set_fileSystemSize unit 1
    (set_filesystem (Block [closed_a; open_b]) Demo.start).

(** A platform where no byte can be read after the block of a name. *)
Definition nothing_after (i : Z) : list byte := [].

(** A platform where the block of a name is followed by the size field of
    the next block of the heap. *)
Definition chunk_after (i : Z) : list byte := [x21; x00].

End DemoFiles.

(** A controller that refuses every request: its response word is the
    request word with return code 1. *)
Definition refusing_controller (request : Z) (buf : list byte) (dev : unit)
  : Z * list byte * unit :=
  (Z.setbit request 47, buf, dev).

(** ** What a call leaves alone *)

(** Whenever [m] returns, the globals before and after it are related by
    [R]. *)
Definition keeps {Dev A} (R : driver Dev -> driver Dev -> Prop) (m : act Dev A)
  : Prop :=
  forall d a d', m d = Returns a d' -> R d d'.

(** The table of files without the cursors. *)
Definition without_cursors (p : pointer (list files)) : pointer (list files) :=
  match p with
  | Block fs => Block (with_filePointer 0 <$> fs)
  | NULL => NULL
  | Freed => Freed
  end.

(** The table of files without what [cart_write] may change in file [i]:
    its length, cursor and frames. *)
Definition blank (f : files) : files :=
  mkFile (fileName f) 0 0 (mkLocation 0 [] 0 []) (fileHandle f).

Definition without_file (i : Z) (p : pointer (list files))
  : pointer (list files) :=
  match p with
  | Block fs => Block (if i <? 0 then fs else alter blank (Z.to_nat i) fs)
  | NULL => NULL
  | Freed => Freed
  end.

(** The opcode of a request word. *)
Definition opcode (w : Z) : Z := kyOne (readBusResponse w).

(** [d'] has the request words of [d] and then more, all with an opcode
    of [ops]. *)
Definition sent_only {Dev} (ops : list Z) (d d' : driver Dev) : Prop :=
  exists l, bus_log d' = bus_log d ++ l /\ Forall (fun w => opcode w ∈ ops) l.

(** If cache [c] was in good order, so is [c'], with as many places, as
    many of them free, and the same frames under the same keys. *)
Definition same_frames (c c' : cache_state) : Prop :=
  cache_inv c ->
  cache_inv c'
  /\ myMaxFrames c' = myMaxFrames c
  /\ numberOfUnoccupiedFrames c' = numberOfUnoccupiedFrames c
  /\ forall k f b, key_holds c' k f b <-> key_holds c k f b.

(** What [cart_read] leaves alone. *)
Definition read_only {Dev} (d d' : driver Dev) : Prop :=
  fileSystemSize d' = fileSystemSize d
  /\ nextFrame d' = nextFrame d
  /\ nextCartridge d' = nextCartridge d
  /\ without_cursors (filesystem d') = without_cursors (filesystem d)
  /\ sent_only [2; 3] d d'
  /\ same_frames (cart_cache d) (cart_cache d').

(** What [cart_write] on file [i] leaves alone. *)
Definition writes_file {Dev} (i : Z) (d d' : driver Dev) : Prop :=
  fileSystemSize d' = fileSystemSize d
  /\ without_file i (filesystem d') = without_file i (filesystem d)
  /\ sent_only [2; 3; 4] d d'
  /\ (cache_inv (cart_cache d) ->
      cache_inv (cart_cache d')
      /\ myMaxFrames (cart_cache d') = myMaxFrames (cart_cache d)).

(** The table of files and its size are as before. *)
Definition same_table {Dev} (d d' : driver Dev) : Prop :=
  filesystem d' = filesystem d /\ fileSystemSize d' = fileSystemSize d.

(** Whenever [m] returns, the value it returns has property [Q]. *)
Definition yields {Dev A} (Q : A -> Prop) (m : act Dev A) : Prop :=
  forall d a d', m d = Returns a d' -> Q a.

(** A loop over the frames of a file returns from inside with -1 only. *)
Definition early_is_minus_1 (p : option Z * list byte) : Prop :=
  p.1 = None \/ p.1 = Some (-1).

(** ** Runs on the demo platform, for the examples *)

Module DemoRuns.

(** The globals after [cart_poweron] and [cart_open] of "a"; after the
    bytes 01 03 02 were then written to "a"; after the cursor was then moved
    back to 0; and after three bytes were then read. *)
Definition opened_state : driver unit :=
  Eval vm_compute in
    match Demo.opened Demo.start with
    | Returns _ d => d
    | GoesWrong _ => Demo.start
    end.
Definition after_write : driver unit :=
  Eval vm_compute in
    match Demo.write 1 [x01; x03; x02] 3 opened_state with
    | Returns _ d => d
    | GoesWrong _ => opened_state
    end.
Definition after_seek : driver unit :=
  Eval vm_compute in
    match Demo.seek 1 0 after_write with
    | Returns _ d => d
    | GoesWrong _ => after_write
    end.
Definition after_read : driver unit :=
  Eval vm_compute in
    match Demo.read 1 3 after_seek with
    | Returns _ d => d
    | GoesWrong _ => after_seek
    end.

End DemoRuns.
(** * Properties *)

(** ** Fixed-width integers *)

Lemma uint8_small z : 0 <= z < 2 ^ 8 -> uint8 z = z.
Proof. intros; unfold uint8; apply Z.mod_small; lia. Qed.

Lemma uint16_small z : 0 <= z < 2 ^ 16 -> uint16 z = z.
Proof. intros; unfold uint16; apply Z.mod_small; lia. Qed.

Lemma uint32_small z : 0 <= z < 2 ^ 32 -> uint32 z = z.
Proof. intros; unfold uint32; apply Z.mod_small; lia. Qed.

Lemma uint64_small z : 0 <= z < 2 ^ 64 -> uint64 z = z.
Proof. intros; unfold uint64; apply Z.mod_small; lia. Qed.

Lemma int16_small z : - 2 ^ 15 <= z < 2 ^ 15 -> int16 z = z.
Proof.
  intros H; unfold int16.
  destruct (Z.ltb_spec (z mod 2 ^ 16) (2 ^ 15)) as [Hlt | Hge].
  - destruct (Z.le_gt_cases 0 z) as [Hz | Hz].
    + apply Z.mod_small; lia.
    + exfalso. rewrite <- (Z.mod_add z 1 (2 ^ 16)) in Hlt by lia.
      rewrite Z.mod_small in Hlt; lia.
  - destruct (Z.le_gt_cases 0 z) as [Hz | Hz].
    + rewrite Z.mod_small in Hge; lia.
    + rewrite <- (Z.mod_add z 1 (2 ^ 16)) by lia.
      rewrite Z.mod_small; lia.
Qed.

Lemma int32_small z : - 2 ^ 31 <= z < 2 ^ 31 -> int32 z = z.
Proof.
  intros H; unfold int32.
  destruct (Z.ltb_spec (z mod 2 ^ 32) (2 ^ 31)) as [Hlt | Hge].
  - destruct (Z.le_gt_cases 0 z) as [Hz | Hz].
    + apply Z.mod_small; lia.
    + exfalso. rewrite <- (Z.mod_add z 1 (2 ^ 32)) in Hlt by lia.
      rewrite Z.mod_small in Hlt; lia.
  - destruct (Z.le_gt_cases 0 z) as [Hz | Hz].
    + rewrite Z.mod_small in Hge; lia.
    + rewrite <- (Z.mod_add z 1 (2 ^ 32)) by lia.
      rewrite Z.mod_small; lia.
Qed.

(** ** Wire codec *)

(** *** Field extraction *)

Lemma field_extract (w k n : Z) :
  0 <= k -> 0 <= n ->
  Z.shiftr (Z.land w (Z.shiftl (Z.ones n) k)) k = (w / 2 ^ k) mod 2 ^ n.
Proof.
  intros Hk Hn.
  rewrite Z.shiftr_land, Z.shiftr_shiftl_l by lia.
  rewrite Z.sub_diag, Z.shiftl_0_r, Z.land_ones by lia.
  now rewrite Z.shiftr_div_pow2 by lia.
Qed.

Lemma packed_word (op cart frm : Z) :
  0 <= op < 2 ^ 8 -> 0 <= cart < 2 ^ 16 -> 0 <= frm < 2 ^ 16 ->
  generateBusRequest (mkRegs op cart frm 0)
  = op * 2 ^ 56 + cart * 2 ^ 31 + frm * 2 ^ 15.
Proof.
  intros Ho Hc Hf. unfold generateBusRequest; cbn [kyOne ctOne fmOne].
  rewrite !Z.shiftl_mul_pow2 by lia.
  rewrite (uint64_small (op * 2 ^ 56)) by lia.
  rewrite (uint64_small (cart * 2 ^ 31)) by lia.
  rewrite (uint64_small (frm * 2 ^ 15)) by lia.
  rewrite (uint64_small (op * 2 ^ 56 + cart * 2 ^ 31)) by lia.
  apply uint64_small; lia.
Qed.

Lemma masks_are_fields :
  0xff00000000000000 = Z.shiftl (Z.ones 8) 56
  /\ 0x7fff80000000 = Z.shiftl (Z.ones 16) 31
  /\ 0x7fff8000 = Z.shiftl (Z.ones 16) 15
  /\ 0x800000000000 = Z.shiftl (Z.ones 1) 47.
Proof. repeat split; reflexivity. Qed.

(** What [readBusResponse] extracts, as quotients and remainders. *)
Lemma readBusResponse_fields (w : Z) :
  readBusResponse w =
  mkRegs (uint8 ((w / 2 ^ 56) mod 2 ^ 8)) (uint16 ((w / 2 ^ 31) mod 2 ^ 16))
         (uint16 ((w / 2 ^ 15) mod 2 ^ 16)) (uint8 ((w / 2 ^ 47) mod 2 ^ 1)).
Proof.
  destruct masks_are_fields as (Hk & Hc & Hf & Hr).
  unfold readBusResponse. rewrite Hk, Hc, Hf, Hr.
  now rewrite !field_extract by lia.
Qed.

(** C3. Decoding the word that [generateBusRequest] builds for an opcode in
    [0, 255] and a cartridge and a frame below 2^16 gives back the opcode, the
    cartridge and the frame, with return code 0. *)
Theorem codec_roundtrip (op cart frm : Z) :
  0 <= op <= 255 -> 0 <= cart < 2 ^ 16 -> 0 <= frm < 2 ^ 16 ->
  readBusResponse (generateBusRequest (request_regs op cart frm))
  = mkRegs op cart frm 0.
Proof.
  intros Ho Hc Hf. unfold request_regs.
  rewrite uint8_small, !uint16_small by lia.
  rewrite packed_word, readBusResponse_fields by lia.
  assert (Hky : (op * 2 ^ 56 + cart * 2 ^ 31 + frm * 2 ^ 15) / 2 ^ 56 = op)
    by (symmetry; apply (Z.div_unique _ _ _ (cart * 2 ^ 31 + frm * 2 ^ 15)); lia).
  assert (Hct : (op * 2 ^ 56 + cart * 2 ^ 31 + frm * 2 ^ 15) / 2 ^ 31
                = op * 2 ^ 25 + cart)
    by (symmetry; apply (Z.div_unique _ _ _ (frm * 2 ^ 15)); lia).
  assert (Hfm : (op * 2 ^ 56 + cart * 2 ^ 31 + frm * 2 ^ 15) / 2 ^ 15
                = op * 2 ^ 41 + cart * 2 ^ 16 + frm)
    by (symmetry; apply (Z.div_unique _ _ _ 0); lia).
  assert (Hrt : (op * 2 ^ 56 + cart * 2 ^ 31 + frm * 2 ^ 15) / 2 ^ 47
                = op * 2 ^ 9 + cart / 2 ^ 16).
  { pose proof (Z.div_small cart (2 ^ 16) ltac:(lia)) as Hsmall.
    rewrite Hsmall.
    symmetry; apply (Z.div_unique _ _ _ (cart * 2 ^ 31 + frm * 2 ^ 15)); lia. }
  rewrite Hky, Hct, Hfm, Hrt.
  rewrite (Z.div_small cart (2 ^ 16)) by lia.
  f_equal.
  - rewrite (Z.mod_small op) by lia. apply uint8_small; lia.
  - replace (op * 2 ^ 25 + cart) with (cart + (op * 2 ^ 9) * 2 ^ 16) by lia.
    rewrite Z.mod_add, Z.mod_small by lia. apply uint16_small; lia.
  - replace (op * 2 ^ 41 + cart * 2 ^ 16 + frm)
      with (frm + (op * 2 ^ 25 + cart) * 2 ^ 16) by lia.
    rewrite Z.mod_add, Z.mod_small by lia. apply uint16_small; lia.
  - replace (op * 2 ^ 9 + 0) with (0 + (op * 2 ^ 8) * 2 ^ 1) by lia.
    rewrite Z.mod_add by lia. reflexivity.
Qed.

Lemma codec_roundtrip_witness :
  (0 <= 3 <= 255 /\ 0 <= 0x1234 < 2 ^ 16 /\ 0 <= 0x5678 < 2 ^ 16)
  /\ readBusResponse (generateBusRequest (request_regs 3 0x1234 0x5678))
     = mkRegs 3 0x1234 0x5678 0.
Proof. split; [lia | apply codec_roundtrip; lia]. Defined.

(** C9, as the specification has it, fails: the bytes of the request word
    for opcode 3, cartridge 0x1234, frame 0x5678 are not
    03 00 00 09 1A 2B 38 00. *)
Lemma golden_vector_of_spec_refuted :
  be_bytes64 (generateBusRequest (request_regs 3 0x1234 0x5678))
  <> [0x03; 0x00; 0x00; 0x09; 0x1A; 0x2B; 0x38; 0x00].
Proof. vm_compute. discriminate. Qed.

(** C9, amended. The request word for opcode 3, cartridge 0x1234, frame
    0x5678 is 0x0300091A2B3C0000; most significant byte first, its bytes are
    03 00 09 1A 2B 3C 00 00. *)
Theorem golden_vector :
  be_bytes64 (generateBusRequest (request_regs 3 0x1234 0x5678))
  = [0x03; 0x00; 0x09; 0x1A; 0x2B; 0x3C; 0x00; 0x00].
Proof. vm_compute. reflexivity. Qed.

(** ** Frame cache *)

(** Case analysis on the integer comparisons of the goal. *)
Ltac cases_on_comparisons :=
  repeat match goal with
    | |- context [Z.ltb ?a ?b] => destruct (Z.ltb_spec a b)
    | |- context [Z.leb ?a ?b] => destruct (Z.leb_spec a b)
    | |- context [Z.eqb ?a ?b] => destruct (Z.eqb_spec a b)
    end;
  cbn [andb orb negb] in *;
  try reflexivity; try lia; try congruence.

(** *** Reading and writing the block *)

Lemma cache_entry_Some c i e :
  cache_entry c i = Some e <-> 0 <= i /\ c !! Z.to_nat i = Some e.
Proof.
  unfold cache_entry. destruct (Z.ltb_spec i 0); split.
  - discriminate.
  - intros [? _]; lia.
  - intros; split; [lia | assumption].
  - intros [_ ?]; assumption.
Qed.

Lemma cache_entry_lt c i e :
  cache_entry c i = Some e -> 0 <= i < Z.of_nat (length c).
Proof.
  intros [Hi Hl]%cache_entry_Some. apply lookup_lt_Some in Hl. lia.
Qed.

Lemma cache_entry_is_Some c i :
  0 <= i < Z.of_nat (length c) -> exists e, cache_entry c i = Some e.
Proof.
  intros Hi. destruct (lookup_lt_is_Some_2 c (Z.to_nat i)) as [e He]; [lia |].
  exists e. apply cache_entry_Some. split; [lia | assumption].
Qed.

Lemma cache_entry_ext c c' :
  (forall j, 0 <= j -> cache_entry c' j = cache_entry c j) -> c' = c.
Proof.
  intros H. apply list_eq. intros k.
  specialize (H (Z.of_nat k) ltac:(lia)). unfold cache_entry in H.
  destruct (Z.ltb_spec (Z.of_nat k) 0); [lia |].
  now rewrite Nat2Z.id in H.
Qed.

Lemma cache_store_entry c i e c' :
  cache_store c i e = Some c' ->
  forall j, cache_entry c' j = if j =? i then Some e else cache_entry c j.
Proof.
  unfold cache_store. destruct (cache_entry c i) as [e0 |] eqn:He0; [| discriminate].
  intros [= <-] j. pose proof (cache_entry_lt _ _ _ He0) as Hi.
  unfold cache_entry. destruct (Z.eqb_spec j i) as [-> | Hne].
  - destruct (Z.ltb_spec i 0); [lia |].
    apply list_lookup_insert_eq. lia.
  - destruct (Z.ltb_spec j 0); [reflexivity |].
    apply list_lookup_insert_ne. lia.
Qed.

Lemma cache_store_length c i e c' :
  cache_store c i e = Some c' -> length c' = length c.
Proof.
  unfold cache_store. destruct (cache_entry c i); [| discriminate].
  intros [= <-]. apply length_insert.
Qed.

Lemma cache_store_is_Some c i e :
  0 <= i < Z.of_nat (length c) -> exists c', cache_store c i e = Some c'.
Proof.
  intros Hi. unfold cache_store.
  destruct (cache_entry_is_Some c i Hi) as [e0 ->]. eauto.
Qed.

Lemma cache_entry_touched s i old j :
  cache_entry (touched s i old) j
  = touch_entry (numberOfUnoccupiedFrames s) i old j <$> cache_entry (myCache s) j.
Proof.
  unfold cache_entry, touched. destruct (Z.ltb_spec j 0); [reflexivity |].
  rewrite list_lookup_imap, Z2Nat.id by lia. reflexivity.
Qed.

(** *** The loops *)

(** [adjust_priority_loop] on the indices [i - n + 1 .. i], all inside the
    block: every entry there, other than [exempt], whose priority is below
    [abovePriority] moves up by one; nothing else changes. *)
Lemma adjust_priority_loop_spec n : forall i exempt above c,
  Z.of_nat n <= i + 1 -> i < Z.of_nat (length c) ->
  exists c', adjust_priority_loop n i exempt above c = Some c'
    /\ forall j, cache_entry c' j =
         (fun e => if (i - Z.of_nat n <? j) && (j <=? i) && negb (j =? exempt)
                      && (priority e <? above)
                   then with_priority (priority e + 1) e else e)
         <$> cache_entry c j.
Proof.
  induction n as [| n IH]; intros i exempt above c Hn Hi.
  - exists c. split; [reflexivity |]. intros j.
    destruct (cache_entry c j); cbn; [| reflexivity].
    f_equal. cases_on_comparisons.
  - cbn [adjust_priority_loop].
    destruct (cache_entry_is_Some c i ltac:(lia)) as [e He].
    (* the round at index [i] *)
    assert (exists c1,
      (if i =? exempt then Some c
       else e0 ← cache_entry c i;
            if priority e0 <? above
            then cache_store c i (with_priority (priority e0 + 1) e0)
            else Some c) = Some c1
      /\ length c1 = length c
      /\ forall j, cache_entry c1 j =
           if j =? i
           then Some (if negb (i =? exempt) && (priority e <? above)
                      then with_priority (priority e + 1) e else e)
           else cache_entry c j) as (c1 & -> & Hlen & Hc1).
    { destruct (Z.eqb_spec i exempt) as [-> | Hne].
      - exists c. repeat split. intros j.
        destruct (Z.eqb_spec j exempt) as [-> |]; [exact He | reflexivity].
      - rewrite He; cbn. destruct (priority e <? above) eqn:Hp.
        + destruct (cache_store_is_Some c i (with_priority (priority e + 1) e))
            as [c1 Hst]; [lia |].
          exists c1. split; [exact Hst |]. split.
          * eapply cache_store_length, Hst.
          * intros j. now rewrite (cache_store_entry _ _ _ _ Hst).
        + exists c. repeat split. intros j.
          destruct (Z.eqb_spec j i) as [-> |]; [exact He | reflexivity]. }
    cbn.
    destruct (IH (i - 1) exempt above c1 ltac:(lia) ltac:(lia)) as (c' & Hrun & Hc').
    exists c'. split; [exact Hrun |]. intros j. rewrite Hc', Hc1.
    destruct (Z.eqb_spec j i) as [-> | Hne].
    + rewrite He. cbn. f_equal. cases_on_comparisons.
    + destruct (cache_entry c j); cbn; [| reflexivity].
      f_equal. cases_on_comparisons.
Qed.

(** The two searches look at the indices [i - n + 1 .. i] from the top; they
    give the first index that passes the test, or report that none does. *)
Lemma find_frame_spec n : forall i cart frm c,
  Z.of_nat n <= i + 1 -> i < Z.of_nat (length c) ->
  (exists k e, find_frame n i cart frm c = Some (Some k)
     /\ i - Z.of_nat n < k <= i
     /\ cache_entry c k = Some e /\ frame e = frm /\ cartridge e = cart)
  \/ (find_frame n i cart frm c = Some None
      /\ forall j e, i - Z.of_nat n < j <= i -> cache_entry c j = Some e ->
           ~ (frame e = frm /\ cartridge e = cart)).
Proof.
  induction n as [| n IH]; intros i cart frm c Hn Hi.
  - right. split; [reflexivity |]. intros j e Hj. lia.
  - cbn [find_frame].
    destruct (cache_entry_is_Some c i ltac:(lia)) as [e He]. rewrite He; cbn.
    destruct (Z.eqb_spec (frame e) frm) as [Hf | Hf];
      [destruct (Z.eqb_spec (cartridge e) cart) as [Hc | Hc] |]; cbn.
    + left. exists i, e. repeat split; (lia || assumption).
    + destruct (IH (i - 1) cart frm c ltac:(lia) ltac:(lia))
        as [(k & e' & Hrun & Hk & Hrest) | [Hrun Hnone]].
      * left. exists k, e'. split; [exact Hrun |]. split; [lia | exact Hrest].
      * right. split; [exact Hrun |]. intros j e' Hj Hj'.
        destruct (Z.eq_dec j i) as [-> | Hne].
        -- rewrite He in Hj'. injection Hj' as <-. intros [_ ?]. contradiction.
        -- apply (Hnone j e'); [lia | assumption].
    + destruct (IH (i - 1) cart frm c ltac:(lia) ltac:(lia))
        as [(k & e' & Hrun & Hk & Hrest) | [Hrun Hnone]].
      * left. exists k, e'. split; [exact Hrun |]. split; [lia | exact Hrest].
      * right. split; [exact Hrun |]. intros j e' Hj Hj'.
        destruct (Z.eq_dec j i) as [-> | Hne].
        -- rewrite He in Hj'. injection Hj' as <-. intros [? _]. contradiction.
        -- apply (Hnone j e'); [lia | assumption].
Qed.

Lemma find_priority_spec n : forall i p c,
  Z.of_nat n <= i + 1 -> i < Z.of_nat (length c) ->
  (exists k e, find_priority n i p c = Some (Some k)
     /\ i - Z.of_nat n < k <= i
     /\ cache_entry c k = Some e /\ priority e = p)
  \/ (find_priority n i p c = Some None
      /\ forall j e, i - Z.of_nat n < j <= i -> cache_entry c j = Some e ->
           priority e <> p).
Proof.
  induction n as [| n IH]; intros i p c Hn Hi.
  - right. split; [reflexivity |]. intros j e Hj. lia.
  - cbn [find_priority].
    destruct (cache_entry_is_Some c i ltac:(lia)) as [e He]. rewrite He; cbn.
    destruct (Z.eqb_spec (priority e) p) as [Hp | Hp].
    + left. exists i, e. repeat split; (lia || assumption).
    + destruct (IH (i - 1) p c ltac:(lia) ltac:(lia))
        as [(k & e' & Hrun & Hk & Hrest) | [Hrun Hnone]].
      * left. exists k, e'. split; [exact Hrun |]. split; [lia | exact Hrest].
      * right. split; [exact Hrun |]. intros j e' Hj Hj'.
        destruct (Z.eq_dec j i) as [-> | Hne].
        -- rewrite He in Hj'. injection Hj' as <-. assumption.
        -- apply (Hnone j e'); [lia | assumption].
Qed.

(** *** Touching an entry *)

(** The three lines that [put_cart_cache] and [get_cart_cache] run on the
    entry they found: give it the lowest priority in use, age the others. *)
Lemma touch_run s i e :
  0 <= numberOfUnoccupiedFrames s <= i ->
  Z.of_nat (length (myCache s)) = myMaxFrames s ->
  cache_entry (myCache s) i = Some e ->
  exists c1,
    cache_store (myCache s) i (with_priority (numberOfUnoccupiedFrames s + 1) e)
      = Some c1
    /\ adjust_priority i (priority e) (with_myCache c1 s)
       = Some (with_myCache (touched s i (priority e)) s, 0).
Proof.
  intros HU Hlen He. pose proof (cache_entry_lt _ _ _ He) as Hi.
  destruct (cache_store_is_Some (myCache s) i
              (with_priority (numberOfUnoccupiedFrames s + 1) e) Hi) as [c1 Hc1].
  exists c1. split; [exact Hc1 |].
  unfold adjust_priority, rounds_down.
  cbn [myCache myMaxFrames numberOfUnoccupiedFrames with_myCache].
  pose proof (cache_store_length _ _ _ _ Hc1) as Hlen1.
  destruct (adjust_priority_loop_spec
              (Z.to_nat (myMaxFrames s - 1 - numberOfUnoccupiedFrames s + 1))
              (myMaxFrames s - 1) i (priority e) c1 ltac:(lia) ltac:(lia))
    as (c' & -> & Hc').
  cbn. do 2 f_equal. unfold with_myCache; cbn. f_equal.
  apply cache_entry_ext. intros j Hj.
  rewrite Hc', (cache_store_entry _ _ _ _ Hc1), cache_entry_touched.
  unfold touch_entry.
  destruct (Z.eqb_spec j i) as [-> | Hne].
  - rewrite He. cbn. f_equal. cases_on_comparisons.
  - destruct (cache_entry (myCache s) j) as [e' |] eqn:He'; cbn; [| reflexivity].
    apply cache_entry_lt in He'. f_equal. cases_on_comparisons.
Qed.

(** *** The invariant is kept *)

(** After a touch of entry [i], which then holds [E] with the lowest
    priority in use and a key that no other entry in use has. *)
Lemma inv_after_touch s i e E c3 :
  cache_inv s -> in_use s i e ->
  (forall j, cache_entry c3 j =
     if j =? i then Some E
     else touch_entry (numberOfUnoccupiedFrames s) i (priority e) j
            <$> cache_entry (myCache s) j) ->
  length c3 = length (myCache s) ->
  priority E = numberOfUnoccupiedFrames s + 1 ->
  (forall j e0, in_use s j e0 -> j <> i ->
     ~ (frame e0 = frame E /\ cartridge e0 = cartridge E)) ->
  cache_inv (with_myCache c3 s).
Proof.
  intros [Hb Hl Hr Hp Hk] [HUi Hei] Hc3 Hlen HE Hfresh.
  pose proof (Hr i e (conj HUi Hei)) as Hre.
  (* an entry in use afterwards comes from one in use before *)
  assert (Hfrom : forall j e', in_use (with_myCache c3 s) j e' ->
            (j = i /\ e' = E)
            \/ (j <> i /\ exists e0, in_use s j e0
                  /\ frame e' = frame e0 /\ cartridge e' = cartridge e0
                  /\ priority e' =
                       if priority e0 <? priority e then priority e0 + 1
                       else priority e0)).
  { intros j e' [HUj Hj]. cbn in HUj, Hj. rewrite Hc3 in Hj.
    destruct (Z.eqb_spec j i) as [-> | Hne].
    - left. split; congruence.
    - right. split; [assumption |].
      destruct (cache_entry (myCache s) j) as [e0 |] eqn:He0; [| discriminate].
      injection Hj as <-. exists e0. split; [split; assumption |].
      unfold touch_entry.
      destruct (Z.eqb_spec j i); [contradiction |].
      destruct (Z.leb_spec (numberOfUnoccupiedFrames s) j); [| lia].
      destruct (Z.ltb_spec (priority e0) (priority e)); cbn; auto. }
  constructor; cbn [myCache myMaxFrames numberOfUnoccupiedFrames with_myCache].
  - exact Hb.
  - rewrite Hlen. exact Hl.
  - intros j e' Hin.
    destruct (Hfrom j e' Hin) as [[-> ->] | (Hne & e0 & Hin0 & _ & _ & Hpe)].
    + lia.
    + pose proof (Hr j e0 Hin0). rewrite Hpe.
      destruct (Z.ltb_spec (priority e0) (priority e)); lia.
  - intros j1 j2 e1 e2 Hin1 Hin2 Heq.
    destruct (Hfrom j1 e1 Hin1) as [[-> ->] | (Hne1 & a1 & Ha1 & _ & _ & Hp1)];
      destruct (Hfrom j2 e2 Hin2) as [[-> ->] | (Hne2 & a2 & Ha2 & _ & _ & Hp2)];
      try reflexivity.
    + exfalso. pose proof (Hr j2 a2 Ha2). rewrite Hp2, HE in Heq.
      destruct (Z.ltb_spec (priority a2) (priority e)); [lia |].
      apply Hne2. apply (Hp j2 i a2 e Ha2 (conj HUi Hei)). lia.
    + exfalso. pose proof (Hr j1 a1 Ha1). rewrite Hp1, HE in Heq.
      destruct (Z.ltb_spec (priority a1) (priority e)); [lia |].
      apply Hne1. apply (Hp j1 i a1 e Ha1 (conj HUi Hei)). lia.
    + rewrite Hp1, Hp2 in Heq.
      destruct (Z.ltb_spec (priority a1) (priority e));
        destruct (Z.ltb_spec (priority a2) (priority e)).
      * apply (Hp j1 j2 a1 a2 Ha1 Ha2). lia.
      * exfalso. apply Hne2, (Hp j2 i a2 e Ha2 (conj HUi Hei)). lia.
      * exfalso. apply Hne1, (Hp j1 i a1 e Ha1 (conj HUi Hei)). lia.
      * apply (Hp j1 j2 a1 a2 Ha1 Ha2). lia.
  - intros j1 j2 e1 e2 Hin1 Hin2 Hf Hc.
    destruct (Hfrom j1 e1 Hin1) as [[-> ->] | (Hne1 & a1 & Ha1 & Hf1 & Hc1 & _)];
      destruct (Hfrom j2 e2 Hin2) as [[-> ->] | (Hne2 & a2 & Ha2 & Hf2 & Hc2 & _)];
      try reflexivity.
    + exfalso. apply (Hfresh j2 a2 Ha2 Hne2). split; congruence.
    + exfalso. apply (Hfresh j1 a1 Ha1 Hne1). split; congruence.
    + apply (Hk j1 j2 a1 a2 Ha1 Ha2); congruence.
Qed.

(** After an empty place, the one just below the entries in use, was
    filled with [E]. *)
Lemma inv_after_fill s E c1 :
  cache_inv s -> 0 < numberOfUnoccupiedFrames s ->
  cache_store (myCache s) (numberOfUnoccupiedFrames s - 1) E = Some c1 ->
  priority E = numberOfUnoccupiedFrames s ->
  (forall j e0, in_use s j e0 ->
     ~ (frame e0 = frame E /\ cartridge e0 = cartridge E)) ->
  cache_inv (mkCache c1 (myMaxFrames s) (numberOfUnoccupiedFrames s - 1)).
Proof.
  intros [Hb Hl Hr Hp Hk] HU Hst HE Hfresh.
  assert (Hfrom : forall j e',
            in_use (mkCache c1 (myMaxFrames s) (numberOfUnoccupiedFrames s - 1)) j e' ->
            (j = numberOfUnoccupiedFrames s - 1 /\ e' = E) \/ in_use s j e').
  { intros j e' [HUj Hj]. cbn in HUj, Hj.
    rewrite (cache_store_entry _ _ _ _ Hst) in Hj.
    destruct (Z.eqb_spec j (numberOfUnoccupiedFrames s - 1)) as [-> | Hne].
    - left. split; congruence.
    - right. split; [lia | assumption]. }
  constructor; cbn [myCache myMaxFrames numberOfUnoccupiedFrames].
  - lia.
  - rewrite (cache_store_length _ _ _ _ Hst). exact Hl.
  - intros j e' Hin. destruct (Hfrom j e' Hin) as [[-> ->] | Hin0].
    + lia.
    + pose proof (Hr j e' Hin0). lia.
  - intros j1 j2 e1 e2 Hin1 Hin2 Heq.
    destruct (Hfrom j1 e1 Hin1) as [[-> ->] | Ha1];
      destruct (Hfrom j2 e2 Hin2) as [[-> ->] | Ha2]; try reflexivity.
    + pose proof (Hr j2 e2 Ha2). lia.
    + pose proof (Hr j1 e1 Ha1). lia.
    + apply (Hp j1 j2 e1 e2 Ha1 Ha2 Heq).
  - intros j1 j2 e1 e2 Hin1 Hin2 Hf Hc.
    destruct (Hfrom j1 e1 Hin1) as [[-> ->] | Ha1];
      destruct (Hfrom j2 e2 Hin2) as [[-> ->] | Ha2]; try reflexivity.
    + exfalso. apply (Hfresh j2 e2 Ha2). split; congruence.
    + exfalso. apply (Hfresh j1 e1 Ha1). split; congruence.
    + apply (Hk j1 j2 e1 e2 Ha1 Ha2 Hf Hc).
Qed.

(** *** The priorities in use *)

Lemma occupied_lookup s k e :
  0 <= numberOfUnoccupiedFrames s ->
  occupied s !! k = Some e
  <-> in_use s (numberOfUnoccupiedFrames s + Z.of_nat k) e.
Proof.
  intros HU. unfold occupied, in_use. rewrite lookup_drop, cache_entry_Some.
  replace (Z.to_nat (numberOfUnoccupiedFrames s + Z.of_nat k))
    with (Z.to_nat (numberOfUnoccupiedFrames s) + k)%nat by lia.
  split; [intros H; repeat split; (lia || exact H) | intros (_ & _ & H); exact H].
Qed.

Lemma in_use_occupied s i e :
  0 <= numberOfUnoccupiedFrames s ->
  in_use s i e -> e ∈ occupied s.
Proof.
  intros HU [Hi He]. apply list_elem_of_lookup.
  exists (Z.to_nat (i - numberOfUnoccupiedFrames s)).
  apply occupied_lookup; [assumption |]. split; [lia |].
  now replace (numberOfUnoccupiedFrames s
               + Z.of_nat (Z.to_nat (i - numberOfUnoccupiedFrames s))) with i by lia.
Qed.

Lemma occupied_length s :
  cache_inv s -> Z.of_nat (length (occupied s)) = occupied_count s.
Proof.
  intros [Hb Hl _ _ _]. unfold occupied, occupied_count. rewrite length_drop. lia.
Qed.

Lemma inv_NoDup s : cache_inv s -> NoDup (priority <$> occupied s).
Proof.
  intros Hinv. destruct Hinv as [Hb Hl Hr Hp Hk].
  apply NoDup_alt. intros k1 k2 p H1 H2.
  rewrite list_lookup_fmap in H1, H2.
  apply fmap_Some in H1 as (e1 & H1 & ->). apply fmap_Some in H2 as (e2 & H2 & Heq).
  apply occupied_lookup in H1; [| lia]. apply occupied_lookup in H2; [| lia].
  pose proof (Hp _ _ _ _ H1 H2 Heq). lia.
Qed.

(** Under the invariant the priorities in use are exactly
    [numberOfUnoccupiedFrames + 1 .. myMaxFrames], each once. *)
Lemma inv_permutation s :
  cache_inv s ->
  priority <$> occupied s
  ≡ₚ seqZ (numberOfUnoccupiedFrames s + 1) (occupied_count s).
Proof.
  intros Hinv. pose proof (occupied_length s Hinv) as Hlen.
  pose proof (inv_NoDup s Hinv) as Hnd.
  destruct Hinv as [Hb Hl Hr Hp Hk].
  apply submseteq_length_Permutation.
  - apply NoDup_submseteq; [exact Hnd |].
    intros p (e & -> & He)%list_elem_of_fmap.
    apply list_elem_of_lookup in He as [k He].
    apply occupied_lookup in He; [| lia].
    apply elem_of_seqZ. specialize (Hr _ _ He). unfold occupied_count. lia.
  - rewrite length_seqZ, length_fmap. lia.
Qed.

Lemma inv_has_priority s p :
  cache_inv s ->
  numberOfUnoccupiedFrames s < p <= myMaxFrames s ->
  exists i e, in_use s i e /\ priority e = p.
Proof.
  intros Hinv Hp. pose proof (inv_permutation s Hinv) as Hperm.
  assert (Hin : p ∈ priority <$> occupied s).
  { rewrite Hperm. apply elem_of_seqZ. unfold occupied_count. lia. }
  apply list_elem_of_fmap in Hin as (e & -> & He).
  apply list_elem_of_lookup in He as [k He].
  apply occupied_lookup in He; [| destruct Hinv; lia].
  eauto.
Qed.

Lemma key_has_priority_intro s i e :
  cache_inv s -> in_use s i e ->
  key_has_priority s (cartridge e) (frame e) (priority e).
Proof.
  intros Hinv Hin. split; [exists i, e; auto |].
  intros j e' Hin' Hc Hf.
  assert (j = i) as -> by (apply (inv_key s Hinv j i e' e); auto).
  destruct Hin as [_ H1], Hin' as [_ H2]. congruence.
Qed.

(** *** What [get_cart_cache] and [put_cart_cache] do *)

Lemma get_outcome s cart frm :
  cache_inv s ->
  (exists s' data,
     get_cart_cache cart frm s = Some (s', Some data)
     /\ cache_inv s'
     /\ myMaxFrames s' = myMaxFrames s
     /\ numberOfUnoccupiedFrames s' = numberOfUnoccupiedFrames s
     /\ key_has_priority s' cart frm (numberOfUnoccupiedFrames s' + 1)
     /\ key_holds s cart frm data)
  \/ (get_cart_cache cart frm s = Some (s, None)
      /\ forall j e, in_use s j e -> ~ (frame e = frm /\ cartridge e = cart)).
Proof.
  intros Hinv. pose proof Hinv as [Hb Hl Hr Hp Hk].
  unfold get_cart_cache, rounds_down.
  destruct (find_frame_spec
              (Z.to_nat (myMaxFrames s - 1 - numberOfUnoccupiedFrames s + 1))
              (myMaxFrames s - 1) cart frm (myCache s) ltac:(lia) ltac:(lia))
    as [(k & e & -> & Hk1 & He & Hf & Hc) | [-> Hnone]]; cbn.
  - left. rewrite He; cbn.
    destruct (touch_run s k e ltac:(lia) Hl He) as (c1 & -> & Hadj); cbn.
    rewrite Hadj; cbn. rewrite cache_entry_touched, He; cbn.
    set (E := touch_entry (numberOfUnoccupiedFrames s) k (priority e) k e).
    assert (HE : E = with_priority (numberOfUnoccupiedFrames s + 1) e)
      by (unfold E, touch_entry; now rewrite Z.eqb_refl).
    assert (Hinv' : cache_inv (with_myCache (touched s k (priority e)) s)).
    { apply (inv_after_touch s k e E).
      - exact Hinv.
      - split; [lia | exact He].
      - intros j. rewrite cache_entry_touched.
        destruct (Z.eqb_spec j k) as [-> |]; [now rewrite He | reflexivity].
      - apply length_imap.
      - now rewrite HE.
      - intros j e0 Hin Hne [Hf0 Hc0]. rewrite HE in Hf0, Hc0. cbn in Hf0, Hc0.
        apply Hne. apply (Hk j k e0 e Hin); [split; [lia | exact He] | |]; assumption. }
    eexists _, _. split; [reflexivity |]. split; [exact Hinv' |].
    do 2 (split; [reflexivity |]).
    assert (Hin' : in_use (with_myCache (touched s k (priority e)) s) k E).
    { split; cbn; [lia |]. rewrite cache_entry_touched, He. reflexivity. }
    pose proof (key_has_priority_intro _ _ _ Hinv' Hin') as Hkp.
    rewrite HE in Hkp. cbn in Hkp. rewrite Hf, Hc in Hkp.
    split; [exact Hkp |].
    exists k, e. rewrite HE. cbn. repeat split; (lia || assumption).
  - right. split; [reflexivity |]. intros j e [Hj He].
    apply (Hnone j e); [| exact He].
    apply cache_entry_lt in He. lia.
Qed.

Section CacheProperties.

Variable CART_FRAME_SIZE : Z.

Lemma frame_payload_is_Some buf :
  CART_FRAME_SIZE <= Z.of_nat (length buf) ->
  exists b, frame_payload CART_FRAME_SIZE buf = Some b.
Proof.
  intros H. unfold frame_payload.
  destruct (Z.leb_spec CART_FRAME_SIZE (Z.of_nat (length buf))); [eauto | lia].
Qed.

(** [put_cart_cache] under the invariant: with no room at all it returns -1
    and changes nothing; otherwise it goes wrong when [buf] is shorter than a
    frame, and else returns 0, keeps the invariant, and leaves the key with the
    lowest priority in use. *)
Lemma put_outcome s cart frm buf :
  cache_inv s ->
  (myMaxFrames s = 0 /\ put_cart_cache CART_FRAME_SIZE cart frm buf s = Some (s, -1))
  \/ (0 < myMaxFrames s /\ frame_payload CART_FRAME_SIZE buf = None
      /\ put_cart_cache CART_FRAME_SIZE cart frm buf s = None)
  \/ (0 < myMaxFrames s /\ exists s',
        put_cart_cache CART_FRAME_SIZE cart frm buf s = Some (s', 0)
        /\ cache_inv s'
        /\ myMaxFrames s' = myMaxFrames s
        /\ key_has_priority s' cart frm (numberOfUnoccupiedFrames s' + 1)
        /\ forall b, frame_payload CART_FRAME_SIZE buf = Some b ->
             key_holds s' cart frm b).
Proof.
  intros Hinv. pose proof Hinv as [Hb Hl Hr Hp Hk].
  unfold put_cart_cache, rounds_down.
  destruct (find_frame_spec
              (Z.to_nat (myMaxFrames s - 1 - numberOfUnoccupiedFrames s + 1))
              (myMaxFrames s - 1) cart frm (myCache s) ltac:(lia) ltac:(lia))
    as [(k & e & -> & Hk1 & He & Hf & Hc) | [-> Hnone]]; cbn.
  - (* the key is in the cache *)
    right. rewrite He; cbn.
    destruct (touch_run s k e ltac:(lia) Hl He) as (c1 & -> & Hadj); cbn.
    rewrite Hadj; cbn. rewrite cache_entry_touched, He; cbn.
    destruct (frame_payload CART_FRAME_SIZE buf) as [b |]; cbn;
      [right | left; repeat split; (lia || reflexivity)].
    set (E0 := touch_entry (numberOfUnoccupiedFrames s) k (priority e) k e).
    assert (HE0 : E0 = with_priority (numberOfUnoccupiedFrames s + 1) e)
      by (unfold E0, touch_entry; now rewrite Z.eqb_refl).
    destruct (cache_store_is_Some (touched s k (priority e)) k (with_cache b E0))
      as [c3 Hc3].
    { unfold touched. rewrite length_imap. apply cache_entry_lt in He. lia. }
    rewrite Hc3; cbn. split; [lia |].
    assert (Hinv' : cache_inv (with_myCache c3 s)).
    { apply (inv_after_touch s k e (with_cache b E0)).
      - exact Hinv.
      - split; [lia | exact He].
      - intros j. rewrite (cache_store_entry _ _ _ _ Hc3), cache_entry_touched.
        reflexivity.
      - rewrite (cache_store_length _ _ _ _ Hc3). apply length_imap.
      - now rewrite HE0.
      - intros j e0 Hin Hne [Hf0 Hc0]. rewrite HE0 in Hf0, Hc0. cbn in Hf0, Hc0.
        apply Hne. apply (Hk j k e0 e Hin); [split; [lia | exact He] | |]; assumption. }
    eexists. split; [reflexivity |]. split; [exact Hinv' |]. split; [reflexivity |].
    assert (Hin' : in_use (with_myCache c3 s) k (with_cache b E0)).
    { split; cbn; [lia |]. rewrite (cache_store_entry _ _ _ _ Hc3).
      now rewrite Z.eqb_refl. }
    pose proof (key_has_priority_intro _ _ _ Hinv' Hin') as Hkp.
    rewrite HE0 in Hkp. cbn in Hkp. rewrite Hf, Hc in Hkp.
    split; [exact Hkp |]. intros b' [= <-].
    exists k, (with_cache b E0). rewrite HE0. cbn. rewrite <- HE0. auto.
  - (* the key is not in the cache *)
    assert (Hfresh : forall j e0, in_use s j e0 ->
              ~ (frame e0 = frm /\ cartridge e0 = cart)).
    { intros j e0 [Hj He0]. apply (Hnone j e0); [| exact He0].
      apply cache_entry_lt in He0. lia. }
    destruct (Z.eqb_spec (numberOfUnoccupiedFrames s) 0) as [HU0 | HU0].
    + (* no room: evict *)
      destruct (find_priority_spec
                  (Z.to_nat (myMaxFrames s - 1 - numberOfUnoccupiedFrames s + 1))
                  (myMaxFrames s - 1) (myMaxFrames s) (myCache s)
                  ltac:(lia) ltac:(lia))
        as [(k & e & -> & Hk1 & He & Hpe) | [-> Hnomax]]; cbn.
      * right. rewrite He; cbn.
        destruct (touch_run s k e ltac:(lia) Hl He) as (c1 & -> & Hadj); cbn.
        rewrite Hadj; cbn. rewrite cache_entry_touched, He; cbn.
        destruct (frame_payload CART_FRAME_SIZE buf) as [b |]; cbn;
          [right | left; repeat split; (lia || reflexivity)].
        set (E0 := touch_entry (numberOfUnoccupiedFrames s) k (priority e) k e).
        assert (HE0 : E0 = with_priority (numberOfUnoccupiedFrames s + 1) e)
          by (unfold E0, touch_entry; now rewrite Z.eqb_refl).
        set (E := with_cache b (with_cartridge cart (with_frame frm E0))).
        destruct (cache_store_is_Some (touched s k (priority e)) k E) as [c3 Hc3].
        { unfold touched. rewrite length_imap. apply cache_entry_lt in He. lia. }
        rewrite Hc3; cbn. split; [lia |].
        assert (Hinv' : cache_inv (with_myCache c3 s)).
        { apply (inv_after_touch s k e E).
          - exact Hinv.
          - split; [lia | exact He].
          - intros j. rewrite (cache_store_entry _ _ _ _ Hc3), cache_entry_touched.
            reflexivity.
          - rewrite (cache_store_length _ _ _ _ Hc3). apply length_imap.
          - unfold E. now rewrite HE0.
          - intros j e0 Hin _. apply (Hfresh j e0 Hin). }
        eexists. split; [reflexivity |]. split; [exact Hinv' |].
        split; [reflexivity |].
        assert (Hin' : in_use (with_myCache c3 s) k E).
        { split; cbn; [lia |]. rewrite (cache_store_entry _ _ _ _ Hc3).
          now rewrite Z.eqb_refl. }
        pose proof (key_has_priority_intro _ _ _ Hinv' Hin') as Hkp.
        unfold E in Hkp. rewrite HE0 in Hkp.
        split; [exact Hkp |]. intros b' [= <-].
        exists k, E. auto.
      * destruct (Z.eq_dec (myMaxFrames s) 0) as [HM0 | HM0].
        -- left. split; [exact HM0 | reflexivity].
        -- exfalso.
           destruct (inv_has_priority s (myMaxFrames s) Hinv ltac:(lia))
             as (i & e & [Hi He] & Hpe).
           apply (Hnomax i e); [| exact He | exact Hpe].
           apply cache_entry_lt in He. lia.
    + (* room left: fill the place below the entries in use *)
      right.
      destruct (cache_entry_is_Some (myCache s) (numberOfUnoccupiedFrames s - 1)
                  ltac:(lia)) as [e ->]; cbn.
      destruct (frame_payload CART_FRAME_SIZE buf) as [b |]; cbn;
        [right | left; repeat split; (lia || reflexivity)].
      set (E := with_cache b (with_cartridge cart (with_frame frm
                  (with_priority (numberOfUnoccupiedFrames s) e)))).
      destruct (cache_store_is_Some (myCache s) (numberOfUnoccupiedFrames s - 1) E
                  ltac:(lia)) as [c1 Hc1].
      rewrite Hc1; cbn. split; [lia |].
      assert (Hinv' : cache_inv (mkCache c1 (myMaxFrames s)
                                   (numberOfUnoccupiedFrames s - 1))).
      { apply (inv_after_fill s E c1 Hinv ltac:(lia) Hc1); [reflexivity |].
        intros j e0 Hin. apply (Hfresh j e0 Hin). }
      eexists. split; [reflexivity |]. split; [exact Hinv' |].
      split; [reflexivity |].
      assert (Hin' : in_use (mkCache c1 (myMaxFrames s)
                               (numberOfUnoccupiedFrames s - 1))
                       (numberOfUnoccupiedFrames s - 1) E).
      { split; cbn; [lia |]. rewrite (cache_store_entry _ _ _ _ Hc1).
        now rewrite Z.eqb_refl. }
      pose proof (key_has_priority_intro _ _ _ Hinv' Hin') as Hkp.
      cbn in Hkp. cbn [numberOfUnoccupiedFrames].
      replace (numberOfUnoccupiedFrames s - 1 + 1)
        with (numberOfUnoccupiedFrames s) by lia.
      split; [exact Hkp |]. intros b' [= <-].
      exists (numberOfUnoccupiedFrames s - 1), E. auto.
Qed.

(** *** Reachable states *)

Lemma init_inv max_frames block :
  0 <= max_frames < 2 ^ 31 ->
  length block = Z.to_nat max_frames ->
  cache_inv (cache_after_init max_frames block).
Proof.
  intros Hm Hlen. unfold cache_after_init, set_cart_cache_size, init_cart_cache.
  cbn. rewrite int32_small by lia. unfold with_myCache; cbn.
  constructor; cbn.
  - lia.
  - lia.
  - intros i e [Hi He%cache_entry_lt]. cbn in *. lia.
  - intros i j e e' [Hi He%cache_entry_lt]. cbn in *. lia.
  - intros i j e e' [Hi He%cache_entry_lt]. cbn in *. lia.
Qed.

Lemma reachable_inv s : cache_reachable CART_FRAME_SIZE s -> cache_inv s.
Proof.
  induction 1 as [max_frames block Hm Hlen
                 | s cart frm buf s' r _ IH Hput
                 | s cart frm s' r _ IH Hget].
  - now apply init_inv.
  - destruct (put_outcome s cart frm buf IH)
      as [[_ Heq] | [(_ & _ & Heq) | (_ & s1 & Heq & Hinv & _)]];
      rewrite Heq in Hput; congruence.
  - destruct (get_outcome s cart frm IH)
      as [(s1 & data & Heq & Hinv & _) | [Heq _]];
      rewrite Heq in Hget; congruence.
Qed.

(** C1, amended. In every state the cache reaches after initialisation, the
    priorities of the entries in use are exactly the numbers from
    [numberOfUnoccupiedFrames + 1] to [myMaxFrames], each once: they are
    pairwise different and none lies outside that range. (That is
    [1 .. occupied_count] once the cache is full.) *)
Theorem priorities_in_use s :
  cache_reachable CART_FRAME_SIZE s ->
  priority <$> occupied s
  ≡ₚ seqZ (numberOfUnoccupiedFrames s + 1) (occupied_count s)
  /\ NoDup (priority <$> occupied s)
  /\ forall e, e ∈ occupied s ->
       numberOfUnoccupiedFrames s + 1 <= priority e <= myMaxFrames s.
Proof.
  intros Hs%reachable_inv. split; [now apply inv_permutation |].
  split; [now apply inv_NoDup |].
  intros e [k He]%list_elem_of_lookup.
  apply occupied_lookup in He; [| destruct Hs; lia].
  exact (inv_range s Hs _ _ He).
Qed.

(** C4, amended. In a reachable state, after [put_cart_cache] on a key
    returned 0, or [get_cart_cache] on a key returned a frame, the cache has an
    entry in use with that key, and whichever entry in use has that key has
    priority [numberOfUnoccupiedFrames + 1], the lowest in use (1 once the
    cache is full). *)
Theorem touched_key_priority s s' cart frm :
  cache_reachable CART_FRAME_SIZE s ->
  (exists buf, put_cart_cache CART_FRAME_SIZE cart frm buf s = Some (s', 0))
  \/ (exists data, get_cart_cache cart frm s = Some (s', Some data)) ->
  key_has_priority s' cart frm (numberOfUnoccupiedFrames s' + 1).
Proof.
  intros Hs%reachable_inv [[buf Hput] | [data Hget]].
  - destruct (put_outcome s cart frm buf Hs)
      as [[_ Heq] | [(_ & _ & Heq) | (_ & s1 & Heq & _ & _ & Hkey & _)]];
      rewrite Heq in Hput; congruence.
  - destruct (get_outcome s cart frm Hs)
      as [(s1 & d & Heq & _ & _ & _ & Hkey & _) | [Heq _]];
      rewrite Heq in Hget; congruence.
Qed.

(** C10, amended. In a reachable state of a cache with at least one place,
    [put_cart_cache] of a buffer that holds a frame returns 0: it neither goes
    wrong nor returns -1. In particular, when no place is free, some entry in
    use has priority [myMaxFrames], so the search for a victim succeeds. *)
Theorem put_cart_cache_returns_0 s cart frm buf :
  cache_reachable CART_FRAME_SIZE s ->
  0 < myMaxFrames s ->
  CART_FRAME_SIZE <= Z.of_nat (length buf) ->
  (numberOfUnoccupiedFrames s = 0 ->
     exists i e, in_use s i e /\ priority e = myMaxFrames s)
  /\ exists s', put_cart_cache CART_FRAME_SIZE cart frm buf s = Some (s', 0).
Proof.
  intros Hs%reachable_inv HM Hbuf. split.
  - intros HU. apply inv_has_priority; [exact Hs | lia].
  - destruct (frame_payload_is_Some buf Hbuf) as [b Hb].
    destruct (put_outcome s cart frm buf Hs)
      as [[HM0 _] | [(_ & Hnone & _) | (_ & s1 & Heq & _)]].
    + lia.
    + congruence.
    + eauto.
Qed.

End CacheProperties.

(** *** Examples of reachable states *)

Lemma empty_cache_reachable : cache_reachable 1024 Demo.empty_cache.
Proof. apply reach_init; [lia | reflexivity]. Defined.

Lemma one_frame_cache_put :
  put_cart_cache 1024 0 0 Demo.payload Demo.empty_cache
  = Some (Demo.one_frame_cache, 0).
Proof. vm_compute. reflexivity. Defined.

Lemma one_frame_cache_reachable : cache_reachable 1024 Demo.one_frame_cache.
Proof.
  exact (reach_put 1024 _ _ _ _ _ _ empty_cache_reachable one_frame_cache_put).
Defined.

Lemma no_cache_reachable : cache_reachable 1024 Demo.no_cache.
Proof. apply reach_init; [lia | reflexivity]. Defined.

Lemma priorities_in_use_witness :
  cache_reachable 1024 Demo.one_frame_cache
  /\ (priority <$> occupied Demo.one_frame_cache
      ≡ₚ seqZ (numberOfUnoccupiedFrames Demo.one_frame_cache + 1)
           (occupied_count Demo.one_frame_cache)
      /\ NoDup (priority <$> occupied Demo.one_frame_cache)
      /\ forall e, e ∈ occupied Demo.one_frame_cache ->
           numberOfUnoccupiedFrames Demo.one_frame_cache + 1 <= priority e
           <= myMaxFrames Demo.one_frame_cache).
Proof.
  split; [exact one_frame_cache_reachable |].
  exact (priorities_in_use 1024 _ one_frame_cache_reachable).
Defined.

(** C1, as the specification has it, fails: after one [put_cart_cache] on an
    empty cache of two places, one entry is in use and its priority is 2, so
    the priorities in use are not [1 .. occupied_count]. *)
Lemma priorities_one_to_count_refuted :
  cache_reachable 1024 Demo.one_frame_cache
  /\ occupied_count Demo.one_frame_cache = 1
  /\ ~ priorities_one_to_count Demo.one_frame_cache.
Proof.
  split; [exact one_frame_cache_reachable |]. split; [reflexivity |].
  unfold priorities_one_to_count. intros Hperm.
  assert (Hin : 2 ∈ priority <$> occupied Demo.one_frame_cache)
    by (vm_compute; apply list_elem_of_here).
  rewrite Hperm in Hin. apply elem_of_seqZ in Hin.
  unfold occupied_count in Hin; cbn in Hin. lia.
Qed.

Lemma touched_key_priority_witness :
  (cache_reachable 1024 Demo.empty_cache
   /\ ((exists buf, put_cart_cache 1024 0 0 buf Demo.empty_cache
                    = Some (Demo.one_frame_cache, 0))
       \/ (exists data, get_cart_cache 0 0 Demo.empty_cache
                        = Some (Demo.one_frame_cache, Some data))))
  /\ key_has_priority Demo.one_frame_cache 0 0
       (numberOfUnoccupiedFrames Demo.one_frame_cache + 1).
Proof.
  assert (Hput : (exists buf, put_cart_cache 1024 0 0 buf Demo.empty_cache
                              = Some (Demo.one_frame_cache, 0))
                 \/ (exists data, get_cart_cache 0 0 Demo.empty_cache
                                  = Some (Demo.one_frame_cache, Some data)))
    by (left; exists Demo.payload; exact one_frame_cache_put).
  split; [split; [exact empty_cache_reachable | exact Hput] |].
  exact (touched_key_priority 1024 _ _ 0 0 empty_cache_reachable Hput).
Defined.

(** C4, as the specification has it, fails: [put_cart_cache] of key (0, 0)
    into an empty cache of two places returns 0 and leaves that key with
    priority 2, not 1. *)
Lemma touched_priority_one_refuted :
  cache_reachable 1024 Demo.empty_cache
  /\ put_cart_cache 1024 0 0 Demo.payload Demo.empty_cache
     = Some (Demo.one_frame_cache, 0)
  /\ ~ key_has_priority Demo.one_frame_cache 0 0 1.
Proof.
  split; [exact empty_cache_reachable |]. split; [exact one_frame_cache_put |].
  intros [_ Hall].
  assert (H : 2 = 1).
  { apply (Hall 1 (mkCachedFrame 0 0 Demo.payload 2)); try reflexivity.
    split; [change (1 <= 1); lia | reflexivity]. }
  lia.
Qed.

Lemma put_cart_cache_returns_0_witness :
  (cache_reachable 1024 Demo.empty_cache
   /\ 0 < myMaxFrames Demo.empty_cache
   /\ 1024 <= Z.of_nat (length Demo.payload))
  /\ (numberOfUnoccupiedFrames Demo.empty_cache = 0 ->
        exists i e, in_use Demo.empty_cache i e
                    /\ priority e = myMaxFrames Demo.empty_cache)
  /\ exists s', put_cart_cache 1024 0 0 Demo.payload Demo.empty_cache = Some (s', 0).
Proof.
  assert (HM : 0 < myMaxFrames Demo.empty_cache) by (vm_compute; reflexivity).
  assert (Hbuf : 1024 <= Z.of_nat (length Demo.payload)) by (vm_compute; discriminate).
  split; [exact (conj empty_cache_reachable (conj HM Hbuf)) |].
  exact (put_cart_cache_returns_0 1024 _ 0 0 _ empty_cache_reachable HM Hbuf).
Defined.

(** C10, as stated, fails for a cache of no place: it is full, no entry has
    priority [myMaxFrames], and [put_cart_cache] returns -1. *)
Lemma put_cart_cache_minus_1 :
  cache_reachable 1024 Demo.no_cache
  /\ numberOfUnoccupiedFrames Demo.no_cache = 0
  /\ ~ (exists i e, in_use Demo.no_cache i e
                    /\ priority e = myMaxFrames Demo.no_cache)
  /\ put_cart_cache 1024 0 0 Demo.payload Demo.no_cache = Some (Demo.no_cache, -1).
Proof.
  split; [exact no_cache_reachable |]. split; [reflexivity |]. split.
  - intros (i & e & [Hi He] & _). apply cache_entry_lt in He. cbn in *. lia.
  - vm_compute. reflexivity.
Qed.

(** ** File layer *)

(** The scan for a handle stops at the first file that has it. *)
Lemma find_handle_first {Dev} (d : driver Dev) fs fd (i : nat) f :
  filesystem d = Block fs ->
  fs !! i = Some f -> fileHandle f = fd ->
  (forall j y, fs !! j = Some y -> (j < i)%nat -> fileHandle y <> fd) ->
  forall (n k : nat), (k <= i)%nat -> (i < n + k)%nat ->
  find_handle n (Z.of_nat k) fd d = Returns (Z.of_nat i) d.
Proof.
  intros Hfs Hi Hfd Hfirst n.
  induction n as [| n IH]; intros k Hk Hn; [lia |].
  cbn [find_handle]. unfold bind, file_at. rewrite Hfs.
  destruct (Z.ltb_spec (Z.of_nat k) 0); [lia |]. rewrite Nat2Z.id.
  destruct (Nat.eq_dec k i) as [-> | Hne].
  - rewrite Hi, Hfd, Z.eqb_refl. reflexivity.
  - destruct (lookup_lt_is_Some_2 fs k) as [y Hy].
    { apply lookup_lt_Some in Hi. lia. }
    rewrite Hy.
    destruct (Z.eqb_spec (fileHandle y) fd) as [Heq | _].
    + exfalso. apply (Hfirst k y Hy); [lia | exact Heq].
    + replace (Z.of_nat k + 1) with (Z.of_nat (S k)) by lia.
      apply IH; lia.
Qed.

Lemma fileSystemIndex_of_handle {Dev} (d : driver Dev) fs fd i f :
  filesystem d = Block fs ->
  Z.of_nat (length fs) = fileSystemSize d + 1 ->
  file_of_handle fs fd = Some (i, f) ->
  fileSystemIndex_of fd d = Returns (Z.of_nat i) d.
Proof.
  intros Hfs Hsize (Hi & Hfd & Hfirst)%list_find_Some.
  unfold fileSystemIndex_of, bind, get.
  change 0 with (Z.of_nat 0).
  apply (find_handle_first d fs fd i f Hfs Hi Hfd).
  - intros j y Hy Hj Heq. exact (Hfirst j y Hy Hj Heq).
  - lia.
  - apply lookup_lt_Some in Hi. lia.
Qed.

(** C8. For a handle [fd] that is open, [cart_seek fd loc] with [loc]
    greater than the length of the file returns -1 and changes nothing at
    all; with [loc] at most the length it returns 0 and the only change is
    that the cursor of that file is [loc]: the record of the file has its
    name, length, frames and handle as before and [loc] as its cursor, the
    other records and all the other globals are as before. (The file of a
    handle is the first one of the table that has it; lengths are those of an
    [int32_t] that is not negative, [loc] is a [uint32_t].) *)
Theorem cart_seek_bounds {Dev} (d : driver Dev) fs fd loc i f :
  filesystem d = Block fs ->
  Z.of_nat (length fs) = fileSystemSize d + 1 ->
  0 < fd ->
  file_of_handle fs fd = Some (i, f) ->
  0 <= file_length f < 2 ^ 31 ->
  0 <= loc < 2 ^ 32 ->
  (file_length f < loc -> cart_seek fd loc d = Returns (-1) d)
  /\ (loc <= file_length f ->
      cart_seek fd loc d
      = Returns 0
          (mkDriver (regstate d)
             (Block (<[i := mkFile (fileName f) (file_length f) loc
                               (location f) (fileHandle f)]> fs))
             (fileSystemSize d) (currentlyLoadedCartridge d) (nextFrame d)
             (nextCartridge d) (cart_cache d) (controller d) (bus_log d))).
Proof.
  intros Hfs Hsize Hfd Hfind Hlen Hloc.
  pose proof (fileSystemIndex_of_handle d fs fd i f Hfs Hsize Hfind) as Hidx.
  apply list_find_Some in Hfind as (Hi & Hh & _).
  assert (Hat : file_at (Z.of_nat i) d = Returns f d).
  { unfold file_at. rewrite Hfs.
    destruct (Z.ltb_spec (Z.of_nat i) 0); [lia |]. now rewrite Nat2Z.id, Hi. }
  unfold cart_seek, bind. rewrite Hidx.
  destruct (Z.eqb_spec (Z.of_nat i) (-1)); [lia |].
  rewrite Hat.
  destruct (Z.eqb_spec (fileHandle f) 0); [lia |].
  rewrite !uint32_small by lia.
  split; intros Hcmp.
  - destruct (Z.ltb_spec (file_length f) loc); [reflexivity | lia].
  - destruct (Z.ltb_spec (file_length f) loc); [lia |].
    unfold file_update, bind. rewrite Hat, Hfs.
    rewrite int32_small, Nat2Z.id by lia. reflexivity.
Qed.

Lemma cart_seek_bounds_witness :
  (filesystem Demo.one_file = Block [Demo.three_bytes]
   /\ Z.of_nat (length [Demo.three_bytes]) = fileSystemSize Demo.one_file + 1
   /\ 0 < 1
   /\ file_of_handle [Demo.three_bytes] 1 = Some (0%nat, Demo.three_bytes)
   /\ 0 <= file_length Demo.three_bytes < 2 ^ 31
   /\ 0 <= 2 < 2 ^ 32)
  /\ (file_length Demo.three_bytes < 2 ->
      cart_seek 1 2 Demo.one_file = Returns (-1) Demo.one_file)
  /\ (2 <= file_length Demo.three_bytes ->
      cart_seek 1 2 Demo.one_file
      = Returns 0
          (mkDriver (regstate Demo.one_file)
             (Block (<[0%nat := mkFile (fileName Demo.three_bytes)
                                  (file_length Demo.three_bytes) 2
                                  (location Demo.three_bytes)
                                  (fileHandle Demo.three_bytes)]>
                       [Demo.three_bytes]))
             (fileSystemSize Demo.one_file)
             (currentlyLoadedCartridge Demo.one_file) (nextFrame Demo.one_file)
             (nextCartridge Demo.one_file) (cart_cache Demo.one_file)
             (controller Demo.one_file) (bus_log Demo.one_file))).
Proof.
  assert (H1 : filesystem Demo.one_file = Block [Demo.three_bytes]) by reflexivity.
  assert (H2 : Z.of_nat (length [Demo.three_bytes]) = fileSystemSize Demo.one_file + 1)
    by reflexivity.
  assert (H3 : 0 < 1) by lia.
  assert (H4 : file_of_handle [Demo.three_bytes] 1 = Some (0%nat, Demo.three_bytes))
    by reflexivity.
  assert (H5 : 0 <= file_length Demo.three_bytes < 2 ^ 31) by (cbn; lia).
  assert (H6 : 0 <= 2 < 2 ^ 32) by lia.
  split; [exact (conj H1 (conj H2 (conj H3 (conj H4 (conj H5 H6))))) |].
  exact (cart_seek_bounds Demo.one_file _ 1 2 0%nat _ H1 H2 H3 H4 H5 H6).
Defined.

(** Moving the cursor of an open file to a place within the file. *)
Lemma cart_seek_within {Dev} (d : driver Dev) fs fd loc i f :
  filesystem d = Block fs ->
  Z.of_nat (length fs) = fileSystemSize d + 1 ->
  0 < fd ->
  file_of_handle fs fd = Some (i, f) ->
  0 <= file_length f < 2 ^ 31 ->
  0 <= loc <= file_length f ->
  cart_seek fd loc d
  = Returns 0 (set_filesystem (Block (<[i := with_filePointer loc f]> fs)) d).
Proof.
  intros Hfs Hsize Hfd Hfind Hlen Hloc.
  pose proof (fileSystemIndex_of_handle d fs fd i f Hfs Hsize Hfind) as Hidx.
  apply list_find_Some in Hfind as (Hi & Hh & _).
  assert (Hat : file_at (Z.of_nat i) d = Returns f d).
  { unfold file_at. rewrite Hfs.
    destruct (Z.ltb_spec (Z.of_nat i) 0); [lia |]. now rewrite Nat2Z.id, Hi. }
  unfold cart_seek, bind. rewrite Hidx.
  destruct (Z.eqb_spec (Z.of_nat i) (-1)); [lia |].
  rewrite Hat.
  destruct (Z.eqb_spec (fileHandle f) 0); [lia |].
  rewrite !uint32_small by lia.
  destruct (Z.ltb_spec (file_length f) loc); [lia |].
  unfold file_update, bind. rewrite Hat, Hfs.
  rewrite int32_small, Nat2Z.id by lia. reflexivity.
Qed.

(** *** The search for a free handle *)

Lemma handle_taken_spec {Dev} (d : driver Dev) fs h :
  filesystem d = Block fs ->
  forall n j, (j + n <= length fs)%nat ->
  handle_taken n (Z.of_nat j) h d
  = Returns (existsb (fun f => fileHandle f =? h) (take n (drop j fs))) d.
Proof.
  intros Hfs n. induction n as [| n IH]; intros j Hj.
  - reflexivity.
  - cbn [handle_taken]. unfold bind at 1. unfold file_at. rewrite Hfs.
    destruct (Z.ltb_spec (Z.of_nat j) 0); [lia |]. rewrite Nat2Z.id.
    destruct (lookup_lt_is_Some_2 fs j ltac:(lia)) as [f Hf]. rewrite Hf.
    unfold bind at 1.
    replace (Z.of_nat j + 1) with (Z.of_nat (S j)) by lia.
    rewrite IH by lia. unfold ret.
    rewrite (drop_S _ _ _ Hf). reflexivity.
Qed.

Lemma existsb_handle (l : list files) h :
  existsb (fun f => fileHandle f =? h) l = true <-> h ∈ fileHandle <$> l.
Proof.
  rewrite existsb_exists, list_elem_of_fmap. split.
  - intros (f & Hin & Heq%Z.eqb_eq). exists f. split; [congruence |].
    now apply list_elem_of_In.
  - intros (f & -> & Hin). exists f. split; [now apply list_elem_of_In |].
    apply Z.eqb_refl.
Qed.

Lemma filter_above_le (l : list Z) (a : Z) :
  (length (filter (fun k => (a + 1 < k)%Z) l)
   <= length (filter (fun k => (a < k)%Z) l))%nat.
Proof.
  induction l as [| x l IH]; [reflexivity |].
  rewrite !filter_cons. repeat case_decide; cbn; lia.
Qed.

Lemma filter_above_lt (l : list Z) (a : Z) :
  a + 1 ∈ l ->
  (length (filter (fun k => (a + 1 < k)%Z) l)
   < length (filter (fun k => (a < k)%Z) l))%nat.
Proof.
  induction l as [| x l IH]; intros Hin.
  - apply elem_of_nil in Hin. contradiction.
  - rewrite !filter_cons. apply elem_of_cons in Hin as [<- | Hin].
    + pose proof (filter_above_le l a). repeat case_decide; cbn; lia.
    + specialize (IH Hin). repeat case_decide; cbn; lia.
Qed.

(** The [do ... while] of [cart_open] ends: started from [fileHandleAssign],
    it returns the smallest handle above it that none of the scanned files
    has, provided the bound on its rounds is at least the number of scanned
    handles above [fileHandleAssign] -- which the number of scanned files
    always is. *)
Lemma pick_handle_returns {Dev} (d : driver Dev) fs scanned :
  filesystem d = Block fs -> (scanned <= length fs)%nat ->
  forall fuel fileHandleAssign,
    (length (handles_above fileHandleAssign scanned fs) <= fuel)%nat ->
    exists h,
      pick_handle fuel scanned fileHandleAssign d = Returns h d
      /\ fileHandleAssign < h
      /\ (h ∉ fileHandle <$> take scanned fs)
      /\ forall k, fileHandleAssign < k < h ->
           k ∈ fileHandle <$> take scanned fs.
Proof.
  intros Hfs Hscanned fuel.
  assert (Htaken : forall h,
            handle_taken scanned 0 h d
            = Returns (existsb (fun f => fileHandle f =? h) (take scanned fs)) d).
  { intros h. change 0 with (Z.of_nat 0).
    rewrite (handle_taken_spec d fs h Hfs) by lia. now rewrite drop_0. }
  induction fuel as [| fuel IH]; intros a Hfuel.
  - cbn [pick_handle]. unfold bind. rewrite Htaken.
    destruct (existsb _ (take scanned fs)) eqn:E.
    + apply existsb_handle in E.
      pose proof (filter_above_lt _ a E) as Hlt. unfold handles_above in Hfuel. lia.
    + exists (a + 1). split; [reflexivity |]. split; [lia |]. split; [| lia].
      intros Hin%existsb_handle. congruence.
  - cbn [pick_handle]. unfold bind. rewrite Htaken.
    destruct (existsb _ (take scanned fs)) eqn:E.
    + apply existsb_handle in E.
      pose proof (filter_above_lt _ a E) as Hlt.
      destruct (IH (a + 1)) as (h & Hrun & Hh & Hfree & Hbelow).
      { unfold handles_above in *. lia. }
      exists h. split; [exact Hrun |]. split; [lia |]. split; [exact Hfree |].
      intros k Hk. destruct (Z.eq_dec k (a + 1)) as [-> |]; [exact E |].
      apply Hbelow. lia.
    + exists (a + 1). split; [reflexivity |]. split; [lia |]. split; [| lia].
      intros Hin%existsb_handle. congruence.
Qed.

Lemma pick_handle_enough_fuel {Dev} (d : driver Dev) fs scanned :
  filesystem d = Block fs -> (scanned <= length fs)%nat ->
  exists h, pick_handle scanned scanned 0 d = Returns h d /\ 0 < h.
Proof.
  intros Hfs Hscanned.
  destruct (pick_handle_returns d fs scanned Hfs Hscanned scanned 0)
    as (h & Hrun & Hh & _).
  - unfold handles_above.
    etransitivity; [apply length_filter |].
    rewrite length_fmap, length_take. lia.
  - eauto.
Qed.

(** *** Power on and power off *)

Lemma load_and_zero_S first n :
  load_and_zero first (S n)
  = generateBusRequest (request_regs 2 first 0)
    :: generateBusRequest (request_regs 1 0 0)
    :: load_and_zero (first + 1) n.
Proof.
  unfold load_and_zero. rewrite seqZ_cons by lia.
  replace (Z.pred (Z.of_nat (S n))) with (Z.of_nat n) by lia.
  reflexivity.
Qed.

Lemma load_and_zero_length n : forall first,
  length (load_and_zero first n) = (2 * n)%nat.
Proof.
  induction n as [| n IH]; intros first; [reflexivity |].
  rewrite load_and_zero_S. cbn [length]. rewrite IH. lia.
Qed.

Section Power.

Context {Dev : Type}.
Variable client_cart_bus_request : Z -> list byte -> Dev -> Z * list byte * Dev.
Variables CART_FRAME_SIZE CART_MAX_CARTRIDGES indeterminate : Z.
Variable indeterminate_byte : byte.
Variable cache_malloc_ok : Z -> bool.
Hypothesis accepted : accepts_all client_cart_bus_request.

(** An accepted request: the word is logged, the return code read back is
    0, and the globals of the file layer and of the cache are as before. *)
Lemma runBusRequest_accepted ky ct fm buf (d : driver Dev) :
  exists buf' d',
    runBusRequest Dev client_cart_bus_request ky ct fm buf d = Returns buf' d'
    /\ rt (regstate d') = 0
    /\ bus_log d' = bus_log d ++ [generateBusRequest (request_regs ky ct fm)]
    /\ filesystem d' = filesystem d
    /\ fileSystemSize d' = fileSystemSize d
    /\ currentlyLoadedCartridge d' = currentlyLoadedCartridge d
    /\ cart_cache d' = cart_cache d.
Proof.
  unfold runBusRequest.
  pose proof (accepted (generateBusRequest (request_regs ky ct fm)) buf
                (controller d)) as Hrt.
  destruct (client_cart_bus_request _ buf (controller d)) as [[response buf'] dev'].
  eexists _, _. split; [reflexivity |]. cbn in *. auto 10.
Qed.

Lemma poweron_loop_accepted n : forall i (d : driver Dev),
  exists d',
    poweron_loop Dev client_cart_bus_request n i d = Returns None d'
    /\ bus_log d' = bus_log d ++ load_and_zero i n
    /\ filesystem d' = filesystem d
    /\ fileSystemSize d' = fileSystemSize d
    /\ cart_cache d' = cart_cache d
    /\ currentlyLoadedCartridge d' =
         match n with O => currentlyLoadedCartridge d | S n' => i + Z.of_nat n' end.
Proof.
  induction n as [| n IH]; intros i d.
  - exists d. unfold load_and_zero. cbn. rewrite app_nil_r. auto 10.
  - cbn [poweron_loop]. unfold bind at 1.
    destruct (runBusRequest_accepted 2 i 0 [] d)
      as (b1 & d1 & -> & Hrt1 & Hlog1 & Hfs1 & Hsz1 & _ & Hc1).
    unfold bind at 1, get at 1. rewrite Hrt1. cbn [Z.eqb negb].
    unfold bind at 1.
    destruct (runBusRequest_accepted 1 0 0 [] d1)
      as (b2 & d2 & -> & Hrt2 & Hlog2 & Hfs2 & Hsz2 & _ & Hc2).
    unfold bind at 1, get at 1. rewrite Hrt2. cbn [Z.eqb negb].
    unfold bind at 1, modify at 1.
    destruct (IH (i + 1) (set_currentlyLoadedCartridge Dev i d2))
      as (d' & -> & Hlog & Hfs & Hsz & Hc & Hloaded).
    exists d'. split; [reflexivity |]. cbn in Hlog, Hfs, Hsz, Hc, Hloaded.
    repeat split.
    + rewrite Hlog, Hlog2, Hlog1, load_and_zero_S, <- !app_assoc. reflexivity.
    + congruence.
    + congruence.
    + congruence.
    + rewrite Hloaded. destruct n; cbn; lia.
Qed.

(** [cart_poweron] with a controller that accepts every request sends INIT
    and LOAD, ZERO for each cartridge in turn, leaves the last cartridge
    loaded, does not touch the table of files, and returns 0 when [malloc]
    has a block for the cache, -1 when it has none. *)
Lemma cart_poweron_accepted (d : driver Dev) :
  exists d',
    cart_poweron CART_FRAME_SIZE CART_MAX_CARTRIDGES Dev client_cart_bus_request
      indeterminate indeterminate_byte cache_malloc_ok d
    = Returns (if cache_malloc_ok (myMaxFrames (cart_cache d)) then 0 else -1) d'
    /\ bus_log d' = bus_log d
         ++ generateBusRequest (request_regs 0 0 0)
            :: load_and_zero 0 (Z.to_nat CART_MAX_CARTRIDGES)
    /\ Z.of_nat (length (bus_log d')) =
         Z.of_nat (length (bus_log d)) + 1 + Z.max 0 CART_MAX_CARTRIDGES * 2
    /\ (0 < CART_MAX_CARTRIDGES ->
        currentlyLoadedCartridge d' = CART_MAX_CARTRIDGES - 1)
    /\ filesystem d' = filesystem d
    /\ fileSystemSize d' = fileSystemSize d
    /\ cart_cache d'
       = with_myCache
           (if cache_malloc_ok (myMaxFrames (cart_cache d))
            then fresh_cache_block CART_FRAME_SIZE indeterminate
                   indeterminate_byte (myMaxFrames (cart_cache d))
            else [])
           (cart_cache d).
Proof.
  unfold cart_poweron. unfold bind at 1.
  destruct (runBusRequest_accepted 0 0 0 [] d)
    as (b0 & d0 & -> & Hrt0 & Hlog0 & Hfs0 & Hsz0 & _ & Hc0).
  unfold bind at 1, get at 1. rewrite Hrt0. cbn [Z.eqb negb].
  unfold bind at 1.
  destruct (poweron_loop_accepted (Z.to_nat CART_MAX_CARTRIDGES) 0 d0)
    as (d1 & -> & Hlog1 & Hfs1 & Hsz1 & Hc1 & Hloaded).
  assert (Hc : cart_cache d1 = cart_cache d) by congruence.
  unfold bind at 1, get at 1. rewrite Hc.
  unfold bind, on_cache, init_cart_cache, ret. rewrite Hc.
  destruct (cache_malloc_ok (myMaxFrames (cart_cache d)));
    cbn [fst snd Z.eqb negb];
    (eexists; split; [reflexivity |]);
    cbn [bus_log filesystem fileSystemSize currentlyLoadedCartridge cart_cache
         set_cart_cache].
  all: repeat split.
  all: try (rewrite Hlog1, Hlog0, <- app_assoc; reflexivity).
  all: try (rewrite Hlog1, Hlog0, !length_app, load_and_zero_length;
            cbn [length]; lia).
  all: try (intros HM; rewrite Hloaded;
            destruct (Z.to_nat CART_MAX_CARTRIDGES) eqn:E; lia).
  all: congruence.
Qed.

(** [cart_poweroff] while no file was ever opened stores through the null
    [filesystem]. *)
Lemma cart_poweroff_without_files (d : driver Dev) :
  filesystem d = NULL -> 0 <= fileSystemSize d ->
  cart_poweroff client_cart_bus_request d = GoesWrong NullFilesystem.
Proof.
  intros Hnull Hsize. unfold cart_poweroff, bind at 1, get at 1.
  destruct (Z.to_nat (fileSystemSize d + 1)) as [| n] eqn:E; [lia |].
  cbn [poweroff_loop]. unfold bind, file_update, bind, file_at.
  now rewrite Hnull.
Qed.

(** From program start, whatever the size of the cache, the number of
    cartridges and the controller, as long as it accepts every request:
    [cart_poweron] returns after 1 + 2 * CART_MAX_CARTRIDGES requests, 0 when
    [malloc] had a block for the cache, and [cart_poweroff] right after it
    goes wrong on the null [filesystem]. *)
Lemma poweron_poweroff_at_program_start cache_size dev :
  0 <= CART_MAX_CARTRIDGES ->
  exists d,
    cart_poweron CART_FRAME_SIZE CART_MAX_CARTRIDGES Dev client_cart_bus_request
      indeterminate indeterminate_byte cache_malloc_ok
      (at_program_start cache_size dev)
    = Returns (if cache_malloc_ok (int32 cache_size) then 0 else -1) d
    /\ Z.of_nat (length (bus_log d)) = 1 + CART_MAX_CARTRIDGES * 2
    /\ cart_poweroff client_cart_bus_request d = GoesWrong NullFilesystem.
Proof.
  intros HM.
  destruct (cart_poweron_accepted (at_program_start cache_size dev))
    as (d & Hrun & _ & Hlen & _ & Hfs & Hsz & _).
  exists d. split; [exact Hrun |]. split.
  - rewrite Hlen. cbn. lia.
  - apply cart_poweroff_without_files; [exact Hfs | rewrite Hsz; cbn; lia].
Qed.

End Power.

(** *** Writing and reading back bytes without a null byte *)

(** What the cache holds under a key is what [get_cart_cache] returns. *)
Lemma get_after_put s cart frm b :
  cache_inv s -> key_holds s cart frm b ->
  exists s', get_cart_cache cart frm s = Some (s', Some b) /\ cache_inv s'.
Proof.
  intros Hinv (i & e & Hin & Hc & Hf & Hb).
  destruct (get_outcome s cart frm Hinv)
    as [(s' & data & Hrun & Hinv' & _ & _ & _ & (j & e' & Hin' & Hc' & Hf' & Hb'))
       | [_ Hnone]].
  - exists s'. split; [| exact Hinv'].
    assert (i = j) as -> by (apply (inv_key s Hinv i j e e'); congruence).
    destruct Hin as [_ H1], Hin' as [_ H2]. congruence.
  - exfalso. apply (Hnone i e Hin). auto.
Qed.

Lemma strncpy_bytes_prefix (buf rest : list byte) :
  Forall (fun b => b <> x00) buf ->
  strncpy_bytes (length buf) (buf ++ rest) = Some buf.
Proof.
  induction 1 as [| b buf Hb _ IH]; [reflexivity |].
  cbn [length app strncpy_bytes].
  destruct (Byte.eqb b x00) eqn:E.
  - apply Byte.byte_dec_bl in E. contradiction.
  - rewrite IH. reflexivity.
Qed.

Lemma write_at_start (dst data : list byte) :
  (length data <= length dst)%nat ->
  write_at dst 0 data = Some (data ++ drop (length data) dst).
Proof.
  intros Hlen. unfold write_at.
  destruct (Z.leb_spec 0 0); [| lia].
  destruct (Z.leb_spec (0 + Z.of_nat (length data)) (Z.of_nat (length dst))); [| lia].
  reflexivity.
Qed.

(** [m] started on [d] returns [a] and leaves [d']. *)
Lemma bind_Returns {Dev A B} (m : act Dev A) (k : A -> act Dev B) d a d' :
  m d = Returns a d' -> bind m k d = k a d'.
Proof. intros H. unfold bind. now rewrite H. Qed.

Lemma file_at_table {Dev} (d : driver Dev) fs (i : nat) f :
  filesystem d = Block fs -> fs !! i = Some f ->
  file_at (Z.of_nat i) d = Returns f d.
Proof.
  intros Hfs Hi. unfold file_at. rewrite Hfs.
  destruct (Z.ltb_spec (Z.of_nat i) 0); [lia |]. now rewrite Nat2Z.id, Hi.
Qed.

Lemma file_update_table {Dev} (d : driver Dev) fs (i : nat) f g :
  filesystem d = Block fs -> fs !! i = Some f ->
  file_update (Z.of_nat i) g d
  = Returns tt (set_filesystem (Block (<[i := g f]> fs)) d).
Proof.
  intros Hfs Hi. unfold file_update.
  rewrite (bind_Returns _ _ _ _ _ (file_at_table d fs i f Hfs Hi)).
  now rewrite Hfs, Nat2Z.id.
Qed.

(** Replacing a file by one with the same handle does not change which file
    a handle names. *)
Lemma file_of_handle_insert fs fd (i : nat) f f' :
  file_of_handle fs fd = Some (i, f) ->
  fileHandle f' = fileHandle f ->
  file_of_handle (<[i := f']> fs) fd = Some (i, f').
Proof.
  unfold file_of_handle. intros (Hi & Hfd & Hfirst)%list_find_Some Hh.
  apply list_find_Some. split; [| split].
  - apply list_lookup_insert_eq. now apply lookup_lt_Some in Hi.
  - congruence.
  - intros j y Hy Hj. rewrite list_lookup_insert_ne in Hy by lia.
    now apply (Hfirst j y).
Qed.

(** Steps of a run that always return. *)
Lemma bind_get {Dev A B} (proj : driver Dev -> A) (k : A -> act Dev B) d :
  bind (get Dev proj) k d = k (proj d) d.
Proof. reflexivity. Qed.

Lemma bind_modify {Dev B} (g : driver Dev -> driver Dev)
    (k : unit -> act Dev B) d :
  bind (modify Dev g) k d = k tt (g d).
Proof. reflexivity. Qed.

Lemma bind_defined {Dev A B} flt (a : A) (k : A -> act Dev B) d :
  bind (defined Dev flt (Some a)) k d = k a d.
Proof. reflexivity. Qed.

(** Bring the globals, and the fields of a file, back to constructor form
    after an update. *)
Ltac globals :=
  unfold set_filesystem, set_cart_cache, set_currentlyLoadedCartridge,
    set_nextFrame, set_nextCartridge, set_regstate, set_fileSystemSize;
  cbn [regstate filesystem fileSystemSize currentlyLoadedCartridge nextFrame
       nextCartridge cart_cache controller bus_log].

Ltac fields :=
  unfold with_location, with_frames, with_cartridges, with_occupiedFrames,
    with_occupiedCartridges, with_length, with_filePointer, with_fileHandle;
  cbn [fileName file_length filePointer location fileHandle
       cartridges occupiedCartridges frames occupiedFrames].

Section RoundTrip.
Context {Dev : Type}.
Variable client_cart_bus_request : Z -> list byte -> Dev -> Z * list byte * Dev.
Variables CART_FRAME_SIZE indeterminate : Z.
Variable indeterminate_byte : byte.
Hypothesis accepted : accepts_all client_cart_bus_request.

Lemma slot_store_first (a : list Z) v :
  a <> [] -> slot_store a 0 v = Some (<[0%nat := v]> a).
Proof. destruct a; [contradiction | reflexivity]. Qed.

Lemma slot_at_first (a : list Z) v :
  a <> [] -> slot_at (<[0%nat := v]> a) 0 = Some v.
Proof. destruct a; [contradiction | reflexivity]. Qed.

(** With a controller that accepts every request, a request, the loading of
    a cartridge and the move of the frontier return and leave the table of
    files and the cache as they are. *)
Lemma runBusRequest_mk ky ct fm buf rs p size loaded nf nc cs dev log :
  exists buf' rs' dev',
    runBusRequest Dev client_cart_bus_request ky ct fm buf
      (mkDriver rs p size loaded nf nc cs dev log)
    = Returns buf' (mkDriver rs' p size loaded nf nc cs dev'
                      (log ++ [generateBusRequest (request_regs ky ct fm)]))
    /\ rt rs' = 0.
Proof.
  unfold runBusRequest. cbn.
  pose proof (accepted (generateBusRequest (request_regs ky ct fm)) buf dev) as Hrt.
  destruct (client_cart_bus_request _ buf dev) as [[response buf'] dev'].
  eexists _, _, _. split; [reflexivity | exact Hrt].
Qed.

Lemma load_cartridge_mk c rs p size loaded nf nc cs dev log :
  exists rs' loaded' dev' log',
    load_cartridge Dev client_cart_bus_request c
      (mkDriver rs p size loaded nf nc cs dev log)
    = Returns None (mkDriver rs' p size loaded' nf nc cs dev' log').
Proof.
  unfold load_cartridge. rewrite bind_get. cbn [currentlyLoadedCartridge].
  destruct (loaded =? c); cbn [negb].
  - eexists _, _, _, _. reflexivity.
  - destruct (runBusRequest_mk 2 c 0 [] rs p size loaded nf nc cs dev log)
      as (b & rs' & dev' & Hrun & Hrt).
    rewrite (bind_Returns _ _ _ _ _ Hrun), bind_get. cbn [regstate].
    rewrite Hrt. cbn [Z.eqb negb]. rewrite bind_modify. globals.
    eexists _, _, _, _. reflexivity.
Qed.

Lemma advance_frontier_mk rs p size loaded nf nc cs dev log :
  exists nf' nc',
    advance_frontier CART_FRAME_SIZE Dev (mkDriver rs p size loaded nf nc cs dev log)
    = Returns tt (mkDriver rs p size loaded nf' nc' cs dev log).
Proof.
  unfold advance_frontier. rewrite bind_get, bind_modify, bind_get. globals.
  destruct (nf + 1 =? CART_FRAME_SIZE).
  - rewrite bind_modify, bind_get. unfold modify. globals. eauto.
  - unfold ret. eauto.
Qed.

Lemma frame_payload_exact (b : list byte) :
  Z.of_nat (length b) = CART_FRAME_SIZE ->
  frame_payload CART_FRAME_SIZE b = Some b.
Proof.
  intros H. unfold frame_payload.
  destruct (Z.leb_spec CART_FRAME_SIZE (Z.of_nat (length b))); [| lia].
  rewrite firstn_all2 by lia. reflexivity.
Qed.

(** The first write to a file, of bytes without a null byte: the file gets
    one slot at the frontier, and the cache holds under that slot the bytes
    written, followed by what the frame buffer happened to contain. *)
Lemma write_first_frame_runs rs fs size loaded nf nc cs dev log (i : nat) f buf :
  fs !! i = Some f ->
  occupiedFrames (location f) <> [] -> occupiedCartridges (location f) <> [] ->
  cache_inv cs -> 0 < myMaxFrames cs ->
  Z.of_nat (length buf) <= CART_FRAME_SIZE ->
  Forall (fun b => b <> x00) buf ->
  exists rs' loaded' nf' nc' cs' dev' log',
    write_first_frame CART_FRAME_SIZE Dev client_cart_bus_request indeterminate_byte
      (Z.of_nat i) buf (Z.of_nat (length buf))
      (mkDriver rs (Block fs) size loaded nf nc cs dev log)
    = Returns (Z.of_nat (length buf))
        (mkDriver rs' (Block (<[i := first_frame f nc nf (Z.of_nat (length buf))]> fs))
           size loaded' nf' nc' cs' dev' log')
    /\ cache_inv cs'
    /\ key_holds cs' (uint16 nc) (uint16 nf)
         (buf ++ drop (length buf)
                   (replicate (Z.to_nat CART_FRAME_SIZE) indeterminate_byte)).
Proof.
  intros Hi HoF HoC Hinv HM Hn Hnul.
  pose proof (lookup_lt_Some _ _ _ Hi) as Hlt.
  set (P := buf ++ drop (length buf)
                     (replicate (Z.to_nat CART_FRAME_SIZE) indeterminate_byte)).
  assert (HP : Z.of_nat (length P) = CART_FRAME_SIZE).
  { unfold P. rewrite length_app, length_drop, length_replicate. lia. }
  unfold write_first_frame, update_location, store_occupiedFrame,
    store_occupiedCartridge, update_location.
  (* frames = 0; cartridges = 0 *)
  erewrite bind_Returns; [| eapply file_update_table; [reflexivity | exact Hi]].
  globals.
  erewrite bind_Returns;
    [| eapply file_update_table; [reflexivity | apply list_lookup_insert_eq, Hlt]].
  globals. rewrite list_insert_insert_eq. fields.
  (* occupiedFrames[0] = nextFrame *)
  rewrite bind_get. globals.
  erewrite bind_Returns;
    [| erewrite bind_Returns;
       [| eapply file_at_table; [reflexivity | apply list_lookup_insert_eq, Hlt]];
       fields; rewrite (slot_store_first _ _ HoF), bind_defined;
       eapply file_update_table; [reflexivity | apply list_lookup_insert_eq, Hlt]].
  globals. rewrite list_insert_insert_eq. fields.
  (* occupiedCartridges[0] = nextCartridge *)
  rewrite bind_get. globals.
  erewrite bind_Returns;
    [| erewrite bind_Returns;
       [| eapply file_at_table; [reflexivity | apply list_lookup_insert_eq, Hlt]];
       fields; rewrite (slot_store_first _ _ HoC), bind_defined;
       eapply file_update_table; [reflexivity | apply list_lookup_insert_eq, Hlt]].
  globals. rewrite list_insert_insert_eq. fields.
  (* the frontier moves on *)
  destruct (advance_frontier_mk rs
              (Block (<[i := mkFile (fileName f) (file_length f) (filePointer f)
                               (mkLocation 0
                                  (<[0%nat := nc]> (occupiedCartridges (location f)))
                                  0
                                  (<[0%nat := nf]> (occupiedFrames (location f))))
                               (fileHandle f)]> fs))
              size loaded nf nc cs dev log) as (nf' & nc' & Hadv).
  rewrite (bind_Returns _ _ _ _ _ Hadv). clear Hadv.
  (* length = count; filePointer = count *)
  erewrite bind_Returns;
    [| eapply file_update_table; [reflexivity | apply list_lookup_insert_eq, Hlt]].
  globals. rewrite list_insert_insert_eq. fields.
  erewrite bind_Returns;
    [| eapply file_update_table; [reflexivity | apply list_lookup_insert_eq, Hlt]].
  globals. rewrite list_insert_insert_eq. fields.
  fold (first_frame f nc nf (Z.of_nat (length buf))).
  (* strncpy(sizeOfFrameBuf, buf, count) *)
  assert (Hcopy : strncpy (replicate (Z.to_nat CART_FRAME_SIZE) indeterminate_byte)
                    0 buf 0 (Z.of_nat (length buf)) = Some P).
  { unfold strncpy, strncpy_from.
    destruct (Z.ltb_spec (Z.of_nat (length buf)) 0); [lia |]. cbn [orb Z.ltb Z.compare].
    rewrite Nat2Z.id. change (Z.to_nat 0) with 0%nat. rewrite drop_0.
    rewrite <- (app_nil_r buf) at 2. rewrite (strncpy_bytes_prefix buf [] Hnul).
    cbn [mbind option_bind]. apply write_at_start. rewrite length_replicate. lia. }
  unfold copied. rewrite Hcopy, bind_defined.
  erewrite bind_Returns;
    [| eapply file_at_table; [reflexivity | apply list_lookup_insert_eq, Hlt]].
  unfold slot_of. cbn [first_frame location occupiedCartridges occupiedFrames].
  rewrite (slot_at_first _ _ HoC), bind_defined.
  (* the cartridge is loaded if it was not *)
  match goal with
  | |- context [bind (load_cartridge _ _ _) _ (mkDriver ?a ?b ?c ?d ?e ?g ?h ?k ?l)] =>
      destruct (load_cartridge_mk nc a b c d e g h k l)
        as (rs1 & loaded1 & dev1 & log1 & Hload)
  end.
  rewrite (bind_Returns _ _ _ _ _ Hload). clear Hload.
  rewrite (slot_at_first _ _ HoF), bind_defined.
  (* the frame goes to the cache *)
  destruct (put_outcome CART_FRAME_SIZE cs (uint16 nc) (uint16 nf) P Hinv)
    as [[HM0 _] | [(_ & Hnone & _) | (_ & cs' & Hput & Hinv' & _ & _ & Hholds)]].
  { lia. }
  { rewrite (frame_payload_exact P HP) in Hnone. discriminate. }
  specialize (Hholds P (frame_payload_exact P HP)).
  unfold bind at 1, on_cache at 1. cbn [cart_cache]. rewrite Hput. globals.
  (* and to the controller *)
  match goal with
  | |- context [bind (runBusRequest _ _ ?ky ?ct ?fm ?bf) _
                  (mkDriver ?a ?b ?c ?d ?e ?g ?h ?k ?l)] =>
      destruct (runBusRequest_mk ky ct fm bf a b c d e g h k l)
        as (b2 & rs2 & dev2 & Hbus & Hrt)
  end.
  rewrite (bind_Returns _ _ _ _ _ Hbus), bind_get. cbn [regstate].
  rewrite Hrt. cbn [Z.eqb negb]. unfold ret.
  eexists _, _, _, _, _, _, _. split; [reflexivity |]. split; assumption.
Qed.

(** A read from offset 0 of a file of one slot whose frame is in the cache
    and starts with bytes without a null byte: these bytes are returned. *)
Lemma read_cached_frame (d : driver Dev) fs fd (i : nat) f buf rest c fm :
  filesystem d = Block fs ->
  Z.of_nat (length fs) = fileSystemSize d + 1 ->
  0 < fd ->
  file_of_handle fs fd = Some (i, f) ->
  filePointer f = 0 ->
  file_length f = Z.of_nat (length buf) ->
  frames (location f) = 0 ->
  slot_at (occupiedCartridges (location f)) 0 = Some c ->
  slot_at (occupiedFrames (location f)) 0 = Some fm ->
  cache_inv (cart_cache d) ->
  key_holds (cart_cache d) (uint16 c) (uint16 fm) (buf ++ rest) ->
  Z.of_nat (length (buf ++ rest)) = CART_FRAME_SIZE ->
  0 < CART_FRAME_SIZE ->
  Forall (fun b => b <> x00) buf ->
  exists d',
    cart_read CART_FRAME_SIZE Dev client_cart_bus_request indeterminate_byte
      fd (Z.of_nat (length buf)) d
    = Returns (Z.of_nat (length buf), buf) d'.
Proof.
  intros Hfs Hsize Hfd Hfind Hptr Hlen Hframes Hc Hfm Hinv Hholds HP HFS Hnul.
  pose proof (fileSystemIndex_of_handle d fs fd i f Hfs Hsize Hfind) as Hidx.
  apply list_find_Some in Hfind as (Hi & Hh & _).
  pose proof (lookup_lt_Some _ _ _ Hi) as Hlt.
  destruct d as [rs p size loaded nf nc cs dev log]. cbn in Hfs, Hsize, Hinv, Hholds.
  subst p.
  unfold cart_read. rewrite (bind_Returns _ _ _ _ _ Hidx).
  destruct (Z.eqb_spec (Z.of_nat i) (-1)); [lia |].
  erewrite bind_Returns; [| eapply file_at_table; [reflexivity | exact Hi]].
  destruct (Z.eqb_spec (fileHandle f) 0); [lia |].
  rewrite Hptr, Hframes, Z.add_0_l, Z.quot_0_l by lia.
  set (endFrameIndex := Z.of_nat (length buf) ÷ CART_FRAME_SIZE).
  assert (Hend : 0 <= endFrameIndex) by (apply Z.quot_pos; lia).
  replace (Z.to_nat (Z.min (endFrameIndex - 0) 0 + 1)) with 1%nat by lia.
  set (localBuf := replicate (Z.to_nat (CART_FRAME_SIZE * (endFrameIndex - 0 + 1)))
                     indeterminate_byte).
  assert (HlocalBuf : (length (buf ++ rest) <= length localBuf)%nat).
  { unfold localBuf. rewrite length_replicate. nia. }
  (* the one round of the loop finds the frame in the cache *)
  destruct (get_after_put cs (uint16 c) (uint16 fm) (buf ++ rest) Hinv Hholds)
    as (cs' & Hget & _).
  assert (Hfetch :
    fetch_slot CART_FRAME_SIZE Dev client_cart_bus_request (Z.of_nat i) 0 0 localBuf
      (mkDriver rs (Block fs) size loaded nf nc cs dev log)
    = Returns (None, (buf ++ rest) ++ drop (length (buf ++ rest)) localBuf)
        (mkDriver rs (Block fs) size loaded nf nc cs' dev log)).
  { unfold fetch_slot.
    erewrite bind_Returns; [| eapply file_at_table; [reflexivity | exact Hi]].
    unfold slot_of. rewrite Z.add_0_l, Hc, bind_defined, Hfm, bind_defined.
    unfold bind at 1, on_cache at 1. cbn [cart_cache]. rewrite Hget. globals.
    rewrite Z.mul_0_r, firstn_all2 by lia.
    unfold copied.
    now rewrite (write_at_start localBuf (buf ++ rest) HlocalBuf), bind_defined. }
  assert (Hloop :
    fetch_loop CART_FRAME_SIZE Dev client_cart_bus_request 1 (Z.of_nat i) 0 0 localBuf
      (mkDriver rs (Block fs) size loaded nf nc cs dev log)
    = Returns (None, (buf ++ rest) ++ drop (length (buf ++ rest)) localBuf)
        (mkDriver rs (Block fs) size loaded nf nc cs' dev log)).
  { cbn [fetch_loop]. now rewrite (bind_Returns _ _ _ _ _ Hfetch). }
  rewrite (bind_Returns _ _ _ _ _ Hloop).
  (* the bytes go to the caller *)
  erewrite bind_Returns; [| eapply file_at_table; [reflexivity | exact Hi]].
  rewrite Hptr, Hlen, Z.add_0_l, Z.mul_0_l, Z.sub_0_r.
  destruct (Z.gtb_spec (Z.of_nat (length buf)) (Z.of_nat (length buf))); [lia |].
  assert (Hout : strncpy_from
                   ((buf ++ rest) ++ drop (length (buf ++ rest)) localBuf)
                   0 (Z.of_nat (length buf)) = Some buf).
  { unfold strncpy_from.
    destruct (Z.ltb_spec (Z.of_nat (length buf)) 0); [lia |]. cbn [orb Z.ltb Z.compare].
    rewrite Nat2Z.id. change (Z.to_nat 0) with 0%nat. rewrite drop_0, <- app_assoc.
    apply strncpy_bytes_prefix, Hnul. }
  unfold copied. rewrite Hout, bind_defined.
  erewrite bind_Returns; [| eapply file_update_table; [reflexivity | exact Hi]].
  unfold ret. eauto.
Qed.

(** A first write of bytes without a null byte, at most a frame of them, to
    an open file that has no bytes yet, then a seek to 0 and a read of as many
    bytes: the three calls return the count, 0 and the count, and the bytes
    read are the bytes written. (The cache has at least one place and is in a
    state it can reach; the controller accepts every request.) *)
Lemma write_seek_read_without_null_bytes (d : driver Dev) fs fd (i : nat) f buf :
  filesystem d = Block fs ->
  Z.of_nat (length fs) = fileSystemSize d + 1 ->
  0 < fd ->
  file_of_handle fs fd = Some (i, f) ->
  file_length f = 0 ->
  occupiedFrames (location f) <> [] ->
  occupiedCartridges (location f) <> [] ->
  cache_inv (cart_cache d) ->
  0 < myMaxFrames (cart_cache d) ->
  0 < CART_FRAME_SIZE < 2 ^ 31 ->
  Z.of_nat (length buf) <= CART_FRAME_SIZE ->
  Forall (fun b => b <> x00) buf ->
  exists d',
    bind (cart_write CART_FRAME_SIZE Dev client_cart_bus_request indeterminate
            indeterminate_byte fd buf (Z.of_nat (length buf)))
      (fun w =>
         bind (cart_seek fd 0)
           (fun s =>
              bind (cart_read CART_FRAME_SIZE Dev client_cart_bus_request
                      indeterminate_byte fd (Z.of_nat (length buf)))
                (fun r => ret (w, s, r)))) d
    = Returns (Z.of_nat (length buf), 0, (Z.of_nat (length buf), buf)) d'.
Proof.
  intros Hfs Hsize Hfd Hfind Hlen0 HoF HoC Hinv HM HFS Hn Hnul.
  pose proof (fileSystemIndex_of_handle d fs fd i f Hfs Hsize Hfind) as Hidx.
  pose proof Hfind as (Hi & Hh & _)%list_find_Some.
  destruct d as [rs p size loaded nf nc cs dev log]. cbn in Hfs, Hsize, Hinv, HM.
  subst p.
  (* the write *)
  destruct (write_first_frame_runs rs fs size loaded nf nc cs dev log i f buf
              Hi HoF HoC Hinv HM Hn Hnul)
    as (rs1 & loaded1 & nf1 & nc1 & cs1 & dev1 & log1 & Hwrite & Hinv1 & Hholds).
  set (f1 := first_frame f nc nf (Z.of_nat (length buf))) in *.
  set (d1 := mkDriver rs1 (Block (<[i := f1]> fs)) size loaded1 nf1 nc1 cs1
               dev1 log1) in *.
  assert (Hw : cart_write CART_FRAME_SIZE Dev client_cart_bus_request indeterminate
                 indeterminate_byte fd buf (Z.of_nat (length buf))
                 (mkDriver rs (Block fs) size loaded nf nc cs dev log)
               = Returns (Z.of_nat (length buf)) d1).
  { unfold cart_write. rewrite (bind_Returns _ _ _ _ _ Hidx).
    destruct (Z.eqb_spec (Z.of_nat i) (-1)); [lia |].
    erewrite bind_Returns; [| eapply file_at_table; [reflexivity | exact Hi]].
    destruct (Z.eqb_spec (fileHandle f) 0); [lia |].
    rewrite Hlen0. exact Hwrite. }
  rewrite (bind_Returns _ _ _ _ _ Hw).
  (* the seek *)
  assert (Hfind1 : file_of_handle (<[i := f1]> fs) fd = Some (i, f1))
    by (apply (file_of_handle_insert fs fd i f f1 Hfind); reflexivity).
  assert (Hseek : cart_seek fd 0 d1
                  = Returns 0 (set_filesystem
                                 (Block (<[i := with_filePointer 0 f1]>
                                           (<[i := f1]> fs))) d1)).
  { apply (cart_seek_within d1 (<[i := f1]> fs) fd 0 i f1);
      try reflexivity; try assumption.
    - rewrite length_insert. exact Hsize.
    - cbn. lia.
    - cbn. lia. }
  rewrite (bind_Returns _ _ _ _ _ Hseek). clear Hseek.
  rewrite list_insert_insert_eq.
  (* the read *)
  set (f2 := with_filePointer 0 f1).
  destruct (read_cached_frame
              (set_filesystem (Block (<[i := f2]> fs)) d1)
              (<[i := f2]> fs) fd i f2 buf
              (drop (length buf)
                 (replicate (Z.to_nat CART_FRAME_SIZE) indeterminate_byte))
              nc nf) as [d3 Hread]; try reflexivity; try assumption.
  { cbn. rewrite length_insert. exact Hsize. }
  { apply (file_of_handle_insert fs fd i f f2 Hfind). reflexivity. }
  { cbn. now apply slot_at_first. }
  { cbn. now apply slot_at_first. }
  { rewrite length_app, length_drop, length_replicate. lia. }
  { lia. }
  rewrite (bind_Returns _ _ _ _ _ Hread). unfold ret. eauto.
Qed.
End RoundTrip.

Lemma zeroed_controller_accepts frame_size :
  accepts_all (zeroed_controller frame_size).
Proof.
  intros request buf dev. cbn [zeroed_controller fst].
  rewrite readBusResponse_fields. cbn [rt].
  change (2 ^ 1) with 2. rewrite <- Z.testbit_spec' by lia.
  now rewrite Z.clearbit_eq.
Qed.

(** The lemma at work: after [cart_poweron] and [cart_open] on the demo
    platform, the bytes 01 03 02 come back as written. *)
Example write_seek_read_three_bytes :
  exists d,
    Demo.opened Demo.start = Returns 1 d
    /\ exists d', Demo.write_seek_read 1 [x01; x03; x02] d
                  = Returns (3, 0, (3, [x01; x03; x02])) d'.
Proof.
  eexists. split; [vm_compute; reflexivity |].
  eapply (write_seek_read_without_null_bytes
            (zeroed_controller Demo.frame_size) Demo.frame_size 0 x00
            (zeroed_controller_accepts Demo.frame_size) _ _ 1 0%nat _
            [x01; x03; x02]).
  - reflexivity.
  - reflexivity.
  - lia.
  - reflexivity.
  - reflexivity.
  - discriminate.
  - discriminate.
  - apply (init_inv 4 (replicate 4 (mkCachedFrame 0 0 (replicate 1024 x00) 0)));
      [lia | reflexivity].
  - reflexivity.
  - unfold Demo.frame_size. lia.
  - unfold Demo.frame_size. cbn. lia.
  - repeat constructor; discriminate.
Qed.

(** *** The code on concrete runs *)

(** C6: [cart_poweron] at program start, with a controller that accepts every
    request, returns 0 after INIT and then LOAD and ZERO for each of the 64
    cartridges (129 requests), with cartridge 63 loaded. [cart_poweroff] right
    after it does not return: no file was ever opened, [filesystem] is still
    null, and the loop over the files stores to [filesystem[0]]. *)
Theorem poweron_then_poweroff_goes_wrong :
  exists d,
    Demo.poweron Demo.start = Returns 0 d
    /\ bus_log d = Demo.poweron_requests
    /\ length (bus_log d) = 129%nat
    /\ currentlyLoadedCartridge d = 63
    /\ filesystem d = NULL
    /\ fileSystemSize d = 0
    /\ Demo.poweroff d = GoesWrong NullFilesystem.
Proof.
  eexists. split; [vm_compute; reflexivity |].
  repeat split; vm_compute; reflexivity.
Qed.

(** C5: with files "a" (closed) and "b" (open under handle 2), opening "a"
    again returns handle 1, but the record that gets handle 1 is the last one
    of the table, "b"; "a" stays closed. Handle 1 now names "b". *)
Theorem reopen_marks_the_last_file :
  exists d,
    Demo.reopen Demo.start = Returns (1, 2, 0, 1) d
    /\ Demo.table_summary d = [("a"%string, 0, 0, 0); ("b"%string, 0, 0, 1)]
    /\ fileSystemIndex_of 1 d = Returns 1 d.
Proof.
  eexists. split; [vm_compute; reflexivity |].
  split; vm_compute; reflexivity.
Qed.

(** C7: a file of two slots (2048 bytes), cursor at 1024. [cart_read] of 1024
    bytes computes start slot 1 and end slot 2; its loop guard compares the
    round number, not the slot index, with [frames], so the second round reads
    [occupiedCartridges[2]], past the two allocated slots. *)
Theorem read_indexes_past_the_slots :
  exists d,
    Demo.two_frames Demo.start = Returns (1, 1024, 1024, 0) d
    /\ Demo.table_summary d = [("a"%string, 2048, 1024, 1)]
    /\ (exists f, filesystem d = Block [f]
          /\ frames (location f) = 1
          /\ length (occupiedCartridges (location f)) = 2%nat
          /\ length (occupiedFrames (location f)) = 2%nat)
    /\ Demo.read 1 1024 d = GoesWrong (SlotOutOfBounds 2).
Proof.
  eexists. split; [vm_compute; reflexivity |].
  split; [vm_compute; reflexivity |].
  split; [eexists; repeat split; vm_compute; reflexivity |].
  vm_compute; reflexivity.
Qed.

(** C2: the three bytes 01 00 02 written at offset 0 of a new file are read
    back as 01 00 00: both calls return 3, but the copies are made with
    [strncpy], which stops at the null byte and fills up with null bytes. *)
Theorem write_then_read_loses_bytes :
  exists d,
    Demo.write_then_read [x01; x00; x02] Demo.start
    = Returns (3, 0, (3, [x01; x00; x00])) d.
Proof. eexists. vm_compute. reflexivity. Qed.

(** * Further properties *)

(** ** Wire codec *)

(** Decoding a word laid out as opcode, cartridge and frame. *)
Lemma decode_packed (op cart frm : Z) :
  0 <= op < 2 ^ 8 -> 0 <= cart < 2 ^ 16 -> 0 <= frm < 2 ^ 16 ->
  readBusResponse (op * 2 ^ 56 + cart * 2 ^ 31 + frm * 2 ^ 15)
  = mkRegs op cart frm 0.
Proof.
  intros Ho Hc Hf. rewrite readBusResponse_fields.
  set (w := op * 2 ^ 56 + cart * 2 ^ 31 + frm * 2 ^ 15).
  assert (Hky : w / 2 ^ 56 = op)
    by (symmetry; apply (Z.div_unique _ _ _ (cart * 2 ^ 31 + frm * 2 ^ 15));
        unfold w; lia).
  assert (Hct : w / 2 ^ 31 = op * 2 ^ 25 + cart)
    by (symmetry; apply (Z.div_unique _ _ _ (frm * 2 ^ 15)); unfold w; lia).
  assert (Hfm : w / 2 ^ 15 = op * 2 ^ 41 + cart * 2 ^ 16 + frm)
    by (symmetry; apply (Z.div_unique _ _ _ 0); unfold w; lia).
  assert (Hrt : w / 2 ^ 47 = op * 2 ^ 9)
    by (symmetry; apply (Z.div_unique _ _ _ (cart * 2 ^ 31 + frm * 2 ^ 15));
        unfold w; lia).
  rewrite Hky, Hct, Hfm, Hrt. f_equal.
  - rewrite (Z.mod_small op) by lia. apply uint8_small; lia.
  - replace (op * 2 ^ 25 + cart) with (cart + (op * 2 ^ 9) * 2 ^ 16) by lia.
    rewrite Z.mod_add, Z.mod_small by lia. apply uint16_small; lia.
  - replace (op * 2 ^ 41 + cart * 2 ^ 16 + frm)
      with (frm + (op * 2 ^ 25 + cart) * 2 ^ 16) by lia.
    rewrite Z.mod_add, Z.mod_small by lia. apply uint16_small; lia.
  - replace (op * 2 ^ 9) with (0 + (op * 2 ^ 8) * 2 ^ 1) by lia.
    rewrite Z.mod_add by lia. reflexivity.
Qed.

Lemma request_word (ky ct fm : Z) :
  generateBusRequest (request_regs ky ct fm)
  = (ky mod 2 ^ 8) * 2 ^ 56 + (ct mod 2 ^ 16) * 2 ^ 31 + (fm mod 2 ^ 16) * 2 ^ 15.
Proof.
  unfold request_regs, uint8, uint16.
  pose proof (Z.mod_pos_bound ky (2 ^ 8) ltac:(lia)).
  pose proof (Z.mod_pos_bound ct (2 ^ 16) ltac:(lia)).
  pose proof (Z.mod_pos_bound fm (2 ^ 16) ltac:(lia)).
  apply packed_word; assumption.
Qed.

(** X1. Whatever integers [runBusRequest] is given, the word it sends
    decodes to the opcode reduced modulo 2^8, the cartridge and the frame
    reduced modulo 2^16, and return code 0: out-of-range arguments are
    truncated to their register, never spilled into a neighbouring field. *)
Theorem request_decodes_to_truncated_arguments (ky ct fm : Z) :
  readBusResponse (generateBusRequest (request_regs ky ct fm))
  = mkRegs (ky mod 2 ^ 8) (ct mod 2 ^ 16) (fm mod 2 ^ 16) 0.
Proof.
  rewrite request_word.
  pose proof (Z.mod_pos_bound ky (2 ^ 8) ltac:(lia)).
  pose proof (Z.mod_pos_bound ct (2 ^ 16) ltac:(lia)).
  pose proof (Z.mod_pos_bound fm (2 ^ 16) ltac:(lia)).
  apply decode_packed; assumption.
Qed.

(** X2. A request word fits in 64 bits and has nothing outside its three
    fields: the 15 low bits are 0, and so are bit 47 (the return code) and
    the bits 48..55 (the second key register). *)
Theorem request_word_unused_bits_clear (ky ct fm : Z) :
  let w := generateBusRequest (request_regs ky ct fm) in
  0 <= w < 2 ^ 64 /\ w mod 2 ^ 15 = 0 /\ (w / 2 ^ 47) mod 2 ^ 9 = 0.
Proof.
  cbv zeta. rewrite request_word.
  pose proof (Z.mod_pos_bound ky (2 ^ 8) ltac:(lia)) as Hk.
  pose proof (Z.mod_pos_bound ct (2 ^ 16) ltac:(lia)) as Hc.
  pose proof (Z.mod_pos_bound fm (2 ^ 16) ltac:(lia)) as Hf.
  set (op := ky mod 2 ^ 8) in *. set (cart := ct mod 2 ^ 16) in *.
  set (frm := fm mod 2 ^ 16) in *.
  split; [lia |]. split.
  - replace (op * 2 ^ 56 + cart * 2 ^ 31 + frm * 2 ^ 15)
      with ((op * 2 ^ 41 + cart * 2 ^ 16 + frm) * 2 ^ 15) by lia.
    apply Z.mod_mul. lia.
  - replace ((op * 2 ^ 56 + cart * 2 ^ 31 + frm * 2 ^ 15) / 2 ^ 47)
      with (op * 2 ^ 9).
    + apply Z.mod_mul. lia.
    + apply (Z.div_unique _ _ _ (cart * 2 ^ 31 + frm * 2 ^ 15)); lia.
Qed.

(** X3. Whatever word comes back, the registers read from it are in range,
    and the return code is bit 47 of the word: 1 when it is set, 0 when it is
    clear. *)
Theorem response_registers (w : Z) :
  let r := readBusResponse w in
  0 <= kyOne r < 2 ^ 8 /\ 0 <= ctOne r < 2 ^ 16 /\ 0 <= fmOne r < 2 ^ 16
  /\ rt r = Z.b2z (Z.testbit w 47).
Proof.
  cbv zeta. rewrite readBusResponse_fields. cbn [kyOne ctOne fmOne rt].
  unfold uint8, uint16.
  repeat split; try (apply Z.mod_pos_bound; lia).
  rewrite Z.testbit_spec' by lia. change (2 ^ 1) with 2.
  apply Z.mod_small.
  pose proof (Z.mod_pos_bound (w / 2 ^ 47) 2 ltac:(lia)). lia.
Qed.

(** ** Frame cache: what a call changes *)

Lemma with_priority_same e : with_priority (priority e) e = e.
Proof. now destruct e. Qed.

(** The entries in use after entry [k] was touched and then holds [E]. *)
Lemma in_use_after_touch s k e E c3 :
  in_use s k e ->
  (forall j, cache_entry c3 j =
     if j =? k then Some E
     else touch_entry (numberOfUnoccupiedFrames s) k (priority e) j
            <$> cache_entry (myCache s) j) ->
  forall j e',
    in_use (with_myCache c3 s) j e'
    <-> (j = k /\ e' = E)
        \/ (j <> k /\ exists e0, in_use s j e0
              /\ e' = with_priority
                        (if priority e0 <? priority e then priority e0 + 1
                         else priority e0) e0).
Proof.
  intros [HUk Hk] Hc3 j e'. unfold in_use at 1. cbn. rewrite Hc3.
  destruct (Z.eqb_spec j k) as [-> | Hne].
  - split.
    + intros [_ [= <-]]. now left.
    + intros [[_ ->] | [? _]]; [split; [lia | reflexivity] | contradiction].
  - split.
    + intros [HUj Hj]. right. split; [assumption |].
      destruct (cache_entry (myCache s) j) as [e0 |] eqn:He0; [| discriminate].
      injection Hj as <-. exists e0. split; [split; assumption |].
      unfold touch_entry. destruct (Z.eqb_spec j k); [contradiction |].
      destruct (Z.leb_spec (numberOfUnoccupiedFrames s) j); [| lia]. cbn.
      destruct (priority e0 <? priority e); [reflexivity |].
      now rewrite with_priority_same.
    + intros [[? _] | (_ & e0 & [HUj He0] & ->)]; [contradiction |].
      split; [assumption |]. rewrite He0. cbn. f_equal.
      unfold touch_entry. destruct (Z.eqb_spec j k); [contradiction |].
      destruct (Z.leb_spec (numberOfUnoccupiedFrames s) j); [| lia]. cbn.
      destruct (priority e0 <? priority e); [reflexivity |].
      now rewrite with_priority_same.
Qed.

(** [get_cart_cache] in full: on a hit the entry found gets the lowest
    priority in use and the entries that were below it move up by one; on a
    miss nothing changes. *)
Lemma get_effect s cart frm :
  cache_inv s ->
  (exists k e s',
     in_use s k e /\ cartridge e = cart /\ frame e = frm
     /\ get_cart_cache cart frm s = Some (s', Some (cache e))
     /\ myMaxFrames s' = myMaxFrames s
     /\ numberOfUnoccupiedFrames s' = numberOfUnoccupiedFrames s
     /\ forall j e',
          in_use s' j e'
          <-> (j = k /\ e' = with_priority (numberOfUnoccupiedFrames s + 1) e)
              \/ (j <> k /\ exists e0, in_use s j e0
                    /\ e' = with_priority
                              (if priority e0 <? priority e then priority e0 + 1
                               else priority e0) e0))
  \/ (get_cart_cache cart frm s = Some (s, None)
      /\ forall j e, in_use s j e -> ~ (frame e = frm /\ cartridge e = cart)).
Proof.
  intros Hinv. pose proof Hinv as [Hb Hl Hr Hp Hk].
  unfold get_cart_cache, rounds_down.
  destruct (find_frame_spec
              (Z.to_nat (myMaxFrames s - 1 - numberOfUnoccupiedFrames s + 1))
              (myMaxFrames s - 1) cart frm (myCache s) ltac:(lia) ltac:(lia))
    as [(k & e & -> & Hk1 & He & Hf & Hc) | [-> Hnone]]; cbn.
  - left. rewrite He; cbn.
    destruct (touch_run s k e ltac:(lia) Hl He) as (c1 & -> & Hadj); cbn.
    rewrite Hadj; cbn. rewrite cache_entry_touched, He; cbn.
    assert (Hin : in_use s k e) by (split; [lia | exact He]).
    exists k, e. eexists. split; [exact Hin |]. do 2 (split; [assumption |]).
    split.
    { unfold touch_entry. rewrite Z.eqb_refl. reflexivity. }
    do 2 (split; [reflexivity |]).
    apply (in_use_after_touch s k e _ _ Hin).
    intros j. rewrite cache_entry_touched.
    destruct (Z.eqb_spec j k) as [-> |]; [| reflexivity].
    rewrite He. cbn. unfold touch_entry. now rewrite Z.eqb_refl.
  - right. split; [reflexivity |]. intros j e [Hj He].
    apply (Hnone j e); [| exact He].
    apply cache_entry_lt in He. lia.
Qed.

Section CacheEffects.

Variable CART_FRAME_SIZE : Z.

(** [put_cart_cache] in full, for a cache with at least one place and a
    buffer that holds a frame. Either an entry is touched and then holds the
    key and the frame -- the entry of the key if there is one, else, when no
    place is free, the entry of priority [myMaxFrames] -- or the free place
    just below the entries in use is filled. *)
Lemma put_effect s cart frm buf b :
  cache_inv s -> 0 < myMaxFrames s ->
  frame_payload CART_FRAME_SIZE buf = Some b ->
  (exists k e s',
     in_use s k e
     /\ ((cartridge e = cart /\ frame e = frm)
         \/ ((forall j e0, in_use s j e0 -> ~ (frame e0 = frm /\ cartridge e0 = cart))
             /\ numberOfUnoccupiedFrames s = 0
             /\ priority e = myMaxFrames s))
     /\ put_cart_cache CART_FRAME_SIZE cart frm buf s = Some (s', 0)
     /\ myMaxFrames s' = myMaxFrames s
     /\ numberOfUnoccupiedFrames s' = numberOfUnoccupiedFrames s
     /\ forall j e',
          in_use s' j e'
          <-> (j = k
               /\ e' = mkCachedFrame frm cart b (numberOfUnoccupiedFrames s + 1))
              \/ (j <> k /\ exists e0, in_use s j e0
                    /\ e' = with_priority
                              (if priority e0 <? priority e then priority e0 + 1
                               else priority e0) e0))
  \/ ((forall j e0, in_use s j e0 -> ~ (frame e0 = frm /\ cartridge e0 = cart))
      /\ 0 < numberOfUnoccupiedFrames s
      /\ exists s',
           put_cart_cache CART_FRAME_SIZE cart frm buf s = Some (s', 0)
           /\ myMaxFrames s' = myMaxFrames s
           /\ numberOfUnoccupiedFrames s' = numberOfUnoccupiedFrames s - 1
           /\ forall j e',
                in_use s' j e'
                <-> (j = numberOfUnoccupiedFrames s - 1
                     /\ e' = mkCachedFrame frm cart b (numberOfUnoccupiedFrames s))
                    \/ in_use s j e').
Proof.
  intros Hinv HM Hb. pose proof Hinv as [Hbd Hl Hr Hp Hk].
  unfold put_cart_cache, rounds_down.
  destruct (find_frame_spec
              (Z.to_nat (myMaxFrames s - 1 - numberOfUnoccupiedFrames s + 1))
              (myMaxFrames s - 1) cart frm (myCache s) ltac:(lia) ltac:(lia))
    as [(k & e & -> & Hk1 & He & Hf & Hc) | [-> Hnone]]; cbn.
  - (* the key is in the cache *)
    left. rewrite He; cbn.
    destruct (touch_run s k e ltac:(lia) Hl He) as (c1 & -> & Hadj); cbn.
    rewrite Hadj; cbn. rewrite cache_entry_touched, He; cbn. rewrite Hb; cbn.
    set (E := with_cache b
                (touch_entry (numberOfUnoccupiedFrames s) k (priority e) k e)).
    assert (HE : E = mkCachedFrame frm cart b (numberOfUnoccupiedFrames s + 1)).
    { unfold E, touch_entry. rewrite Z.eqb_refl, <- Hf, <- Hc.
      destruct e; reflexivity. }
    destruct (cache_store_is_Some (touched s k (priority e)) k E) as [c3 Hc3].
    { unfold touched. rewrite length_imap. apply cache_entry_lt in He. lia. }
    rewrite Hc3; cbn.
    assert (Hin : in_use s k e) by (split; [lia | exact He]).
    exists k, e. eexists. split; [exact Hin |]. split; [left; auto |].
    split; [reflexivity |]. do 2 (split; [reflexivity |]).
    rewrite <- HE. apply (in_use_after_touch s k e E c3 Hin).
    intros j. rewrite (cache_store_entry _ _ _ _ Hc3), cache_entry_touched.
    reflexivity.
  - (* the key is not in the cache *)
    assert (Hfresh : forall j e0, in_use s j e0 ->
              ~ (frame e0 = frm /\ cartridge e0 = cart)).
    { intros j e0 [Hj He0]. apply (Hnone j e0); [| exact He0].
      apply cache_entry_lt in He0. lia. }
    destruct (Z.eqb_spec (numberOfUnoccupiedFrames s) 0) as [HU0 | HU0].
    + (* no room: evict *)
      left.
      destruct (find_priority_spec
                  (Z.to_nat (myMaxFrames s - 1 - numberOfUnoccupiedFrames s + 1))
                  (myMaxFrames s - 1) (myMaxFrames s) (myCache s)
                  ltac:(lia) ltac:(lia))
        as [(k & e & -> & Hk1 & He & Hpe) | [-> Hnomax]]; cbn.
      * rewrite He; cbn.
        destruct (touch_run s k e ltac:(lia) Hl He) as (c1 & -> & Hadj); cbn.
        rewrite Hadj; cbn. rewrite cache_entry_touched, He; cbn. rewrite Hb; cbn.
        set (E := with_cache b (with_cartridge cart (with_frame frm
                    (touch_entry (numberOfUnoccupiedFrames s) k (priority e) k e)))).
        assert (HE : E = mkCachedFrame frm cart b (numberOfUnoccupiedFrames s + 1)).
        { unfold E, touch_entry. rewrite Z.eqb_refl. reflexivity. }
        destruct (cache_store_is_Some (touched s k (priority e)) k E) as [c3 Hc3].
        { unfold touched. rewrite length_imap. apply cache_entry_lt in He. lia. }
        rewrite Hc3; cbn.
        assert (Hin : in_use s k e) by (split; [lia | exact He]).
        exists k, e. eexists. split; [exact Hin |]. split; [right; auto |].
        split; [reflexivity |]. do 2 (split; [reflexivity |]).
        rewrite <- HE. apply (in_use_after_touch s k e E c3 Hin).
        intros j. rewrite (cache_store_entry _ _ _ _ Hc3), cache_entry_touched.
        reflexivity.
      * exfalso.
        destruct (inv_has_priority s (myMaxFrames s) Hinv ltac:(lia))
          as (i & e & [Hi He] & Hpe).
        apply (Hnomax i e); [| exact He | exact Hpe].
        apply cache_entry_lt in He. lia.
    + (* room left *)
      right. split; [exact Hfresh |]. split; [lia |].
      destruct (cache_entry_is_Some (myCache s) (numberOfUnoccupiedFrames s - 1)
                  ltac:(lia)) as [e ->]; cbn. rewrite Hb; cbn.
      set (E := with_cache b (with_cartridge cart (with_frame frm
                  (with_priority (numberOfUnoccupiedFrames s) e)))).
      assert (HE : E = mkCachedFrame frm cart b (numberOfUnoccupiedFrames s))
        by reflexivity.
      destruct (cache_store_is_Some (myCache s) (numberOfUnoccupiedFrames s - 1) E
                  ltac:(lia)) as [c1 Hc1].
      rewrite Hc1; cbn. eexists. split; [reflexivity |].
      do 2 (split; [reflexivity |]).
      intros j e'. unfold in_use at 1. cbn.
      rewrite (cache_store_entry _ _ _ _ Hc1), <- HE.
      destruct (Z.eqb_spec j (numberOfUnoccupiedFrames s - 1)) as [-> | Hne].
      * split.
        -- intros [_ [= <-]]. now left.
        -- intros [[_ ->] | [HUj _]]; [split; [lia | reflexivity] | lia].
      * split.
        -- intros [HUj Hj]. right. split; [lia | assumption].
        -- intros [[? _] | [HUj Hj]]; [contradiction |]. split; [lia | assumption].
Qed.

End CacheEffects.

Section CacheBehaviour.

Variable CART_FRAME_SIZE : Z.

(** With a place in the cache and a buffer shorter than a frame,
    [put_cart_cache] reads past the end of the buffer. *)
Lemma put_without_payload s cart frm buf :
  cache_inv s -> 0 < myMaxFrames s ->
  frame_payload CART_FRAME_SIZE buf = None ->
  put_cart_cache CART_FRAME_SIZE cart frm buf s = None.
Proof.
  intros Hinv HM Hb. pose proof Hinv as [Hbd Hl Hr Hp Hk].
  unfold put_cart_cache, rounds_down.
  destruct (find_frame_spec
              (Z.to_nat (myMaxFrames s - 1 - numberOfUnoccupiedFrames s + 1))
              (myMaxFrames s - 1) cart frm (myCache s) ltac:(lia) ltac:(lia))
    as [(k & e & -> & Hk1 & He & Hf & Hc) | [-> Hnone]]; cbn.
  - rewrite He; cbn.
    destruct (touch_run s k e ltac:(lia) Hl He) as (c1 & -> & Hadj); cbn.
    rewrite Hadj; cbn. rewrite cache_entry_touched, He; cbn. now rewrite Hb.
  - destruct (Z.eqb_spec (numberOfUnoccupiedFrames s) 0) as [HU0 | HU0].
    + destruct (find_priority_spec
                  (Z.to_nat (myMaxFrames s - 1 - numberOfUnoccupiedFrames s + 1))
                  (myMaxFrames s - 1) (myMaxFrames s) (myCache s)
                  ltac:(lia) ltac:(lia))
        as [(k & e & -> & Hk1 & He & Hpe) | [-> Hnomax]]; cbn.
      * rewrite He; cbn.
        destruct (touch_run s k e ltac:(lia) Hl He) as (c1 & -> & Hadj); cbn.
        rewrite Hadj; cbn. rewrite cache_entry_touched, He; cbn. now rewrite Hb.
      * exfalso.
        destruct (inv_has_priority s (myMaxFrames s) Hinv ltac:(lia))
          as (i & e & [Hi He] & Hpe).
        apply (Hnomax i e); [| exact He | exact Hpe].
        apply cache_entry_lt in He. lia.
    + destruct (cache_entry_is_Some (myCache s) (numberOfUnoccupiedFrames s - 1)
                  ltac:(lia)) as [e ->]; cbn. now rewrite Hb.
Qed.

(** What a returning [put_cart_cache] tells: the cache has no place, nothing
    changed and -1 is returned; or it has one, 0 is returned and the buffer
    held a frame. *)
Lemma put_inversion s cart frm buf s' r :
  cache_inv s ->
  put_cart_cache CART_FRAME_SIZE cart frm buf s = Some (s', r) ->
  (myMaxFrames s = 0 /\ s' = s /\ r = -1)
  \/ (0 < myMaxFrames s /\ r = 0
      /\ frame_payload CART_FRAME_SIZE buf
         = Some (take (Z.to_nat CART_FRAME_SIZE) buf)).
Proof.
  intros Hinv Hput.
  destruct (put_outcome CART_FRAME_SIZE s cart frm buf Hinv)
    as [[HM Heq] | [(_ & _ & Heq) | (HM & s1 & Heq & _)]];
    rewrite Heq in Hput; [left | discriminate | right].
  - injection Hput as <- <-. auto.
  - injection Hput as <- <-. split; [exact HM |]. split; [reflexivity |].
    destruct (frame_payload CART_FRAME_SIZE buf) as [b |] eqn:Hb.
    + revert Hb. unfold frame_payload. case_match; congruence.
    + rewrite (put_without_payload s cart frm buf Hinv HM Hb) in Heq.
      discriminate.
Qed.

Lemma key_holds_unique s cart frm b b' :
  cache_inv s -> key_holds s cart frm b -> key_holds s cart frm b' -> b = b'.
Proof.
  intros Hinv (i & e & Hin & Hc & Hf & Hb) (j & e' & Hin' & Hc' & Hf' & Hb').
  assert (i = j) as -> by (apply (inv_key s Hinv i j e e'); congruence).
  destruct Hin as [_ H1], Hin' as [_ H2]. congruence.
Qed.

Lemma in_use_unique s i e e' : in_use s i e -> in_use s i e' -> e = e'.
Proof. intros [_ H1] [_ H2]. congruence. Qed.

(** X4. [get_cart_cache] is a lookup: from a state the cache reaches it
    returns, and what it returns is the frame the cache holds under the key,
    or no frame when it holds none; in that case the cache is left as it
    was. *)
Theorem get_cart_cache_finds_the_key s cart frm :
  cache_reachable CART_FRAME_SIZE s ->
  exists s' r,
    get_cart_cache cart frm s = Some (s', r)
    /\ (forall b, r = Some b <-> key_holds s cart frm b)
    /\ (r = None -> s' = s).
Proof.
  intros Hinv%reachable_inv.
  destruct (get_effect s cart frm Hinv)
    as [(k & e & s' & Hin & Hc & Hf & Hget & _) | [Hget Hnone]].
  - exists s', (Some (cache e)). split; [exact Hget |]. split; [| discriminate].
    assert (Hholds : key_holds s cart frm (cache e)) by (exists k, e; auto).
    intros b. split.
    + intros [= <-]. exact Hholds.
    + intros Hb. f_equal. exact (key_holds_unique s cart frm _ _ Hinv Hholds Hb).
  - exists s, None. split; [exact Hget |]. split; [| reflexivity].
    intros b. split; [discriminate |].
    intros (i & e & Hin & Hc & Hf & _). destruct (Hnone i e Hin). auto.
Qed.

(** X5. [get_cart_cache] changes no key and no frame: the cache holds the
    same frames under the same keys after it as before, in as many places. *)
Theorem get_cart_cache_keeps_contents s cart frm s' r :
  cache_reachable CART_FRAME_SIZE s ->
  get_cart_cache cart frm s = Some (s', r) ->
  myMaxFrames s' = myMaxFrames s
  /\ numberOfUnoccupiedFrames s' = numberOfUnoccupiedFrames s
  /\ forall c f b, key_holds s' c f b <-> key_holds s c f b.
Proof.
  intros Hinv%reachable_inv Hrun.
  destruct (get_effect s cart frm Hinv)
    as [(k & e & s1 & Hin & Hc & Hf & Hget & HM & HU & Hafter) | [Hget Hnone]];
    rewrite Hget in Hrun; injection Hrun as <- <-; [| tauto].
  split; [exact HM |]. split; [exact HU |].
  intros c f b. split.
  - intros (j & e' & Hin' & Hc' & Hf' & Hb').
    apply Hafter in Hin' as [[-> ->] | (Hne & e0 & Hin0 & ->)].
    + exists k, e. auto.
    + exists j, e0. auto.
  - intros (j & e0 & Hin0 & Hc0 & Hf0 & Hb0).
    destruct (Z.eq_dec j k) as [-> | Hne].
    + rewrite (in_use_unique s k e0 e Hin0 Hin) in *.
      exists k, (with_priority (numberOfUnoccupiedFrames s + 1) e).
      split; [apply Hafter; left; auto | auto].
    + eexists j, _. split; [apply Hafter; right; eauto | auto].
Qed.

(** X6. A frame put into the cache is the frame got from it: when
    [put_cart_cache] returns 0, [get_cart_cache] of the same key returns the
    first [CART_FRAME_SIZE] bytes of the buffer that was put. *)
Theorem put_then_get s cart frm buf s' :
  cache_reachable CART_FRAME_SIZE s ->
  put_cart_cache CART_FRAME_SIZE cart frm buf s = Some (s', 0) ->
  exists s'',
    get_cart_cache cart frm s'
    = Some (s'', Some (take (Z.to_nat CART_FRAME_SIZE) buf)).
Proof.
  intros Hreach Hput.
  pose proof (reachable_inv _ _ Hreach) as Hinv.
  pose proof (reachable_inv _ _ (reach_put _ _ _ _ _ _ _ Hreach Hput)) as Hinv'.
  destruct (put_inversion s cart frm buf s' 0 Hinv Hput)
    as [(_ & _ & ?) | (HM & _ & Hb)]; [lia |].
  assert (Hholds : key_holds s' cart frm (take (Z.to_nat CART_FRAME_SIZE) buf)).
  { destruct (put_effect CART_FRAME_SIZE s cart frm buf _ Hinv HM Hb)
      as [(k & e & s1 & _ & _ & Heq & _ & _ & Hafter)
         | (_ & _ & s1 & Heq & _ & _ & Hafter)];
      rewrite Heq in Hput; injection Hput as <-;
      eexists _, _; (split; [apply Hafter; left; eauto | cbn; auto]). }
  destruct (get_after_put s' cart frm _ Hinv' Hholds) as (s'' & Hget & _).
  eauto.
Qed.

(** X7. [put_cart_cache] of one key leaves the other keys alone: the cache
    holds no frame under another key that it did not hold before, and a frame
    it held under another key is still there, unless the cache was full, did
    not have the key that was put, and that other key had the highest
    priority, [myMaxFrames]. *)
Theorem put_cart_cache_other_keys s cart frm buf s' r c f b :
  cache_reachable CART_FRAME_SIZE s ->
  put_cart_cache CART_FRAME_SIZE cart frm buf s = Some (s', r) ->
  ~ (c = cart /\ f = frm) ->
  (key_holds s' c f b -> key_holds s c f b)
  /\ (key_holds s c f b ->
      key_holds s' c f b
      \/ (numberOfUnoccupiedFrames s = 0
          /\ (forall b0, ~ key_holds s cart frm b0)
          /\ key_has_priority s c f (myMaxFrames s))).
Proof.
  intros Hinv%reachable_inv Hput Hother.
  destruct (put_inversion s cart frm buf s' r Hinv Hput)
    as [(_ & -> & _) | (HM & -> & Hb)]; [tauto |].
  destruct (put_effect CART_FRAME_SIZE s cart frm buf _ Hinv HM Hb)
    as [(k & e & s1 & Hin & Hwhich & Heq & _ & _ & Hafter)
       | (Hfresh & HU & s1 & Heq & _ & _ & Hafter)];
    rewrite Heq in Hput; injection Hput as <-.
  - split.
    + intros (j & e' & Hin' & Hc' & Hf' & Hb').
      apply Hafter in Hin' as [[-> ->] | (Hne & e0 & Hin0 & ->)].
      * cbn in *. exfalso. apply Hother. split; congruence.
      * exists j, e0. auto.
    + intros (j & e0 & Hin0 & Hc0 & Hf0 & Hb0).
      destruct (Z.eq_dec j k) as [-> | Hne].
      * rewrite (in_use_unique s k e0 e Hin0 Hin) in *.
        destruct Hwhich as [[? ?] | (Hfresh & HU & Hpe)]; [exfalso; apply Hother; split; congruence |].
        right. split; [exact HU |]. split.
        -- intros b0 (i & e1 & Hin1 & ? & ? & _). apply (Hfresh i e1 Hin1). auto.
        -- rewrite <- Hc0, <- Hf0, <- Hpe. now apply (key_has_priority_intro s k).
      * left. eexists j, _. split; [apply Hafter; right; eauto | auto].
  - split.
    + intros (j & e' & Hin' & Hc' & Hf' & Hb').
      apply Hafter in Hin' as [[-> ->] | Hin0].
      * cbn in *. exfalso. apply Hother. split; congruence.
      * exists j, e'. auto.
    + intros (j & e0 & Hin0 & Hrest). left. exists j, e0.
      split; [apply Hafter; right; exact Hin0 | exact Hrest].
Qed.

(** X8. When the cache is full and does not have the key, [put_cart_cache]
    evicts the key of priority [myMaxFrames]: the cache holds no frame under
    that key afterwards. *)
Theorem put_cart_cache_evicts_highest_priority s cart frm buf s' c f :
  cache_reachable CART_FRAME_SIZE s ->
  put_cart_cache CART_FRAME_SIZE cart frm buf s = Some (s', 0) ->
  numberOfUnoccupiedFrames s = 0 ->
  (forall b, ~ key_holds s cart frm b) ->
  key_has_priority s c f (myMaxFrames s) ->
  forall b, ~ key_holds s' c f b.
Proof.
  intros Hinv%reachable_inv Hput HU Habsent [(i & ei & Hini & Hci & Hfi) Hprio] b.
  destruct (put_inversion s cart frm buf s' 0 Hinv Hput)
    as [(_ & _ & ?) | (HM & _ & Hb)]; [lia |].
  assert (Hother : ~ (c = cart /\ f = frm)).
  { intros [-> ->]. apply (Habsent (cache ei)). exists i, ei. auto. }
  destruct (put_effect CART_FRAME_SIZE s cart frm buf _ Hinv HM Hb)
    as [(k & e & s1 & Hin & Hwhich & Heq & _ & _ & Hafter)
       | (_ & ? & _)]; [| lia].
  rewrite Heq in Hput; injection Hput as <-.
  destruct Hwhich as [[Hc Hf] | (_ & _ & Hpe)].
  { destruct (Habsent (cache e)). exists k, e. auto. }
  assert (i = k) as ->.
  { apply (inv_priority s Hinv i k ei e Hini Hin).
    rewrite Hpe. now apply (Hprio i). }
  intros (j & e' & Hin' & Hc' & Hf' & _).
  apply Hafter in Hin' as [[-> ->] | (Hne & e0 & Hin0 & ->)].
  - cbn in *. apply Hother. split; congruence.
  - apply Hne. apply (inv_key s Hinv j k e0 ei Hin0 Hini); cbn in *; congruence.
Qed.

Lemma key_has_priority_unique s c f p q :
  key_has_priority s c f p -> key_has_priority s c f q -> p = q.
Proof.
  intros [(i & e & Hin & Hc & Hf) Hp] [_ Hq].
  rewrite <- (Hp i e Hin Hc Hf). now apply (Hq i e).
Qed.

(** The priorities of two keys after an entry [k] was touched and given
    another key's frame: both moved up, or not, without passing each other. *)
Lemma order_after_touch s s' k e E c1 f1 c2 f2 p1 p2 q1 q2 :
  cache_inv s -> in_use s k e ->
  (forall j e',
     in_use s' j e'
     <-> (j = k /\ e' = E)
         \/ (j <> k /\ exists e0, in_use s j e0
               /\ e' = with_priority
                         (if priority e0 <? priority e then priority e0 + 1
                          else priority e0) e0)) ->
  ~ (c1 = cartridge E /\ f1 = frame E) -> ~ (c2 = cartridge E /\ f2 = frame E) ->
  key_has_priority s c1 f1 p1 -> key_has_priority s c2 f2 p2 ->
  key_has_priority s' c1 f1 q1 -> key_has_priority s' c2 f2 q2 ->
  p1 < p2 -> q1 < q2.
Proof.
  intros Hinv Hin Hafter Hne1 Hne2 [_ Hp1] [_ Hp2]
    [(j1 & e1 & Hin1 & Hc1 & Hf1) Hq1] [(j2 & e2 & Hin2 & Hc2 & Hf2) Hq2] Hlt.
  rewrite <- (Hq1 j1 e1 Hin1 Hc1 Hf1), <- (Hq2 j2 e2 Hin2 Hc2 Hf2).
  apply Hafter in Hin1 as [[-> ->] | (Hk1 & a1 & Ha1 & ->)];
    [exfalso; apply Hne1; split; congruence |].
  apply Hafter in Hin2 as [[-> ->] | (Hk2 & a2 & Ha2 & ->)];
    [exfalso; apply Hne2; split; congruence |].
  cbn in *.
  rewrite (Hp1 j1 a1 Ha1 Hc1 Hf1), (Hp2 j2 a2 Ha2 Hc2 Hf2).
  assert (p2 <> priority e).
  { intros Heq. apply Hk2. apply (inv_priority s Hinv j2 k a2 e Ha2 Hin).
    rewrite (Hp2 j2 a2 Ha2 Hc2 Hf2). exact Heq. }
  cases_on_comparisons; lia.
Qed.

(** X9. Touching a key keeps the order of the others: if one key had a lower
    priority than another before [put_cart_cache] or [get_cart_cache] of a
    third key, and both are still in the cache, it has a lower priority
    afterwards. *)
Theorem touching_keeps_the_order_of_other_keys
    s s' cart frm c1 f1 c2 f2 p1 p2 q1 q2 :
  cache_reachable CART_FRAME_SIZE s ->
  (exists buf r, put_cart_cache CART_FRAME_SIZE cart frm buf s = Some (s', r))
  \/ (exists r, get_cart_cache cart frm s = Some (s', r)) ->
  ~ (c1 = cart /\ f1 = frm) -> ~ (c2 = cart /\ f2 = frm) ->
  key_has_priority s c1 f1 p1 -> key_has_priority s c2 f2 p2 ->
  key_has_priority s' c1 f1 q1 -> key_has_priority s' c2 f2 q2 ->
  p1 < p2 -> q1 < q2.
Proof.
  intros Hinv%reachable_inv Hrun Hne1 Hne2 H1 H2 H1' H2' Hlt.
  assert (Hsame : s' = s -> q1 < q2).
  { intros ->. rewrite <- (key_has_priority_unique s c1 f1 p1 q1 H1 H1').
    now rewrite <- (key_has_priority_unique s c2 f2 p2 q2 H2 H2'). }
  destruct Hrun as [(buf & r & Hput) | (r & Hrun)].
  - destruct (put_inversion s cart frm buf s' r Hinv Hput)
      as [(_ & -> & _) | (HM & -> & Hb)]; [now apply Hsame |].
    destruct (put_effect CART_FRAME_SIZE s cart frm buf _ Hinv HM Hb)
      as [(k & e & s1 & Hin & _ & Heq & _ & _ & Hafter)
         | (_ & _ & s1 & Heq & _ & _ & Hafter)];
      rewrite Heq in Hput; injection Hput as <-.
    + exact (order_after_touch s s1 k e _ c1 f1 c2 f2 p1 p2 q1 q2
               Hinv Hin Hafter Hne1 Hne2 H1 H2 H1' H2' Hlt).
    + destruct H1 as [_ Hp1], H2 as [_ Hp2].
      destruct H1' as [(j1 & e1 & Hin1 & Hc1 & Hf1) Hq1].
      destruct H2' as [(j2 & e2 & Hin2 & Hc2 & Hf2) Hq2].
      rewrite <- (Hq1 j1 e1 Hin1 Hc1 Hf1), <- (Hq2 j2 e2 Hin2 Hc2 Hf2).
      apply Hafter in Hin1 as [[-> ->] | Hin1];
        [exfalso; apply Hne1; split; cbn in *; congruence |].
      apply Hafter in Hin2 as [[-> ->] | Hin2];
        [exfalso; apply Hne2; split; cbn in *; congruence |].
      rewrite (Hp1 j1 e1 Hin1 Hc1 Hf1), (Hp2 j2 e2 Hin2 Hc2 Hf2). exact Hlt.
  - destruct (get_effect s cart frm Hinv)
      as [(k & e & s1 & Hin & Hc & Hf & Hget & _ & _ & Hafter) | [Hget _]];
      rewrite Hget in Hrun; injection Hrun as <- <-; [| now apply Hsame].
    apply (order_after_touch s s1 k e _ c1 f1 c2 f2 p1 p2 q1 q2
             Hinv Hin Hafter); cbn; try assumption; congruence.
Qed.

(** X10. [put_cart_cache] never frees a place and never changes the size of
    the cache: it takes one more place when the key is new and a place is
    free, and none otherwise. *)
Theorem put_cart_cache_occupancy s cart frm buf s' :
  cache_reachable CART_FRAME_SIZE s ->
  put_cart_cache CART_FRAME_SIZE cart frm buf s = Some (s', 0) ->
  myMaxFrames s' = myMaxFrames s
  /\ (((exists b, key_holds s cart frm b) \/ numberOfUnoccupiedFrames s = 0)
      /\ occupied_count s' = occupied_count s
      \/ (forall b, ~ key_holds s cart frm b)
         /\ 0 < numberOfUnoccupiedFrames s
         /\ occupied_count s' = occupied_count s + 1).
Proof.
  intros Hinv%reachable_inv Hput.
  destruct (put_inversion s cart frm buf s' 0 Hinv Hput)
    as [(_ & _ & ?) | (HM & _ & Hb)]; [lia |].
  unfold occupied_count.
  destruct (put_effect CART_FRAME_SIZE s cart frm buf _ Hinv HM Hb)
    as [(k & e & s1 & Hin & Hwhich & Heq & HM' & HU' & _)
       | (Hfresh & HU & s1 & Heq & HM' & HU' & _)];
    rewrite Heq in Hput; injection Hput as <-; (split; [exact HM' |]).
  - left. split; [| lia].
    destruct Hwhich as [[Hc Hf] | (_ & HU & _)]; [left | now right].
    exists (cache e), k, e. auto.
  - right. split; [| lia].
    intros b (i & e & Hin & Hc & Hf & _). apply (Hfresh i e Hin). auto.
Qed.

(** X11. No key is in the cache twice: in every state the cache reaches,
    the pairs of cartridge and frame of the entries in use are pairwise
    different. *)
Theorem cache_keys_are_unique s :
  cache_reachable CART_FRAME_SIZE s ->
  NoDup ((fun e => (cartridge e, frame e)) <$> occupied s).
Proof.
  intros Hinv%reachable_inv. destruct Hinv as [Hb Hl Hr Hp Hk].
  apply NoDup_alt. intros k1 k2 p H1 H2.
  rewrite list_lookup_fmap in H1, H2.
  apply fmap_Some in H1 as (e1 & H1 & ->). apply fmap_Some in H2 as (e2 & H2 & Heq).
  apply occupied_lookup in H1; [| lia]. apply occupied_lookup in H2; [| lia].
  injection Heq as Hc Hf.
  pose proof (Hk _ _ _ _ H1 H2 Hf Hc). lia.
Qed.

End CacheBehaviour.

(** *** The examples *)

Lemma full_cache_put :
  put_cart_cache 1024 0 1 Demo.payload Demo.one_frame_cache
  = Some (DemoCache.full_cache, 0).
Proof. vm_compute. reflexivity. Defined.

Lemma full_cache_reachable : cache_reachable 1024 DemoCache.full_cache.
Proof.
  exact (reach_put 1024 _ _ _ _ _ _ one_frame_cache_reachable full_cache_put).
Defined.

Lemma three_keys_reachable : cache_reachable 1024 DemoCache.three_keys.
Proof.
  assert (H0 : cache_reachable 1024 DemoCache.three_places)
    by (apply reach_init; [lia | reflexivity]).
  refine (reach_put 1024 _ 0 2 Demo.payload _ 0
            (reach_put 1024 _ 0 1 Demo.payload _ 0
               (reach_put 1024 _ 0 0 Demo.payload _ 0 H0 _) _) _);
    vm_compute; reflexivity.
Defined.

Lemma three_keys_get :
  get_cart_cache 0 0 DemoCache.three_keys
  = Some (DemoCache.three_keys_touched, Some Demo.payload).
Proof. vm_compute. reflexivity. Defined.

Lemma three_keys_touched_reachable :
  cache_reachable 1024 DemoCache.three_keys_touched.
Proof.
  exact (reach_get 1024 _ _ _ _ _ three_keys_reachable three_keys_get).
Defined.

(** In a reachable state, the entry in use at place [i] gives its key its
    priority. *)
Lemma key_has_priority_at s i e :
  cache_reachable 1024 s ->
  numberOfUnoccupiedFrames s <= i -> cache_entry (myCache s) i = Some e ->
  key_has_priority s (cartridge e) (frame e) (priority e).
Proof.
  intros Hreach Hi He.
  exact (key_has_priority_intro s i e (reachable_inv 1024 s Hreach) (conj Hi He)).
Defined.

(** No entry of a block of two has a key that neither of them has. *)
Lemma key_not_in_two e0 e1 M U cart frm :
  ~ (cartridge e0 = cart /\ frame e0 = frm) ->
  ~ (cartridge e1 = cart /\ frame e1 = frm) ->
  forall b, ~ key_holds (mkCache [e0; e1] M U) cart frm b.
Proof.
  intros H0 H1 b (i & e & [_ He] & Hc & Hf & _).
  apply cache_entry_Some in He. cbn in He.
  destruct He as (_ & He).
  destruct (Z.to_nat i) as [| [| n]]; cbn in He; [| | discriminate];
    injection He as <-; tauto.
Defined.

Lemma get_cart_cache_finds_the_key_witness :
  cache_reachable 1024 Demo.one_frame_cache
  /\ exists s' r,
       get_cart_cache 0 0 Demo.one_frame_cache = Some (s', r)
       /\ (forall b, r = Some b <-> key_holds Demo.one_frame_cache 0 0 b)
       /\ (r = None -> s' = Demo.one_frame_cache).
Proof.
  split; [exact one_frame_cache_reachable |].
  exact (get_cart_cache_finds_the_key 1024 _ 0 0 one_frame_cache_reachable).
Defined.

Lemma get_cart_cache_keeps_contents_witness :
  (cache_reachable 1024 DemoCache.three_keys
   /\ get_cart_cache 0 0 DemoCache.three_keys
      = Some (DemoCache.three_keys_touched, Some Demo.payload))
  /\ myMaxFrames DemoCache.three_keys_touched = myMaxFrames DemoCache.three_keys
  /\ numberOfUnoccupiedFrames DemoCache.three_keys_touched
     = numberOfUnoccupiedFrames DemoCache.three_keys
  /\ forall c f b, key_holds DemoCache.three_keys_touched c f b
                   <-> key_holds DemoCache.three_keys c f b.
Proof.
  split; [exact (conj three_keys_reachable three_keys_get) |].
  exact (get_cart_cache_keeps_contents 1024 _ 0 0 _ _
           three_keys_reachable three_keys_get).
Defined.

Lemma put_then_get_witness :
  (cache_reachable 1024 Demo.empty_cache
   /\ put_cart_cache 1024 0 0 Demo.payload Demo.empty_cache
      = Some (Demo.one_frame_cache, 0))
  /\ exists s'',
       get_cart_cache 0 0 Demo.one_frame_cache
       = Some (s'', Some (take (Z.to_nat 1024) Demo.payload)).
Proof.
  split; [exact (conj empty_cache_reachable one_frame_cache_put) |].
  exact (put_then_get 1024 _ 0 0 _ _ empty_cache_reachable one_frame_cache_put).
Defined.

Lemma put_cart_cache_other_keys_witness :
  (cache_reachable 1024 Demo.one_frame_cache
   /\ put_cart_cache 1024 0 1 Demo.payload Demo.one_frame_cache
      = Some (DemoCache.full_cache, 0)
   /\ ~ (0 = 0 /\ 0 = 1))
  /\ (key_holds DemoCache.full_cache 0 0 Demo.payload
      -> key_holds Demo.one_frame_cache 0 0 Demo.payload)
  /\ (key_holds Demo.one_frame_cache 0 0 Demo.payload ->
      key_holds DemoCache.full_cache 0 0 Demo.payload
      \/ (numberOfUnoccupiedFrames Demo.one_frame_cache = 0
          /\ (forall b0, ~ key_holds Demo.one_frame_cache 0 1 b0)
          /\ key_has_priority Demo.one_frame_cache 0 0
               (myMaxFrames Demo.one_frame_cache))).
Proof.
  assert (Hne : ~ (0 = 0 /\ 0 = 1)) by lia.
  split; [exact (conj one_frame_cache_reachable (conj full_cache_put Hne)) |].
  exact (put_cart_cache_other_keys 1024 _ 0 1 _ _ 0 0 0 Demo.payload
           one_frame_cache_reachable full_cache_put Hne).
Defined.

Lemma full_cache_evicts :
  put_cart_cache 1024 0 2 Demo.payload DemoCache.full_cache
  = Some (mkCache [mkCachedFrame 1 0 Demo.payload 2;
                   mkCachedFrame 2 0 Demo.payload 1] 2 0, 0).
Proof. vm_compute. reflexivity. Defined.

Lemma put_cart_cache_evicts_highest_priority_witness :
  (cache_reachable 1024 DemoCache.full_cache
   /\ put_cart_cache 1024 0 2 Demo.payload DemoCache.full_cache
      = Some (mkCache [mkCachedFrame 1 0 Demo.payload 2;
                       mkCachedFrame 2 0 Demo.payload 1] 2 0, 0)
   /\ numberOfUnoccupiedFrames DemoCache.full_cache = 0
   /\ (forall b, ~ key_holds DemoCache.full_cache 0 2 b)
   /\ key_has_priority DemoCache.full_cache 0 0 (myMaxFrames DemoCache.full_cache))
  /\ forall b,
       ~ key_holds (mkCache [mkCachedFrame 1 0 Demo.payload 2;
                             mkCachedFrame 2 0 Demo.payload 1] 2 0) 0 0 b.
Proof.
  assert (HU : numberOfUnoccupiedFrames DemoCache.full_cache = 0) by reflexivity.
  assert (Habsent : forall b, ~ key_holds DemoCache.full_cache 0 2 b).
  { apply key_not_in_two; cbn; lia. }
  assert (Hprio : key_has_priority DemoCache.full_cache 0 0
                    (myMaxFrames DemoCache.full_cache)).
  { apply (key_has_priority_at DemoCache.full_cache 1
             (mkCachedFrame 0 0 Demo.payload 2) full_cache_reachable);
      [cbn; lia | reflexivity]. }
  split; [exact (conj full_cache_reachable
                   (conj full_cache_evicts (conj HU (conj Habsent Hprio)))) |].
  exact (put_cart_cache_evicts_highest_priority 1024 _ 0 2 _ _ 0 0
           full_cache_reachable full_cache_evicts HU Habsent Hprio).
Defined.

Lemma touching_keeps_the_order_of_other_keys_witness :
  (cache_reachable 1024 DemoCache.three_keys
   /\ ((exists buf r, put_cart_cache 1024 0 0 buf DemoCache.three_keys
                      = Some (DemoCache.three_keys_touched, r))
       \/ (exists r, get_cart_cache 0 0 DemoCache.three_keys
                     = Some (DemoCache.three_keys_touched, r)))
   /\ ~ (0 = 0 /\ 2 = 0) /\ ~ (0 = 0 /\ 1 = 0)
   /\ key_has_priority DemoCache.three_keys 0 2 1
   /\ key_has_priority DemoCache.three_keys 0 1 2
   /\ key_has_priority DemoCache.three_keys_touched 0 2 2
   /\ key_has_priority DemoCache.three_keys_touched 0 1 3
   /\ 1 < 2)
  /\ 2 < 3.
Proof.
  assert (Hrun : (exists buf r, put_cart_cache 1024 0 0 buf DemoCache.three_keys
                                = Some (DemoCache.three_keys_touched, r))
                 \/ (exists r, get_cart_cache 0 0 DemoCache.three_keys
                               = Some (DemoCache.three_keys_touched, r)))
    by (right; exists (Some Demo.payload); exact three_keys_get).
  assert (Hne1 : ~ (0 = 0 /\ 2 = 0)) by lia.
  assert (Hne2 : ~ (0 = 0 /\ 1 = 0)) by lia.
  assert (H1 : key_has_priority DemoCache.three_keys 0 2 1).
  { apply (key_has_priority_at DemoCache.three_keys 0
             (mkCachedFrame 2 0 Demo.payload 1) three_keys_reachable);
      [cbn; lia | reflexivity]. }
  assert (H2 : key_has_priority DemoCache.three_keys 0 1 2).
  { apply (key_has_priority_at DemoCache.three_keys 1
             (mkCachedFrame 1 0 Demo.payload 2) three_keys_reachable);
      [cbn; lia | reflexivity]. }
  assert (H1' : key_has_priority DemoCache.three_keys_touched 0 2 2).
  { apply (key_has_priority_at DemoCache.three_keys_touched 0
             (mkCachedFrame 2 0 Demo.payload 2) three_keys_touched_reachable);
      [cbn; lia | reflexivity]. }
  assert (H2' : key_has_priority DemoCache.three_keys_touched 0 1 3).
  { apply (key_has_priority_at DemoCache.three_keys_touched 1
             (mkCachedFrame 1 0 Demo.payload 3) three_keys_touched_reachable);
      [cbn; lia | reflexivity]. }
  assert (Hlt : 1 < 2) by lia.
  split.
  - exact (conj three_keys_reachable (conj Hrun (conj Hne1 (conj Hne2
             (conj H1 (conj H2 (conj H1' (conj H2' Hlt)))))))).
  - exact (touching_keeps_the_order_of_other_keys 1024 _ _ 0 0 0 2 0 1 1 2 2 3
             three_keys_reachable Hrun Hne1 Hne2 H1 H2 H1' H2' Hlt).
Defined.

Lemma put_cart_cache_occupancy_witness :
  (cache_reachable 1024 Demo.empty_cache
   /\ put_cart_cache 1024 0 0 Demo.payload Demo.empty_cache
      = Some (Demo.one_frame_cache, 0))
  /\ myMaxFrames Demo.one_frame_cache = myMaxFrames Demo.empty_cache
  /\ (((exists b, key_holds Demo.empty_cache 0 0 b)
       \/ numberOfUnoccupiedFrames Demo.empty_cache = 0)
      /\ occupied_count Demo.one_frame_cache = occupied_count Demo.empty_cache
      \/ (forall b, ~ key_holds Demo.empty_cache 0 0 b)
         /\ 0 < numberOfUnoccupiedFrames Demo.empty_cache
         /\ occupied_count Demo.one_frame_cache
            = occupied_count Demo.empty_cache + 1).
Proof.
  split; [exact (conj empty_cache_reachable one_frame_cache_put) |].
  exact (put_cart_cache_occupancy 1024 _ 0 0 _ _
           empty_cache_reachable one_frame_cache_put).
Defined.

Lemma cache_keys_are_unique_witness :
  cache_reachable 1024 DemoCache.three_keys
  /\ NoDup ((fun e => (cartridge e, frame e)) <$> occupied DemoCache.three_keys).
Proof.
  split; [exact three_keys_reachable |].
  exact (cache_keys_are_unique 1024 _ three_keys_reachable).
Defined.

(** ** More on the file layer *)

(** *** Handles that no open file has *)

Lemma find_handle_none {Dev} (d : driver Dev) fs fd :
  filesystem d = Block fs ->
  (forall f, f ∈ fs -> fileHandle f <> fd) ->
  forall (n k : nat), (k + n <= length fs)%nat ->
  find_handle n (Z.of_nat k) fd d = Returns (-1) d.
Proof.
  intros Hfs Hnone n. induction n as [| n IH]; intros k Hk; [reflexivity |].
  cbn [find_handle]. unfold bind, file_at. rewrite Hfs.
  destruct (Z.ltb_spec (Z.of_nat k) 0); [lia |]. rewrite Nat2Z.id.
  destruct (lookup_lt_is_Some_2 fs k ltac:(lia)) as [y Hy]. rewrite Hy.
  destruct (Z.eqb_spec (fileHandle y) fd) as [Heq | _].
  - exfalso. apply (Hnone y); [| exact Heq]. eapply list_elem_of_lookup_2, Hy.
  - replace (Z.of_nat k + 1) with (Z.of_nat (S k)) by lia. apply IH. lia.
Qed.

(** The scan for a handle that no open file has finds nothing, or a file
    that is closed. *)
Lemma handle_not_open {Dev} (d : driver Dev) fs fd :
  filesystem d = Block fs ->
  Z.of_nat (length fs) = fileSystemSize d + 1 ->
  (forall f, f ∈ fs -> fileHandle f = fd -> fd = 0) ->
  fileSystemIndex_of fd d = Returns (-1) d
  \/ exists (i : nat) f,
       fileSystemIndex_of fd d = Returns (Z.of_nat i) d
       /\ file_at (Z.of_nat i) d = Returns f d
       /\ fileHandle f = 0.
Proof.
  intros Hfs Hsize Hnone.
  destruct (file_of_handle fs fd) as [[i f] |] eqn:Hfind.
  - right. exists i, f.
    split; [exact (fileSystemIndex_of_handle d fs fd i f Hfs Hsize Hfind) |].
    apply list_find_Some in Hfind as (Hi & Hh & _).
    split; [exact (file_at_table d fs i f Hfs Hi) |].
    rewrite Hh. apply (Hnone f); [| exact Hh]. eapply list_elem_of_lookup_2, Hi.
  - left. unfold fileSystemIndex_of, bind, get. change 0 with (Z.of_nat 0).
    apply (find_handle_none d fs fd Hfs); [| lia].
    intros f Hin Hh. apply list_find_None in Hfind.
    rewrite Forall_forall in Hfind. exact (Hfind f Hin Hh).
Qed.

(** *** Comparing a path with a stored name *)

Lemma list_byte_of_string_app (s1 s2 : string) :
  list_byte_of_string (s1 ++ s2)
  = list_byte_of_string s1 ++ list_byte_of_string s2.
Proof.
  induction s1 as [| a s1 IH]; [reflexivity |].
  cbn. f_equal. exact IH.
Qed.

Lemma list_byte_of_string_inj (s1 s2 : string) :
  list_byte_of_string s1 = list_byte_of_string s2 -> s1 = s2.
Proof.
  intros H. rewrite <- (string_of_list_byte_of_string s1),
    <- (string_of_list_byte_of_string s2). now rewrite H.
Qed.

Lemma byte_eqb_refl (a : byte) : Byte.eqb a a = true.
Proof. now apply Byte.byte_dec_lb. Qed.

Lemma byte_eqb_x00 (a : byte) : a <> x00 -> Byte.eqb a x00 = false.
Proof.
  intros Ha. destruct (Byte.eqb a x00) eqn:E; [| reflexivity].
  apply Byte.byte_dec_bl in E. contradiction.
Qed.

(** A name compares equal with itself when a null byte follows it. *)
Lemma strcmp_bytes_same (l rest : list byte) :
  strcmp_bytes (l ++ [x00]) (l ++ x00 :: rest) = Some true.
Proof.
  induction l as [| a l IH]; [reflexivity |].
  cbn [strcmp_bytes app]. rewrite byte_eqb_refl.
  destruct (Byte.eqb a x00); [reflexivity | exact IH].
Qed.

(** The comparison ends within the two strings when both are terminated. *)
Lemma strcmp_bytes_total (p s rest : list byte) :
  exists b, strcmp_bytes (p ++ [x00]) (s ++ x00 :: rest) = Some b.
Proof.
  revert s. induction p as [| a p IH]; intros [| b s]; cbn [strcmp_bytes app].
  - now exists true.
  - destruct (Byte.eqb x00 b); [now exists true | now exists false].
  - destruct (Byte.eqb a x00); [now exists true | now exists false].
  - destruct (Byte.eqb a b); [| now exists false].
    destruct (Byte.eqb a x00); [now exists true | apply IH].
Qed.

Lemma strcmp_bytes_differ (p s rest : list byte) :
  x00 ∉ p -> x00 ∉ s -> p <> s ->
  strcmp_bytes (p ++ [x00]) (s ++ x00 :: rest) = Some false.
Proof.
  revert s. induction p as [| a p IH]; intros [| b s] Hp Hs Hne;
    cbn [strcmp_bytes app].
  - contradiction.
  - apply not_elem_of_cons in Hs as [Hb _].
    destruct (Byte.eqb x00 b) eqn:E; [| reflexivity].
    apply Byte.byte_dec_bl in E. congruence.
  - apply not_elem_of_cons in Hp as [Ha _].
    now rewrite byte_eqb_x00 by congruence.
  - apply not_elem_of_cons in Hp as [Ha Hp].
    apply not_elem_of_cons in Hs as [_ Hs].
    destruct (Byte.eqb a b) eqn:E; [| reflexivity].
    apply Byte.byte_dec_bl in E. subst b.
    rewrite byte_eqb_x00 by congruence.
    apply IH; [assumption | assumption | congruence].
Qed.

(** A stored name that the path does not start with differs from the path
    within its own block. *)
Lemma strcmp_bytes_not_prefix (p s after : list byte) :
  x00 ∉ s -> (forall more, p <> s ++ more) ->
  strcmp_bytes (p ++ [x00]) (s ++ after) = Some false.
Proof.
  revert p. induction s as [| b s IH]; intros p Hs Hne.
  - destruct (Hne p). reflexivity.
  - apply not_elem_of_cons in Hs as [Hb Hs]. destruct p as [| a p];
      cbn [strcmp_bytes app].
    + destruct (Byte.eqb x00 b) eqn:E; [| reflexivity].
      apply Byte.byte_dec_bl in E. congruence.
    + destruct (Byte.eqb a b) eqn:E; [| reflexivity].
      apply Byte.byte_dec_bl in E. subst b.
      rewrite byte_eqb_x00 by congruence.
      apply IH; [assumption |]. intros more ->. now apply (Hne more).
Qed.

(** A stored name that the path starts with is read to its end, and then
    the byte after it. *)
Lemma strcmp_bytes_past (s more : list byte) :
  x00 ∉ s -> strcmp_bytes ((s ++ more) ++ [x00]) (s ++ []) = None.
Proof.
  induction s as [| b s IH]; intros Hs.
  - cbn [app]. now destruct (more ++ [x00]).
  - apply not_elem_of_cons in Hs as [Hb Hs]. cbn [strcmp_bytes app].
    rewrite byte_eqb_refl, byte_eqb_x00 by congruence. now apply IH.
Qed.

(** A name followed by a byte that is not null compares different from
    itself. *)
Lemma strcmp_bytes_missed (l rest : list byte) (b : byte) :
  x00 ∉ l -> b <> x00 ->
  strcmp_bytes (l ++ [x00]) (l ++ b :: rest) = Some false.
Proof.
  intros Hl Hb. induction l as [| a l IH]; cbn [strcmp_bytes app].
  - destruct (Byte.eqb x00 b) eqn:E; [| reflexivity].
    apply Byte.byte_dec_bl in E. congruence.
  - apply not_elem_of_cons in Hl as [Ha Hl].
    rewrite byte_eqb_refl, byte_eqb_x00 by congruence. now apply IH.
Qed.

Lemma strcmp_same (p : string) (rest : list byte) :
  strcmp p p (x00 :: rest) = Some true.
Proof. apply strcmp_bytes_same. Qed.

Lemma strcmp_total (p s : string) (rest : list byte) :
  exists b, strcmp p s (x00 :: rest) = Some b.
Proof. apply strcmp_bytes_total. Qed.

(** With a null byte after the stored name, [strcmp] tells whether two C
    strings are equal. *)
Lemma strcmp_terminated (p s : string) (rest : list byte) :
  c_string p -> c_string s ->
  strcmp p s (x00 :: rest) = Some (String.eqb p s).
Proof.
  intros Hp Hs. destruct (String.eqb_spec p s) as [-> | Hne].
  - apply strcmp_same.
  - apply strcmp_bytes_differ; [exact Hp | exact Hs |].
    intros H. now apply Hne, list_byte_of_string_inj.
Qed.

Lemma strcmp_not_prefix (p s : string) (after : list byte) :
  c_string s -> (forall more, p <> (s ++ more)%string) ->
  strcmp p s after = Some false.
Proof.
  intros Hs Hne. apply strcmp_bytes_not_prefix; [exact Hs |].
  intros more H. apply (Hne (string_of_list_byte more)).
  apply list_byte_of_string_inj.
  now rewrite list_byte_of_string_app, list_byte_of_string_of_list_byte.
Qed.

Lemma strcmp_past (s more : string) :
  c_string s -> strcmp (s ++ more) s [] = None.
Proof.
  intros Hs. unfold strcmp. rewrite list_byte_of_string_app.
  now apply strcmp_bytes_past.
Qed.

Section FileCalls.

Context {Dev : Type}.
Variable client_cart_bus_request : Z -> list byte -> Dev -> Z * list byte * Dev.
Variables CART_FRAME_SIZE indeterminate : Z.
Variable indeterminate_byte : byte.
Variable after_name : Z -> list byte.

Lemma not_open_refused (d : driver Dev) fs fd loc buf count :
  filesystem d = Block fs ->
  Z.of_nat (length fs) = fileSystemSize d + 1 ->
  (forall f, f ∈ fs -> fileHandle f = fd -> fd = 0) ->
  cart_close fd d = Returns (-1) d
  /\ cart_seek fd loc d = Returns (-1) d
  /\ cart_read CART_FRAME_SIZE Dev client_cart_bus_request indeterminate_byte
       fd count d = Returns (-1, []) d
  /\ cart_write CART_FRAME_SIZE Dev client_cart_bus_request indeterminate
       indeterminate_byte fd buf count d = Returns (-1) d.
Proof.
  intros Hfs Hsize Hnone.
  unfold cart_close, cart_seek, cart_read, cart_write.
  destruct (handle_not_open d fs fd Hfs Hsize Hnone)
    as [Hidx | (i & f & Hidx & Hat & Hh)].
  - rewrite !(bind_Returns _ _ _ _ _ Hidx). cbn. auto.
  - rewrite !(bind_Returns _ _ _ _ _ Hidx).
    destruct (Z.eqb_spec (Z.of_nat i) (-1)); [lia |].
    rewrite !(bind_Returns _ _ _ _ _ Hat), Hh. cbn. auto.
Qed.

(** X12. A handle that no open file has is refused by every call that takes
    one: when [fd] is an [int16_t], as the parameter of the four calls is, and
    no file of the table has handle [fd], or [fd] is 0, then [cart_close],
    [cart_seek], [cart_read] and [cart_write] return -1 and change nothing,
    whatever their other arguments. *)
Theorem unknown_handle_is_refused (d : driver Dev) fs fd loc buf count :
  - 2 ^ 15 <= fd < 2 ^ 15 ->
  filesystem d = Block fs ->
  Z.of_nat (length fs) = fileSystemSize d + 1 ->
  (forall f, f ∈ fs -> fileHandle f = fd -> fd = 0) ->
  cart_close fd d = Returns (-1) d
  /\ cart_seek fd loc d = Returns (-1) d
  /\ cart_read CART_FRAME_SIZE Dev client_cart_bus_request indeterminate_byte
       fd count d = Returns (-1, []) d
  /\ cart_write CART_FRAME_SIZE Dev client_cart_bus_request indeterminate
       indeterminate_byte fd buf count d = Returns (-1) d.
Proof. intros _. apply not_open_refused. Qed.

(** X13. Without a table of files the calls that take a handle do not
    return: with [fileSystemSize] at least 0, [cart_close], [cart_seek],
    [cart_read] and [cart_write] read [filesystem[0]] through the null pointer
    before the first [cart_open], and through the pointer that was freed after
    [cart_poweroff]; [cart_open] after [cart_poweroff] reads the freed table
    as well. *)
Theorem calls_without_table_go_wrong (d : driver Dev) flt path fd loc buf count :
  0 <= fileSystemSize d ->
  (filesystem d = NULL /\ flt = NullFilesystem)
  \/ (filesystem d = Freed /\ flt = FreedFilesystem) ->
  cart_close fd d = GoesWrong flt
  /\ cart_seek fd loc d = GoesWrong flt
  /\ cart_read CART_FRAME_SIZE Dev client_cart_bus_request indeterminate_byte
       fd count d = GoesWrong flt
  /\ cart_write CART_FRAME_SIZE Dev client_cart_bus_request indeterminate
       indeterminate_byte fd buf count d = GoesWrong flt
  /\ (filesystem d = Freed -> cart_open indeterminate after_name path d = GoesWrong flt).
Proof.
  intros Hsize Htable.
  assert (Hidx : fileSystemIndex_of fd d = GoesWrong flt).
  { unfold fileSystemIndex_of, bind, get.
    destruct (Z.to_nat (fileSystemSize d + 1)) as [| n] eqn:E; [lia |].
    cbn [find_handle]. unfold bind, file_at.
    destruct Htable as [[-> ->] | [-> ->]]; reflexivity. }
  unfold cart_close, cart_seek, cart_read, cart_write, bind. rewrite Hidx.
  repeat (split; [reflexivity |]).
  intros Hfreed. unfold cart_open, bind, get. rewrite Hfreed.
  destruct Htable as [[H _] | [_ ->]]; [congruence | reflexivity].
Qed.

(** [cart_close] of an open handle. *)
Lemma cart_close_open (d : driver Dev) fs fd (i : nat) f :
  filesystem d = Block fs ->
  Z.of_nat (length fs) = fileSystemSize d + 1 ->
  fd <> 0 ->
  file_of_handle fs fd = Some (i, f) ->
  cart_close fd d
  = Returns 0 (set_filesystem
                 (Block (<[i := with_filePointer 0 (with_fileHandle 0 f)]> fs)) d).
Proof.
  intros Hfs Hsize Hfd Hfind.
  pose proof (fileSystemIndex_of_handle d fs fd i f Hfs Hsize Hfind) as Hidx.
  apply list_find_Some in Hfind as (Hi & Hh & _).
  unfold cart_close. rewrite (bind_Returns _ _ _ _ _ Hidx).
  destruct (Z.eqb_spec (Z.of_nat i) (-1)); [lia |].
  rewrite (bind_Returns _ _ _ _ _ (file_at_table d fs i f Hfs Hi)).
  destruct (Z.eqb_spec (fileHandle f) 0); [lia |].
  rewrite (bind_Returns _ _ _ _ _
             (file_update_table d fs i f (with_fileHandle 0) Hfs Hi)).
  erewrite bind_Returns;
    [| apply (file_update_table _ (<[i := with_fileHandle 0 f]> fs) i
                (with_fileHandle 0 f)); [reflexivity |]].
  - rewrite list_insert_insert_eq. reflexivity.
  - apply list_lookup_insert_eq. now apply lookup_lt_Some in Hi.
Qed.

(** X14. [cart_close] of an open file returns 0; the file then has handle 0
    and its cursor is at 0, its name, length and frames are kept, and
    nothing else changes. *)
Theorem cart_close_closes_the_file (d : driver Dev) fs fd (i : nat) f :
  filesystem d = Block fs ->
  Z.of_nat (length fs) = fileSystemSize d + 1 ->
  fd <> 0 ->
  file_of_handle fs fd = Some (i, f) ->
  cart_close fd d
  = Returns 0
      (set_filesystem
         (Block (<[i := mkFile (fileName f) (file_length f) 0 (location f) 0]> fs))
         d).
Proof. apply cart_close_open. Qed.

(** X15. A handle is dead once its file is closed: when the files of the
    table have pairwise different handles, or handle 0, then after
    [cart_close fd] returned 0, [cart_close], [cart_seek], [cart_read] and
    [cart_write] on [fd] return -1 and change nothing. *)
Theorem closed_handle_is_refused (d : driver Dev) fs fd (i : nat) f loc buf count :
  filesystem d = Block fs ->
  Z.of_nat (length fs) = fileSystemSize d + 1 ->
  fd <> 0 ->
  file_of_handle fs fd = Some (i, f) ->
  (forall j g, fs !! j = Some g -> fileHandle g = fd -> j = i) ->
  exists d',
    cart_close fd d = Returns 0 d'
    /\ cart_close fd d' = Returns (-1) d'
    /\ cart_seek fd loc d' = Returns (-1) d'
    /\ cart_read CART_FRAME_SIZE Dev client_cart_bus_request indeterminate_byte
         fd count d' = Returns (-1, []) d'
    /\ cart_write CART_FRAME_SIZE Dev client_cart_bus_request indeterminate
         indeterminate_byte fd buf count d' = Returns (-1) d'.
Proof.
  intros Hfs Hsize Hfd Hfind Huniq.
  eexists. split; [exact (cart_close_open d fs fd i f Hfs Hsize Hfd Hfind) |].
  apply (not_open_refused _ (<[i := with_filePointer 0 (with_fileHandle 0 f)]> fs)).
  - reflexivity.
  - rewrite length_insert. exact Hsize.
  - intros g [j Hj]%list_elem_of_lookup Hg. exfalso.
    destruct (Nat.eq_dec j i) as [-> | Hne].
    + rewrite list_lookup_insert_eq in Hj
        by (apply list_find_Some in Hfind as (Hi & _); now apply lookup_lt_Some in Hi).
      injection Hj as <-. cbn in Hg. congruence.
    + rewrite list_lookup_insert_ne in Hj by congruence.
      exact (Hne (Huniq j g Hj Hg)).
Qed.


(** *** Opening files *)

Lemma least_free_handle_bound fs h :
  least_free_handle fs h -> h <= Z.of_nat (length fs) + 1.
Proof.
  intros (Hpos & _ & Hbelow).
  assert (Hsub : seqZ 1 (h - 1) ⊆+ fileHandle <$> fs).
  { apply NoDup_submseteq; [apply NoDup_seqZ |].
    intros k Hk%elem_of_seqZ. apply Hbelow. lia. }
  apply submseteq_length in Hsub.
  rewrite length_seqZ, length_fmap in Hsub. lia.
Qed.

(** The handle picked when the files [fs], the first ones of the table, are
    scanned. *)
Lemma pick_handle_least (d : driver Dev) fs' fs :
  filesystem d = Block fs' ->
  take (length fs) fs' = fs ->
  exists h,
    pick_handle (length fs) (length fs) 0 d = Returns h d
    /\ least_free_handle fs h.
Proof.
  intros Hfs Htake.
  assert (Hle : (length fs <= length fs')%nat).
  { rewrite <- Htake at 1. rewrite length_take. lia. }
  destruct (pick_handle_returns d fs' (length fs) Hfs Hle (length fs) 0)
    as (h & Hrun & Hpos & Hfree & Hbelow).
  - unfold handles_above. etransitivity; [apply length_filter |].
    rewrite length_fmap, length_take. lia.
  - rewrite Htake in Hfree, Hbelow. exists h. repeat split; assumption.
Qed.

(** The scan passes the files that compare different from [path]. *)
Lemma open_scan_skip (d : driver Dev) fs path (i : nat) :
  filesystem d = Block fs ->
  (i <= length fs)%nat ->
  (forall (j : nat) y, fs !! j = Some y -> (j < i)%nat ->
     strcmp path (fileName y) (after_name (Z.of_nat j)) = Some false) ->
  forall (n k : nat), (k <= i)%nat -> (i <= k + n)%nat ->
  open_scan Dev after_name n (Z.of_nat k) path d
  = open_scan Dev after_name (k + n - i) (Z.of_nat i) path d.
Proof.
  intros Hfs Hlen Hskip n.
  induction n as [| n IH]; intros k Hk Hn.
  - replace k with i by lia. now replace (i + 0 - i)%nat with 0%nat by lia.
  - destruct (Nat.eq_dec k i) as [-> | Hne].
    + now replace (i + S n - i)%nat with (S n) by lia.
    + destruct (lookup_lt_is_Some_2 fs k ltac:(lia)) as [y Hy].
      cbn [open_scan].
      rewrite (bind_Returns _ _ _ _ _ (file_at_table d fs k y Hfs Hy)).
      rewrite (Hskip k y Hy ltac:(lia)), bind_defined.
      replace (Z.of_nat k + 1) with (Z.of_nat (S k)) by lia.
      rewrite IH by lia. f_equal. lia.
Qed.

(** The scan stops at a file that compares equal. *)
Lemma open_scan_hit (d : driver Dev) fs path (i : nat) f m :
  filesystem d = Block fs ->
  fs !! i = Some f ->
  strcmp path (fileName f) (after_name (Z.of_nat i)) = Some true ->
  open_scan Dev after_name (S m) (Z.of_nat i) path d
  = open_scan Dev after_name 1 (Z.of_nat i) path d.
Proof.
  intros Hfs Hi Hcmp. cbn [open_scan].
  rewrite !(bind_Returns _ _ _ _ _ (file_at_table d fs i f Hfs Hi)).
  now rewrite Hcmp, !bind_defined.
Qed.

Lemma open_scan_first (d : driver Dev) fs path (i : nat) f :
  filesystem d = Block fs ->
  fs !! i = Some f ->
  strcmp path (fileName f) (after_name (Z.of_nat i)) = Some true ->
  (forall (j : nat) y, fs !! j = Some y -> (j < i)%nat ->
     strcmp path (fileName y) (after_name (Z.of_nat j)) = Some false) ->
  open_scan Dev after_name (length fs) 0 path d
  = open_scan Dev after_name 1 (Z.of_nat i) path d.
Proof.
  intros Hfs Hi Hcmp Hskip.
  pose proof (lookup_lt_Some _ _ _ Hi) as Hlt.
  change 0 with (Z.of_nat 0).
  rewrite (open_scan_skip d fs path i Hfs ltac:(lia) Hskip) by lia.
  destruct (0 + length fs - i)%nat as [| m] eqn:E; [lia |].
  exact (open_scan_hit d fs path i f m Hfs Hi Hcmp).
Qed.

Lemma open_scan_none (d : driver Dev) fs path :
  filesystem d = Block fs ->
  (forall (j : nat) y, fs !! j = Some y ->
     strcmp path (fileName y) (after_name (Z.of_nat j)) = Some false) ->
  open_scan Dev after_name (length fs) 0 path d = Returns None d.
Proof.
  intros Hfs Hskip. change 0 with (Z.of_nat 0).
  rewrite (open_scan_skip d fs path (length fs) Hfs) by (eauto || lia).
  now replace (0 + length fs - length fs)%nat with 0%nat by lia.
Qed.

(** With a null byte after every name, the comparisons of the scan are those
    of the names. *)
Lemma names_compared (fs : list files) path :
  names_terminated after_name ->
  c_string path ->
  Forall (fun f => c_string (fileName f)) fs ->
  forall (j : nat) y, fs !! j = Some y ->
    strcmp path (fileName y) (after_name (Z.of_nat j))
    = Some (String.eqb path (fileName y)).
Proof.
  intros Hterm Hpath Hnames j y Hy.
  destruct (Hterm (Z.of_nat j)) as [rest ->].
  apply strcmp_terminated; [exact Hpath |].
  rewrite Forall_forall in Hnames. apply Hnames.
  eapply list_elem_of_lookup_2, Hy.
Qed.

Lemma file_of_name_found fs path (i : nat) f :
  names_terminated after_name ->
  c_string path ->
  Forall (fun f => c_string (fileName f)) fs ->
  file_of_name fs path = Some (i, f) ->
  fs !! i = Some f
  /\ strcmp path (fileName f) (after_name (Z.of_nat i)) = Some true
  /\ forall (j : nat) y, fs !! j = Some y -> (j < i)%nat ->
       strcmp path (fileName y) (after_name (Z.of_nat j)) = Some false.
Proof.
  intros Hterm Hpath Hnames (Hi & Hname & Hfirst)%list_find_Some.
  split; [exact Hi |]. split.
  - rewrite (names_compared fs path Hterm Hpath Hnames i f Hi). now f_equal.
  - intros j y Hy Hlt.
    rewrite (names_compared fs path Hterm Hpath Hnames j y Hy). f_equal.
    apply not_true_is_false. exact (Hfirst j y Hy Hlt).
Qed.

Lemma file_of_name_not_found fs path :
  names_terminated after_name ->
  c_string path ->
  Forall (fun f => c_string (fileName f)) fs ->
  file_of_name fs path = None ->
  forall (j : nat) y, fs !! j = Some y ->
    strcmp path (fileName y) (after_name (Z.of_nat j)) = Some false.
Proof.
  intros Hterm Hpath Hnames Hnone j y Hy.
  apply list_find_None in Hnone. rewrite Forall_forall in Hnone.
  rewrite (names_compared fs path Hterm Hpath Hnames j y Hy). f_equal.
  apply not_true_is_false, Hnone. eapply list_elem_of_lookup_2, Hy.
Qed.

(** With a null byte after every name, the scan compares all the files
    different from [path], or there is a first one that compares equal. *)
Lemma scan_cases (fs : list files) path :
  names_terminated after_name ->
  (forall (j : nat) y, fs !! j = Some y ->
     strcmp path (fileName y) (after_name (Z.of_nat j)) = Some false)
  \/ exists (i : nat) f,
       fs !! i = Some f
       /\ strcmp path (fileName f) (after_name (Z.of_nat i)) = Some true
       /\ forall (j : nat) y, fs !! j = Some y -> (j < i)%nat ->
            strcmp path (fileName y) (after_name (Z.of_nat j)) = Some false.
Proof.
  intros Hterm.
  assert (H : forall n : nat,
             (forall (j : nat) y, fs !! j = Some y -> (j < n)%nat ->
                strcmp path (fileName y) (after_name (Z.of_nat j)) = Some false)
             \/ exists (i : nat) f,
                  fs !! i = Some f
                  /\ strcmp path (fileName f) (after_name (Z.of_nat i)) = Some true
                  /\ forall (j : nat) y, fs !! j = Some y -> (j < i)%nat ->
                       strcmp path (fileName y) (after_name (Z.of_nat j))
                       = Some false).
  { induction n as [| n [IH | IH]]; [left; intros; lia | | right; exact IH].
    destruct (fs !! n) as [g |] eqn:Hg.
    - destruct (Hterm (Z.of_nat n)) as [rest Hrest].
      destruct (strcmp_total path (fileName g) rest) as [[|] Hcmp];
        rewrite <- Hrest in Hcmp.
      + right. exists n, g. auto.
      + left. intros j y Hy Hlt. destruct (Nat.eq_dec j n) as [-> | Hne].
        * congruence.
        * apply (IH j y Hy). lia.
    - left. intros j y Hy Hlt. destruct (Nat.eq_dec j n) as [-> | Hne].
      + congruence.
      + apply (IH j y Hy). lia. }
  destruct (H (length fs)) as [Hnone | Hsome]; [left | right; exact Hsome].
  intros j y Hy. apply (Hnone j y Hy). now apply lookup_lt_Some in Hy.
Qed.

(** [cart_open] of the name of a file that is open. *)
Lemma cart_open_open_file (d : driver Dev) fs path (i : nat) f :
  filesystem d = Block fs ->
  Z.of_nat (length fs) = fileSystemSize d + 1 ->
  fs !! i = Some f ->
  strcmp path (fileName f) (after_name (Z.of_nat i)) = Some true ->
  (forall (j : nat) y, fs !! j = Some y -> (j < i)%nat ->
     strcmp path (fileName y) (after_name (Z.of_nat j)) = Some false) ->
  0 < fileHandle f ->
  cart_open indeterminate after_name path d = Returns (-1) d.
Proof.
  intros Hfs Hsize Hi Hcmp Hskip Hopen.
  unfold cart_open. rewrite bind_get, Hfs, bind_get.
  assert (Hscan : open_scan Dev after_name (Z.to_nat (fileSystemSize d + 1)) 0 path d
                  = Returns (Some (-1)) d).
  { replace (Z.to_nat (fileSystemSize d + 1)) with (length fs) by lia.
    rewrite (open_scan_first d fs path i f Hfs Hi Hcmp Hskip).
    cbn [open_scan].
    rewrite (bind_Returns _ _ _ _ _ (file_at_table d fs i f Hfs Hi)).
    rewrite Hcmp, bind_defined.
    destruct (Z.gtb_spec (fileHandle f) 0); [reflexivity | lia]. }
  now rewrite (bind_Returns _ _ _ _ _ Hscan).
Qed.

(** [cart_open] of the name of a file that is closed: the cursor of that
    file goes to 0, and the handle picked goes to the last file of the
    table. *)
Lemma cart_open_closed_file (d : driver Dev) fs path (i : nat) f :
  filesystem d = Block fs ->
  Z.of_nat (length fs) = fileSystemSize d + 1 ->
  Z.of_nat (length fs) < 2 ^ 15 - 1 ->
  fs !! i = Some f ->
  strcmp path (fileName f) (after_name (Z.of_nat i)) = Some true ->
  (forall (j : nat) y, fs !! j = Some y -> (j < i)%nat ->
     strcmp path (fileName y) (after_name (Z.of_nat j)) = Some false) ->
  fileHandle f <= 0 ->
  exists h g,
    least_free_handle fs h
    /\ <[i := with_filePointer 0 f]> fs !! (length fs - 1)%nat = Some g
    /\ cart_open indeterminate after_name path d
       = Returns h
           (set_filesystem
              (Block (<[(length fs - 1)%nat := with_fileHandle h g]>
                        (<[i := with_filePointer 0 f]> fs))) d).
Proof.
  intros Hfs Hsize Hsmall Hi Hcmp Hskip Hclosed.
  pose proof (lookup_lt_Some _ _ _ Hi) as Hlt.
  assert (Hsz : fileSystemSize d = Z.of_nat (length fs - 1)) by lia.
  destruct (pick_handle_least d fs fs Hfs (firstn_all fs)) as (h & Hpick & Hleast).
  pose proof (least_free_handle_bound fs h Hleast) as Hbound.
  pose proof Hleast as (Hpos & _).
  destruct (lookup_lt_is_Some_2 (<[i := with_filePointer 0 f]> fs)
              (length fs - 1)) as [g Hg].
  { rewrite length_insert. lia. }
  exists h, g. split; [exact Hleast |]. split; [exact Hg |].
  unfold cart_open. rewrite bind_get, Hfs, bind_get.
  match goal with
  | |- bind _ _ _ = Returns _ ?d' =>
      assert (Hscan : open_scan Dev after_name (Z.to_nat (fileSystemSize d + 1)) 0 path d
                      = Returns (Some h) d');
        [| now rewrite (bind_Returns _ _ _ _ _ Hscan)]
  end.
  replace (Z.to_nat (fileSystemSize d + 1)) with (length fs) by lia.
  rewrite (open_scan_first d fs path i f Hfs Hi Hcmp Hskip).
  cbn [open_scan].
  rewrite (bind_Returns _ _ _ _ _ (file_at_table d fs i f Hfs Hi)).
  rewrite Hcmp, bind_defined.
  destruct (Z.gtb_spec (fileHandle f) 0); [lia |].
  rewrite bind_get.
  replace (Z.to_nat (fileSystemSize d + 1)) with (length fs) by lia.
  rewrite (bind_Returns _ _ _ _ _ Hpick).
  rewrite (bind_Returns _ _ _ _ _
             (file_update_table d fs i f (with_filePointer 0) Hfs Hi)).
  rewrite Hsz.
  erewrite bind_Returns;
    [| apply (file_update_table _ (<[i := with_filePointer 0 f]> fs)
                (length fs - 1) g); [reflexivity | exact Hg]].
  erewrite bind_Returns;
    [| eapply file_at_table;
       [reflexivity
       | apply list_lookup_insert_eq; rewrite length_insert; lia]].
  unfold ret. cbn [with_fileHandle fileHandle].
  rewrite int16_small by lia. reflexivity.
Qed.

Lemma insert_last {A} (l : list A) (x y : A) :
  <[length l := y]> (l ++ [x]) = l ++ [y].
Proof. induction l as [| a l IH]; [reflexivity | cbn; f_equal; exact IH]. Qed.

Lemma lookup_last {A} (l : list A) (x : A) : (l ++ [x]) !! length l = Some x.
Proof. induction l as [| a l IH]; cbn; [reflexivity | exact IH]. Qed.

(** [cart_open] of a name that no file of the table has. *)
Lemma cart_open_new_name (d : driver Dev) fs path :
  filesystem d = Block fs ->
  Z.of_nat (length fs) = fileSystemSize d + 1 ->
  Z.of_nat (length fs) < 2 ^ 15 - 1 ->
  (forall (j : nat) y, fs !! j = Some y ->
     strcmp path (fileName y) (after_name (Z.of_nat j)) = Some false) ->
  exists h,
    least_free_handle fs h
    /\ cart_open indeterminate after_name path d
       = Returns h
           (set_filesystem (Block (fs ++ [new_file indeterminate path h]))
              (set_fileSystemSize Dev (fileSystemSize d + 1) d)).
Proof.
  intros Hfs Hsize Hsmall Hnone.
  set (d1 := set_filesystem (Block (fs ++ [fresh_file indeterminate]))
               (set_fileSystemSize Dev (Z.of_nat (length fs)) d)).
  destruct (pick_handle_least
              (set_filesystem
                 (Block (fs ++ [with_filePointer 0 (with_length 0
                                  (with_fileName path (fresh_file indeterminate)))]))
                 d1)
              _ fs eq_refl) as (h & Hpick & Hleast).
  { now rewrite take_app_length. }
  pose proof (least_free_handle_bound fs h Hleast) as Hbound.
  pose proof Hleast as (Hpos & _).
  exists h. split; [exact Hleast |].
  unfold cart_open. rewrite bind_get, Hfs, bind_get.
  replace (Z.to_nat (fileSystemSize d + 1)) with (length fs) by lia.
  rewrite (bind_Returns _ _ _ _ _ (open_scan_none d fs path Hfs Hnone)).
  cbv beta iota. rewrite bind_modify, bind_get, bind_get.
  cbn [set_fileSystemSize filesystem fileSystemSize]. rewrite Hfs, bind_modify.
  replace (Z.to_nat (fileSystemSize d + 1 + 1)) with (length fs + 1)%nat by lia.
  rewrite resize_ge by lia.
  replace (length fs + 1 - length fs)%nat with 1%nat by lia.
  cbn [replicate].
  replace (fileSystemSize d + 1) with (Z.of_nat (length fs)) by lia.
  erewrite bind_Returns;
    [| eapply file_update_table; [reflexivity | apply lookup_last]].
  rewrite insert_last.
  erewrite bind_Returns;
    [| eapply file_update_table; [reflexivity | apply lookup_last]].
  rewrite insert_last.
  erewrite bind_Returns;
    [| eapply file_update_table; [reflexivity | apply lookup_last]].
  rewrite insert_last.
  rewrite Nat2Z.id.
  match goal with
  | |- bind _ _ ?dd = _ =>
      change dd
        with (set_filesystem
                (Block (fs ++ [with_filePointer 0 (with_length 0
                                 (with_fileName path (fresh_file indeterminate)))]))
                d1)
  end.
  rewrite (bind_Returns _ _ _ _ _ Hpick).
  erewrite bind_Returns;
    [| eapply file_update_table; [reflexivity | apply lookup_last]].
  rewrite insert_last.
  erewrite bind_Returns;
    [| eapply file_at_table; [reflexivity | apply lookup_last]].
  unfold ret. cbn [with_fileHandle fileHandle].
  rewrite int16_small by lia. reflexivity.
Qed.


(** The first [cart_open] of all makes the table, with one record. *)
Lemma cart_open_first (d : driver Dev) path :
  filesystem d = NULL ->
  cart_open indeterminate after_name path d
  = Returns 1 (set_filesystem (Block [new_file indeterminate path 1]) d).
Proof. intros Hfs. unfold cart_open. rewrite bind_get, Hfs. reflexivity. Qed.

(** X16. A file that is open cannot be opened again: [cart_open] of its name
    returns -1 and changes nothing. The path and the names of the table are
    C strings, and a null byte can be read after the block of every stored
    name, so that [strcmp] ends there. *)
Theorem cart_open_refuses_an_open_file (d : driver Dev) fs path (i : nat) f :
  names_terminated after_name ->
  c_string path ->
  Forall (fun f => c_string (fileName f)) fs ->
  filesystem d = Block fs ->
  Z.of_nat (length fs) = fileSystemSize d + 1 ->
  file_of_name fs path = Some (i, f) ->
  0 < fileHandle f ->
  cart_open indeterminate after_name path d = Returns (-1) d.
Proof.
  intros Hterm Hpath Hnames Hfs Hsize Hfind Hopen.
  destruct (file_of_name_found fs path i f Hterm Hpath Hnames Hfind)
    as (Hi & Hcmp & Hskip).
  exact (cart_open_open_file d fs path i f Hfs Hsize Hi Hcmp Hskip Hopen).
Qed.

(** X17. [cart_open] of a name that no file has creates the file: it
    returns the least positive number that is no file's handle, and the only
    changes are that [fileSystemSize] is one more and that the table has one
    more record at its end, with that name and handle, length 0 and the
    cursor at 0. (The table has less than 2^15 - 1 files, so that the handle
    fits an [int16_t]; the path and the names of the table are C strings, and
    a null byte can be read after the block of every stored name.) *)
Theorem cart_open_creates_a_file (d : driver Dev) fs path :
  names_terminated after_name ->
  c_string path ->
  Forall (fun f => c_string (fileName f)) fs ->
  filesystem d = Block fs ->
  Z.of_nat (length fs) = fileSystemSize d + 1 ->
  Z.of_nat (length fs) < 2 ^ 15 - 1 ->
  file_of_name fs path = None ->
  exists h,
    least_free_handle fs h
    /\ cart_open indeterminate after_name path d
       = Returns h
           (mkDriver (regstate d)
              (Block (fs ++ [mkFile path 0 0
                               (mkLocation indeterminate [indeterminate]
                                  indeterminate [indeterminate]) h]))
              (fileSystemSize d + 1) (currentlyLoadedCartridge d) (nextFrame d)
              (nextCartridge d) (cart_cache d) (controller d) (bus_log d)).
Proof.
  intros Hterm Hpath Hnames Hfs Hsize Hsmall Hfind.
  apply (cart_open_new_name d fs path Hfs Hsize Hsmall).
  exact (file_of_name_not_found fs path Hterm Hpath Hnames Hfind).
Qed.

(** X18. [cart_open] of the name of a file that is closed returns the least
    positive number that is no file's handle, and moves the cursor of that
    file to 0 (its name, length, frames and handle are kept); the handle is
    stored in the last record [g] of the table, whichever file was named (the
    other fields of [g] are kept). Nothing else changes. The path and the
    names of the table are C strings, and a null byte can be read after the
    block of every stored name. *)
Theorem cart_open_of_a_closed_file (d : driver Dev) fs path (i : nat) f :
  names_terminated after_name ->
  c_string path ->
  Forall (fun f => c_string (fileName f)) fs ->
  filesystem d = Block fs ->
  Z.of_nat (length fs) = fileSystemSize d + 1 ->
  Z.of_nat (length fs) < 2 ^ 15 - 1 ->
  file_of_name fs path = Some (i, f) ->
  fileHandle f <= 0 ->
  exists h g,
    least_free_handle fs h
    /\ <[i := mkFile (fileName f) (file_length f) 0 (location f) (fileHandle f)]> fs
       !! (length fs - 1)%nat = Some g
    /\ cart_open indeterminate after_name path d
       = Returns h
           (mkDriver (regstate d)
              (Block (<[(length fs - 1)%nat
                        := mkFile (fileName g) (file_length g) (filePointer g)
                             (location g) h]>
                        (<[i := mkFile (fileName f) (file_length f) 0
                                  (location f) (fileHandle f)]> fs)))
              (fileSystemSize d) (currentlyLoadedCartridge d) (nextFrame d)
              (nextCartridge d) (cart_cache d) (controller d) (bus_log d)).
Proof.
  intros Hterm Hpath Hnames Hfs Hsize Hsmall Hfind Hclosed.
  destruct (file_of_name_found fs path i f Hterm Hpath Hnames Hfind)
    as (Hi & Hcmp & Hskip).
  exact (cart_open_closed_file d fs path i f Hfs Hsize Hsmall Hi Hcmp Hskip
           Hclosed).
Qed.

(** X29. Re-opening goes wrong when nothing can be read after a stored name.
    [cart_open] allocates [strlen(path)] bytes for the name and copies the
    characters without the terminating null byte, and compares with [strcmp]:
    when the path starts with the name of a file of the table (it is that name,
    or a longer one), no earlier file has a name that the path starts with,
    and no byte can be read after the block of that name, [strcmp] reads past
    the block and [cart_open] does not return. *)
Theorem cart_open_reads_past_a_stored_name (d : driver Dev) fs path
    (i : nat) f more :
  filesystem d = Block fs ->
  Z.of_nat (length fs) = fileSystemSize d + 1 ->
  fs !! i = Some f ->
  (forall (j : nat) g, fs !! j = Some g -> (j < i)%nat ->
     c_string (fileName g) /\ forall rest, path <> (fileName g ++ rest)%string) ->
  c_string (fileName f) ->
  path = (fileName f ++ more)%string ->
  after_name (Z.of_nat i) = [] ->
  cart_open indeterminate after_name path d = GoesWrong BufferOutOfBounds.
Proof.
  intros Hfs Hsize Hi Hearlier Hname -> Hafter.
  pose proof (lookup_lt_Some _ _ _ Hi) as Hlt.
  unfold cart_open. rewrite bind_get, Hfs, bind_get.
  replace (Z.to_nat (fileSystemSize d + 1)) with (length fs) by lia.
  assert (Hscan : open_scan Dev after_name (length fs) 0 (fileName f ++ more) d
                  = GoesWrong BufferOutOfBounds).
  { change 0 with (Z.of_nat 0).
    rewrite (open_scan_skip d fs _ i Hfs) by
      (lia || (intros j g Hg Hj; destruct (Hearlier j g Hg Hj);
               now apply strcmp_not_prefix)).
    destruct (0 + length fs - i)%nat as [| m] eqn:E; [lia |].
    cbn [open_scan].
    rewrite (bind_Returns _ _ _ _ _ (file_at_table d fs i f Hfs Hi)).
    now rewrite Hafter, (strcmp_past _ _ Hname). }
  unfold bind at 1. now rewrite Hscan.
Qed.


(** X30. A stored name can be missed. When the byte read after the block of
    a stored name is not null, [strcmp] tells that name apart from the equal
    path: if no other file has a name that the path starts with, [cart_open]
    of the name of a file of the table does not find it, whether it is open or
    closed, and makes a second record with the same name at the end of the
    table, with a new handle. *)
Theorem cart_open_misses_a_stored_name (d : driver Dev) fs (i : nat) f b rest :
  filesystem d = Block fs ->
  Z.of_nat (length fs) = fileSystemSize d + 1 ->
  Z.of_nat (length fs) < 2 ^ 15 - 1 ->
  fs !! i = Some f ->
  c_string (fileName f) ->
  after_name (Z.of_nat i) = b :: rest ->
  b <> x00 ->
  (forall (j : nat) g, fs !! j = Some g -> j <> i ->
     c_string (fileName g)
     /\ forall more, fileName f <> (fileName g ++ more)%string) ->
  exists h,
    least_free_handle fs h
    /\ cart_open indeterminate after_name (fileName f) d
       = Returns h
           (mkDriver (regstate d)
              (Block (fs ++ [mkFile (fileName f) 0 0
                               (mkLocation indeterminate [indeterminate]
                                  indeterminate [indeterminate]) h]))
              (fileSystemSize d + 1) (currentlyLoadedCartridge d) (nextFrame d)
              (nextCartridge d) (cart_cache d) (controller d) (bus_log d)).
Proof.
  intros Hfs Hsize Hsmall Hi Hname Hafter Hb Hothers.
  apply (cart_open_new_name d fs (fileName f) Hfs Hsize Hsmall).
  intros j y Hy. destruct (Nat.eq_dec j i) as [-> | Hne].
  - assert (y = f) as -> by congruence.
    rewrite Hafter. now apply strcmp_bytes_missed.
  - destruct (Hothers j y Hy Hne). now apply strcmp_not_prefix.
Qed.

(** *** The table stays in good order *)

Lemma distinct_insert_fresh (hs : list Z) (k : nat) h :
  distinct_unless_0 hs -> h ∉ hs -> distinct_unless_0 (<[k := h]> hs).
Proof.
  intros Hd Hfresh i j a Hi Hj Ha.
  destruct (Nat.eq_dec i k) as [-> | Hik], (Nat.eq_dec j k) as [-> | Hjk];
    [reflexivity | | |].
  - apply list_lookup_insert_Some in Hi as [(_ & <- & _) | [? _]]; [| congruence].
    rewrite list_lookup_insert_ne in Hj by congruence.
    destruct Hfresh. eapply list_elem_of_lookup_2, Hj.
  - apply list_lookup_insert_Some in Hj as [(_ & <- & _) | [? _]]; [| congruence].
    rewrite list_lookup_insert_ne in Hi by congruence.
    destruct Hfresh. eapply list_elem_of_lookup_2, Hi.
  - rewrite list_lookup_insert_ne in Hi, Hj by congruence. exact (Hd i j a Hi Hj Ha).
Qed.

Lemma distinct_insert_0 (hs : list Z) (k : nat) :
  distinct_unless_0 hs -> distinct_unless_0 (<[k := 0]> hs).
Proof.
  intros Hd i j a Hi Hj Ha.
  apply list_lookup_insert_Some in Hi as [(_ & <- & _) | [Hik Hi]]; [lia |].
  apply list_lookup_insert_Some in Hj as [(_ & <- & _) | [Hjk Hj]]; [lia |].
  exact (Hd i j a Hi Hj Ha).
Qed.

Lemma distinct_snoc_fresh hs h :
  distinct_unless_0 hs -> h ∉ hs -> distinct_unless_0 (hs ++ [h]).
Proof.
  intros Hd Hfresh i j a Hi Hj Ha.
  apply lookup_snoc_Some in Hi as [[Hil Hi] | [-> <-]];
    apply lookup_snoc_Some in Hj as [[Hjl Hj] | [-> Hj]].
  - exact (Hd i j a Hi Hj Ha).
  - subst. destruct Hfresh. eapply list_elem_of_lookup_2, Hi.
  - destruct Hfresh. eapply list_elem_of_lookup_2, Hj.
  - reflexivity.
Qed.

(** Replacing a file by one of the same name and handle, or of the same
    name and another handle, in terms of the lists of names and handles. *)
Lemma names_insert (fs : list files) (i : nat) f g :
  fs !! i = Some f -> fileName g = fileName f ->
  fileName <$> <[i := g]> fs = fileName <$> fs.
Proof.
  intros Hi Hn. rewrite list_fmap_insert, Hn. apply list_insert_id.
  now rewrite list_lookup_fmap, Hi.
Qed.

Lemma handles_insert (fs : list files) (i : nat) f g :
  fs !! i = Some f -> fileHandle g = fileHandle f ->
  fileHandle <$> <[i := g]> fs = fileHandle <$> fs.
Proof.
  intros Hi Hn. rewrite list_fmap_insert, Hn. apply list_insert_id.
  now rewrite list_lookup_fmap, Hi.
Qed.

Lemma Forall_insert_file (P : files -> Prop) fs (i : nat) g :
  Forall P fs -> P g -> Forall P (<[i := g]> fs).
Proof.
  intros Hall Hg. apply Forall_forall. intros x [j Hj]%list_elem_of_lookup.
  apply list_lookup_insert_Some in Hj as [(_ & <- & _) | [_ Hj]]; [exact Hg |].
  rewrite Forall_forall in Hall. apply Hall. eapply list_elem_of_lookup_2, Hj.
Qed.

(** A file keeps the table in good order when it replaces one of the same
    name and handle. *)
Lemma table_ok_insert fs size (i : nat) f g :
  table_ok fs size -> fs !! i = Some f ->
  fileName g = fileName f -> fileHandle g = fileHandle f ->
  table_ok (<[i := g]> fs) size.
Proof.
  intros [Hsz Hn Hp Hh] Hi Hname Hhandle. constructor.
  - now rewrite length_insert.
  - now rewrite (names_insert fs i f g Hi Hname).
  - apply Forall_insert_file; [exact Hp |]. rewrite Hhandle.
    rewrite Forall_forall in Hp. apply Hp. eapply list_elem_of_lookup_2, Hi.
  - now rewrite (handles_insert fs i f g Hi Hhandle).
Qed.

(** The scan for a handle finds nothing, or the first file that has it. *)
Lemma fileSystemIndex_of_cases (d : driver Dev) fs fd :
  filesystem d = Block fs ->
  Z.of_nat (length fs) = fileSystemSize d + 1 ->
  fileSystemIndex_of fd d = Returns (-1) d
  \/ exists (i : nat) f,
       file_of_handle fs fd = Some (i, f)
       /\ fs !! i = Some f
       /\ fileSystemIndex_of fd d = Returns (Z.of_nat i) d
       /\ file_at (Z.of_nat i) d = Returns f d.
Proof.
  intros Hfs Hsize.
  destruct (file_of_handle fs fd) as [[i f] |] eqn:Hfind.
  - right. exists i, f.
    pose proof Hfind as (Hi & _)%list_find_Some.
    split; [reflexivity |]. split; [exact Hi |].
    split; [exact (fileSystemIndex_of_handle d fs fd i f Hfs Hsize Hfind) |].
    exact (file_at_table d fs i f Hfs Hi).
  - left. unfold fileSystemIndex_of, bind, get. change 0 with (Z.of_nat 0).
    apply (find_handle_none d fs fd Hfs); [| lia].
    intros f Hin Hh. apply list_find_None in Hfind.
    rewrite Forall_forall in Hfind. exact (Hfind f Hin Hh).
Qed.


(** X19. The table of files stays in good order. From globals in good order
    (no table yet and [fileSystemSize] 0, as when the program starts, or a
    table with as many files as [fileSystemSize] says, pairwise different
    names, and handles that are not negative and pairwise different among
    the open files) with less than 2^15 - 1 files, and with a null byte to
    read after the block of every stored name, [cart_open] of a C string
    returns -1 or a positive handle and leaves the globals in good order,
    and so do [cart_close] and [cart_seek] whenever they return. *)
Theorem table_stays_in_good_order (d : driver Dev) :
  driver_ok d -> fileSystemSize d < 2 ^ 15 - 2 ->
  names_terminated after_name ->
  (forall path, c_string path -> exists h d',
     cart_open indeterminate after_name path d = Returns h d'
     /\ driver_ok d' /\ (h = -1 \/ 0 < h))
  /\ (forall fd r d', cart_close fd d = Returns r d' -> driver_ok d')
  /\ (forall fd loc r d', cart_seek fd loc d = Returns r d' -> driver_ok d').
Proof.
  unfold driver_ok at 1. intros Hok Hsmall Hterm.
  destruct (filesystem d) as [| fs |] eqn:Hfs; [| | contradiction].
  - (* no table yet *)
    assert (Hidx : forall fd, fileSystemIndex_of fd d = GoesWrong NullFilesystem).
    { intros fd. unfold fileSystemIndex_of. rewrite bind_get, Hok.
      change (Z.to_nat (0 + 1)) with 1%nat. cbn [find_handle].
      unfold bind, file_at. now rewrite Hfs. }
    split; [| split].
    + intros path _. exists 1. eexists. split.
      * exact (cart_open_first d path Hfs).
      * split; [| right; lia]. unfold driver_ok. globals. constructor; cbn.
        -- rewrite Hok. reflexivity.
        -- apply NoDup_singleton.
        -- apply Forall_singleton. cbn. lia.
        -- intros i j a Hi%lookup_lt_Some Hj%lookup_lt_Some _. cbn in *. lia.
    + intros fd r d'. unfold cart_close, bind. now rewrite Hidx.
    + intros fd loc r d'. unfold cart_seek, bind. now rewrite Hidx.
  - (* a table in good order *)
    pose proof Hok as [Hsz Hnames Hpos Hdistinct].
    split; [| split].
    + intros path _.
      destruct (scan_cases fs path Hterm) as [Hnone | (i & f & Hi & Hcmp & Hskip)].
      * destruct (cart_open_new_name d fs path Hfs Hsz ltac:(lia) Hnone)
          as (h & (Hh & Hfree & _) & Hrun).
        exists h. eexists. split; [exact Hrun |]. split; [| right; exact Hh].
        unfold driver_ok. cbn. constructor.
        -- rewrite length_app. cbn. lia.
        -- rewrite fmap_app. cbn. apply NoDup_app. split; [exact Hnames |].
           split; [| apply NoDup_singleton].
           intros x Hin Hx%list_elem_of_singleton. subst x.
           apply list_elem_of_fmap in Hin as (f & Hname & Hin).
           apply list_elem_of_lookup in Hin as [j Hj].
           pose proof (Hnone j f Hj) as Hcmp.
           destruct (Hterm (Z.of_nat j)) as [rest Hrest].
           rewrite Hrest, <- Hname, strcmp_same in Hcmp. discriminate.
        -- apply Forall_app. split; [exact Hpos |]. repeat constructor. cbn. lia.
        -- rewrite fmap_app. cbn. now apply distinct_snoc_fresh.
      * destruct (Z.lt_ge_cases 0 (fileHandle f)) as [Hopen | Hclosed].
        -- exists (-1), d.
           split; [exact (cart_open_open_file d fs path i f Hfs Hsz Hi Hcmp Hskip
                            Hopen) |].
           split; [| left; reflexivity]. unfold driver_ok. now rewrite Hfs.
        -- destruct (cart_open_closed_file d fs path i f Hfs Hsz ltac:(lia)
                       Hi Hcmp Hskip Hclosed)
             as (h & g & (Hh & Hfree & _) & Hg & Hrun).
           exists h. eexists. split; [exact Hrun |]. split; [| right; exact Hh].
           unfold driver_ok. cbn.
           assert (Hok1 : table_ok (<[i := with_filePointer 0 f]> fs)
                            (fileSystemSize d))
             by (apply (table_ok_insert fs _ i f); auto).
           assert (Hhs : fileHandle <$> <[i := with_filePointer 0 f]> fs
                         = fileHandle <$> fs)
             by (apply (handles_insert fs i f); auto).
           destruct Hok1 as [Hsz1 Hnames1 Hpos1 Hdistinct1]. constructor.
           ++ now rewrite length_insert.
           ++ now rewrite (names_insert _ _ g _ Hg).
           ++ apply Forall_insert_file; [exact Hpos1 | cbn; lia].
           ++ rewrite list_fmap_insert. cbn.
              apply distinct_insert_fresh; [exact Hdistinct1 |]. now rewrite Hhs.
    + intros fd r d' Hrun.
      destruct (fileSystemIndex_of_cases d fs fd Hfs Hsz)
        as [Hidx | (i & f & Hfind & Hi & Hidx & Hat)].
      * unfold cart_close in Hrun. rewrite (bind_Returns _ _ _ _ _ Hidx) in Hrun.
        cbn in Hrun. injection Hrun as _ <-. unfold driver_ok. now rewrite Hfs.
      * destruct (Z.eq_dec (fileHandle f) 0) as [H0 | Hn0].
        -- unfold cart_close in Hrun.
           rewrite (bind_Returns _ _ _ _ _ Hidx) in Hrun.
           destruct (Z.eqb_spec (Z.of_nat i) (-1)); [lia |].
           rewrite (bind_Returns _ _ _ _ _ Hat), H0 in Hrun. cbn in Hrun.
           injection Hrun as _ <-. unfold driver_ok. now rewrite Hfs.
        -- pose proof Hfind as (_ & Hfd & _)%list_find_Some.
           rewrite (cart_close_open d fs fd i f Hfs Hsz ltac:(lia) Hfind) in Hrun.
           injection Hrun as _ <-. unfold driver_ok. cbn. constructor.
           ++ now rewrite length_insert.
           ++ now rewrite (names_insert fs i f).
           ++ apply Forall_insert_file; [exact Hpos | cbn; lia].
           ++ rewrite list_fmap_insert. cbn. now apply distinct_insert_0.
    + intros fd loc r d' Hrun.
      assert (Hsame : driver_ok d) by (unfold driver_ok; now rewrite Hfs).
      unfold cart_seek in Hrun.
      destruct (fileSystemIndex_of_cases d fs fd Hfs Hsz)
        as [Hidx | (i & f & Hfind & Hi & Hidx & Hat)];
        rewrite (bind_Returns _ _ _ _ _ Hidx) in Hrun.
      * cbn in Hrun. now injection Hrun as _ <-.
      * destruct (Z.eqb_spec (Z.of_nat i) (-1)); [lia |].
        rewrite (bind_Returns _ _ _ _ _ Hat) in Hrun.
        destruct (fileHandle f =? 0); [cbn in Hrun; now injection Hrun as _ <- |].
        destruct (uint32 (file_length f) <? uint32 loc);
          [cbn in Hrun; now injection Hrun as _ <- |].
        rewrite (bind_Returns _ _ _ _ _
                   (file_update_table d fs i f _ Hfs Hi)) in Hrun.
        cbn in Hrun. injection Hrun as _ <-. unfold driver_ok. cbn.
        apply (table_ok_insert fs _ i f); auto.
Qed.


End FileCalls.

(** *** The examples *)

Lemma unknown_handle_is_refused_witness :
  (- 2 ^ 15 <= 2 < 2 ^ 15
   /\ filesystem Demo.one_file = Block [Demo.three_bytes]
   /\ Z.of_nat (length [Demo.three_bytes]) = fileSystemSize Demo.one_file + 1
   /\ (forall f, f ∈ [Demo.three_bytes] -> fileHandle f = 2 -> 2 = 0))
  /\ cart_close 2 Demo.one_file = Returns (-1) Demo.one_file
  /\ cart_seek 2 0 Demo.one_file = Returns (-1) Demo.one_file
  /\ cart_read Demo.frame_size unit (zeroed_controller Demo.frame_size) x00
       2 1 Demo.one_file = Returns (-1, []) Demo.one_file
  /\ cart_write Demo.frame_size unit (zeroed_controller Demo.frame_size) 0 x00
       2 [x01] 1 Demo.one_file = Returns (-1) Demo.one_file.
Proof.
  assert (H1 : filesystem Demo.one_file = Block [Demo.three_bytes]) by reflexivity.
  assert (H2 : Z.of_nat (length [Demo.three_bytes])
               = fileSystemSize Demo.one_file + 1) by reflexivity.
  assert (H3 : forall f, f ∈ [Demo.three_bytes] -> fileHandle f = 2 -> 2 = 0).
  { intros f ->%list_elem_of_singleton. cbn. discriminate. }
  assert (H0 : - 2 ^ 15 <= 2 < 2 ^ 15) by lia.
  split; [exact (conj H0 (conj H1 (conj H2 H3))) |].
  exact (unknown_handle_is_refused (zeroed_controller Demo.frame_size)
           Demo.frame_size 0 x00 Demo.one_file _ 2 0 [x01] 1 H0 H1 H2 H3).
Defined.

Lemma calls_without_table_go_wrong_witness :
  (0 <= fileSystemSize Demo.start
   /\ ((filesystem Demo.start = NULL /\ NullFilesystem = NullFilesystem)
       \/ (filesystem Demo.start = Freed /\ NullFilesystem = FreedFilesystem)))
  /\ cart_close 1 Demo.start = GoesWrong NullFilesystem
  /\ cart_seek 1 0 Demo.start = GoesWrong NullFilesystem
  /\ cart_read Demo.frame_size unit (zeroed_controller Demo.frame_size) x00
       1 1 Demo.start = GoesWrong NullFilesystem
  /\ cart_write Demo.frame_size unit (zeroed_controller Demo.frame_size) 0 x00
       1 [x01] 1 Demo.start = GoesWrong NullFilesystem
  /\ (filesystem Demo.start = Freed ->
      cart_open 0 Demo.after_name "a" Demo.start = GoesWrong NullFilesystem).
Proof.
  assert (H1 : 0 <= fileSystemSize Demo.start) by (cbn; lia).
  assert (H2 : (filesystem Demo.start = NULL /\ NullFilesystem = NullFilesystem)
               \/ (filesystem Demo.start = Freed
                   /\ NullFilesystem = FreedFilesystem))
    by (left; split; reflexivity).
  split; [exact (conj H1 H2) |].
  exact (calls_without_table_go_wrong (zeroed_controller Demo.frame_size)
           Demo.frame_size 0 x00 Demo.after_name Demo.start NullFilesystem "a"
           1 0 [x01] 1 H1 H2).
Defined.

Lemma cart_close_closes_the_file_witness :
  (filesystem Demo.one_file = Block [Demo.three_bytes]
   /\ Z.of_nat (length [Demo.three_bytes]) = fileSystemSize Demo.one_file + 1
   /\ 1 <> 0
   /\ file_of_handle [Demo.three_bytes] 1 = Some (0%nat, Demo.three_bytes))
  /\ cart_close 1 Demo.one_file
     = Returns 0
         (set_filesystem
            (Block (<[0%nat := mkFile (fileName Demo.three_bytes)
                                 (file_length Demo.three_bytes) 0
                                 (location Demo.three_bytes) 0]>
                      [Demo.three_bytes]))
            Demo.one_file).
Proof.
  assert (H1 : filesystem Demo.one_file = Block [Demo.three_bytes]) by reflexivity.
  assert (H2 : Z.of_nat (length [Demo.three_bytes])
               = fileSystemSize Demo.one_file + 1) by reflexivity.
  assert (H3 : 1 <> 0) by lia.
  assert (H4 : file_of_handle [Demo.three_bytes] 1 = Some (0%nat, Demo.three_bytes))
    by reflexivity.
  split; [exact (conj H1 (conj H2 (conj H3 H4))) |].
  exact (cart_close_closes_the_file Demo.one_file _ 1 0%nat _ H1 H2 H3 H4).
Defined.

Lemma closed_handle_is_refused_witness :
  (filesystem Demo.one_file = Block [Demo.three_bytes]
   /\ Z.of_nat (length [Demo.three_bytes]) = fileSystemSize Demo.one_file + 1
   /\ 1 <> 0
   /\ file_of_handle [Demo.three_bytes] 1 = Some (0%nat, Demo.three_bytes)
   /\ (forall (j : nat) g, [Demo.three_bytes] !! j = Some g ->
         fileHandle g = 1 -> j = 0%nat))
  /\ exists d',
       cart_close 1 Demo.one_file = Returns 0 d'
       /\ cart_close 1 d' = Returns (-1) d'
       /\ cart_seek 1 0 d' = Returns (-1) d'
       /\ cart_read Demo.frame_size unit (zeroed_controller Demo.frame_size) x00
            1 1 d' = Returns (-1, []) d'
       /\ cart_write Demo.frame_size unit (zeroed_controller Demo.frame_size) 0 x00
            1 [x01] 1 d' = Returns (-1) d'.
Proof.
  assert (H1 : filesystem Demo.one_file = Block [Demo.three_bytes]) by reflexivity.
  assert (H2 : Z.of_nat (length [Demo.three_bytes])
               = fileSystemSize Demo.one_file + 1) by reflexivity.
  assert (H3 : 1 <> 0) by lia.
  assert (H4 : file_of_handle [Demo.three_bytes] 1 = Some (0%nat, Demo.three_bytes))
    by reflexivity.
  assert (H5 : forall (j : nat) g, [Demo.three_bytes] !! j = Some g ->
                 fileHandle g = 1 -> j = 0%nat).
  { intros [| j] g Hj _; [reflexivity | discriminate]. }
  split; [exact (conj H1 (conj H2 (conj H3 (conj H4 H5)))) |].
  exact (closed_handle_is_refused (zeroed_controller Demo.frame_size)
           Demo.frame_size 0 x00 Demo.one_file _ 1 0%nat _ 0 [x01] 1
           H1 H2 H3 H4 H5).
Defined.

Lemma demo_names_terminated : names_terminated Demo.after_name.
Proof. intros i. now exists []. Defined.

Lemma c_string_a : c_string "a".
Proof. apply not_elem_of_cons. split; [discriminate | apply not_elem_of_nil]. Defined.

Lemma c_string_b : c_string "b".
Proof. apply not_elem_of_cons. split; [discriminate | apply not_elem_of_nil]. Defined.

Lemma one_file_c_strings :
  Forall (fun f => c_string (fileName f)) [Demo.three_bytes].
Proof. repeat constructor. exact c_string_a. Defined.

Lemma two_files_c_strings :
  Forall (fun f => c_string (fileName f)) [DemoFiles.closed_a; DemoFiles.open_b].
Proof. repeat constructor; [exact c_string_a | exact c_string_b]. Defined.

Lemma two_files_ok : driver_ok DemoFiles.two_files.
Proof.
  constructor.
  - reflexivity.
  - apply NoDup_cons. split; [| apply NoDup_singleton].
    intros H%list_elem_of_singleton. discriminate.
  - repeat constructor; cbn; lia.
  - intros [| [| i]] [| [| j]] a Hi Hj Ha; try reflexivity; try discriminate;
      cbn in Hi, Hj; congruence.
Defined.

Lemma cart_open_refuses_an_open_file_witness :
  (names_terminated Demo.after_name
   /\ c_string "a"
   /\ Forall (fun f => c_string (fileName f)) [Demo.three_bytes]
   /\ filesystem Demo.one_file = Block [Demo.three_bytes]
   /\ Z.of_nat (length [Demo.three_bytes]) = fileSystemSize Demo.one_file + 1
   /\ file_of_name [Demo.three_bytes] "a" = Some (0%nat, Demo.three_bytes)
   /\ 0 < fileHandle Demo.three_bytes)
  /\ cart_open 0 Demo.after_name "a" Demo.one_file = Returns (-1) Demo.one_file.
Proof.
  assert (H1 : filesystem Demo.one_file = Block [Demo.three_bytes]) by reflexivity.
  assert (H2 : Z.of_nat (length [Demo.three_bytes])
               = fileSystemSize Demo.one_file + 1) by reflexivity.
  assert (H3 : file_of_name [Demo.three_bytes] "a" = Some (0%nat, Demo.three_bytes))
    by reflexivity.
  assert (H4 : 0 < fileHandle Demo.three_bytes) by (cbn; lia).
  split; [exact (conj demo_names_terminated
                   (conj c_string_a
                      (conj one_file_c_strings (conj H1 (conj H2 (conj H3 H4)))))) |].
  exact (cart_open_refuses_an_open_file 0 Demo.after_name Demo.one_file _ "a"
           0%nat _ demo_names_terminated c_string_a one_file_c_strings
           H1 H2 H3 H4).
Defined.

Lemma cart_open_creates_a_file_witness :
  (names_terminated Demo.after_name
   /\ c_string "b"
   /\ Forall (fun f => c_string (fileName f)) [Demo.three_bytes]
   /\ filesystem Demo.one_file = Block [Demo.three_bytes]
   /\ Z.of_nat (length [Demo.three_bytes]) = fileSystemSize Demo.one_file + 1
   /\ Z.of_nat (length [Demo.three_bytes]) < 2 ^ 15 - 1
   /\ file_of_name [Demo.three_bytes] "b" = None)
  /\ exists h,
       least_free_handle [Demo.three_bytes] h
       /\ cart_open 0 Demo.after_name "b" Demo.one_file
          = Returns h
              (mkDriver (regstate Demo.one_file)
                 (Block ([Demo.three_bytes]
                         ++ [mkFile "b" 0 0 (mkLocation 0 [0] 0 [0]) h]))
                 (fileSystemSize Demo.one_file + 1)
                 (currentlyLoadedCartridge Demo.one_file)
                 (nextFrame Demo.one_file) (nextCartridge Demo.one_file)
                 (cart_cache Demo.one_file) (controller Demo.one_file)
                 (bus_log Demo.one_file)).
Proof.
  assert (H1 : filesystem Demo.one_file = Block [Demo.three_bytes]) by reflexivity.
  assert (H2 : Z.of_nat (length [Demo.three_bytes])
               = fileSystemSize Demo.one_file + 1) by reflexivity.
  assert (H3 : Z.of_nat (length [Demo.three_bytes]) < 2 ^ 15 - 1) by (cbn; lia).
  assert (H4 : file_of_name [Demo.three_bytes] "b" = None) by reflexivity.
  split; [exact (conj demo_names_terminated
                   (conj c_string_b
                      (conj one_file_c_strings (conj H1 (conj H2 (conj H3 H4)))))) |].
  exact (cart_open_creates_a_file 0 Demo.after_name Demo.one_file _ "b"
           demo_names_terminated c_string_b one_file_c_strings H1 H2 H3 H4).
Defined.

Lemma cart_open_of_a_closed_file_witness :
  (names_terminated Demo.after_name
   /\ c_string "a"
   /\ Forall (fun f => c_string (fileName f))
        [DemoFiles.closed_a; DemoFiles.open_b]
   /\ filesystem DemoFiles.two_files
      = Block [DemoFiles.closed_a; DemoFiles.open_b]
   /\ Z.of_nat (length [DemoFiles.closed_a; DemoFiles.open_b])
      = fileSystemSize DemoFiles.two_files + 1
   /\ Z.of_nat (length [DemoFiles.closed_a; DemoFiles.open_b]) < 2 ^ 15 - 1
   /\ file_of_name [DemoFiles.closed_a; DemoFiles.open_b] "a"
      = Some (0%nat, DemoFiles.closed_a)
   /\ fileHandle DemoFiles.closed_a <= 0)
  /\ exists h g,
       least_free_handle [DemoFiles.closed_a; DemoFiles.open_b] h
       /\ <[0%nat := mkFile (fileName DemoFiles.closed_a)
                       (file_length DemoFiles.closed_a) 0
                       (location DemoFiles.closed_a)
                       (fileHandle DemoFiles.closed_a)]>
            [DemoFiles.closed_a; DemoFiles.open_b]
          !! (length [DemoFiles.closed_a; DemoFiles.open_b] - 1)%nat = Some g
       /\ cart_open 0 Demo.after_name "a" DemoFiles.two_files
          = Returns h
              (mkDriver (regstate DemoFiles.two_files)
                 (Block (<[(length [DemoFiles.closed_a; DemoFiles.open_b] - 1)%nat
                           := mkFile (fileName g) (file_length g) (filePointer g)
                                (location g) h]>
                           (<[0%nat := mkFile (fileName DemoFiles.closed_a)
                                         (file_length DemoFiles.closed_a) 0
                                         (location DemoFiles.closed_a)
                                         (fileHandle DemoFiles.closed_a)]>
                              [DemoFiles.closed_a; DemoFiles.open_b])))
                 (fileSystemSize DemoFiles.two_files)
                 (currentlyLoadedCartridge DemoFiles.two_files)
                 (nextFrame DemoFiles.two_files)
                 (nextCartridge DemoFiles.two_files)
                 (cart_cache DemoFiles.two_files)
                 (controller DemoFiles.two_files)
                 (bus_log DemoFiles.two_files)).
Proof.
  assert (H1 : filesystem DemoFiles.two_files
               = Block [DemoFiles.closed_a; DemoFiles.open_b]) by reflexivity.
  assert (H2 : Z.of_nat (length [DemoFiles.closed_a; DemoFiles.open_b])
               = fileSystemSize DemoFiles.two_files + 1) by reflexivity.
  assert (H3 : Z.of_nat (length [DemoFiles.closed_a; DemoFiles.open_b])
               < 2 ^ 15 - 1) by (cbn; lia).
  assert (H4 : file_of_name [DemoFiles.closed_a; DemoFiles.open_b] "a"
               = Some (0%nat, DemoFiles.closed_a)) by reflexivity.
  assert (H5 : fileHandle DemoFiles.closed_a <= 0) by (cbn; lia).
  split; [exact (conj demo_names_terminated
                   (conj c_string_a
                      (conj two_files_c_strings
                         (conj H1 (conj H2 (conj H3 (conj H4 H5))))))) |].
  exact (cart_open_of_a_closed_file 0 Demo.after_name DemoFiles.two_files _ "a"
           0%nat _ demo_names_terminated c_string_a two_files_c_strings
           H1 H2 H3 H4 H5).
Defined.

Lemma cart_open_reads_past_a_stored_name_witness :
  (filesystem Demo.one_file = Block [Demo.three_bytes]
   /\ Z.of_nat (length [Demo.three_bytes]) = fileSystemSize Demo.one_file + 1
   /\ [Demo.three_bytes] !! 0%nat = Some Demo.three_bytes
   /\ (forall (j : nat) g, [Demo.three_bytes] !! j = Some g -> (j < 0)%nat ->
         c_string (fileName g)
         /\ forall rest, "a"%string <> (fileName g ++ rest)%string)
   /\ c_string (fileName Demo.three_bytes)
   /\ "a"%string = (fileName Demo.three_bytes ++ "")%string
   /\ DemoFiles.nothing_after (Z.of_nat 0) = [])
  /\ cart_open 0 DemoFiles.nothing_after "a" Demo.one_file = GoesWrong BufferOutOfBounds.
Proof.
  assert (H1 : filesystem Demo.one_file = Block [Demo.three_bytes]) by reflexivity.
  assert (H2 : Z.of_nat (length [Demo.three_bytes])
               = fileSystemSize Demo.one_file + 1) by reflexivity.
  assert (H3 : [Demo.three_bytes] !! 0%nat = Some Demo.three_bytes) by reflexivity.
  assert (H4 : forall (j : nat) g, [Demo.three_bytes] !! j = Some g -> (j < 0)%nat ->
                 c_string (fileName g)
                 /\ forall rest, "a"%string <> (fileName g ++ rest)%string)
    by (intros j g _ Hj; lia).
  assert (H5 : "a"%string = (fileName Demo.three_bytes ++ "")%string)
    by reflexivity.
  assert (H6 : DemoFiles.nothing_after (Z.of_nat 0) = []) by reflexivity.
  split; [exact (conj H1 (conj H2 (conj H3 (conj H4 (conj c_string_a
                   (conj H5 H6)))))) |].
  exact (cart_open_reads_past_a_stored_name 0 DemoFiles.nothing_after Demo.one_file _ "a"
           0%nat _ "" H1 H2 H3 H4 c_string_a H5 H6).
Defined.

Lemma cart_open_misses_a_stored_name_witness :
  (filesystem Demo.one_file = Block [Demo.three_bytes]
   /\ Z.of_nat (length [Demo.three_bytes]) = fileSystemSize Demo.one_file + 1
   /\ Z.of_nat (length [Demo.three_bytes]) < 2 ^ 15 - 1
   /\ [Demo.three_bytes] !! 0%nat = Some Demo.three_bytes
   /\ c_string (fileName Demo.three_bytes)
   /\ DemoFiles.chunk_after (Z.of_nat 0) = x21 :: [x00]
   /\ x21 <> x00
   /\ (forall (j : nat) g, [Demo.three_bytes] !! j = Some g -> j <> 0%nat ->
         c_string (fileName g)
         /\ forall more,
              fileName Demo.three_bytes <> (fileName g ++ more)%string))
  /\ exists h,
       least_free_handle [Demo.three_bytes] h
       /\ cart_open 0 DemoFiles.chunk_after (fileName Demo.three_bytes)
            Demo.one_file
          = Returns h
              (mkDriver (regstate Demo.one_file)
                 (Block ([Demo.three_bytes]
                         ++ [mkFile (fileName Demo.three_bytes) 0 0
                               (mkLocation 0 [0] 0 [0]) h]))
                 (fileSystemSize Demo.one_file + 1)
                 (currentlyLoadedCartridge Demo.one_file)
                 (nextFrame Demo.one_file) (nextCartridge Demo.one_file)
                 (cart_cache Demo.one_file) (controller Demo.one_file)
                 (bus_log Demo.one_file)).
Proof.
  assert (H1 : filesystem Demo.one_file = Block [Demo.three_bytes]) by reflexivity.
  assert (H2 : Z.of_nat (length [Demo.three_bytes])
               = fileSystemSize Demo.one_file + 1) by reflexivity.
  assert (H3 : Z.of_nat (length [Demo.three_bytes]) < 2 ^ 15 - 1) by (cbn; lia).
  assert (H4 : [Demo.three_bytes] !! 0%nat = Some Demo.three_bytes) by reflexivity.
  assert (H5 : DemoFiles.chunk_after (Z.of_nat 0) = x21 :: [x00]) by reflexivity.
  assert (H6 : x21 <> x00) by discriminate.
  assert (H7 : forall (j : nat) g, [Demo.three_bytes] !! j = Some g -> j <> 0%nat ->
                 c_string (fileName g)
                 /\ forall more,
                      fileName Demo.three_bytes <> (fileName g ++ more)%string).
  { intros [| j] g Hj Hne; [congruence | discriminate]. }
  split; [exact (conj H1 (conj H2 (conj H3 (conj H4 (conj c_string_a
                   (conj H5 (conj H6 H7))))))) |].
  exact (cart_open_misses_a_stored_name 0 DemoFiles.chunk_after Demo.one_file _
           0%nat _ x21 [x00] H1 H2 H3 H4 c_string_a H5 H6 H7).
Defined.

Lemma table_stays_in_good_order_witness :
  (driver_ok DemoFiles.two_files
   /\ fileSystemSize DemoFiles.two_files < 2 ^ 15 - 2
   /\ names_terminated Demo.after_name)
  /\ (forall path, c_string path -> exists h d',
        cart_open 0 Demo.after_name path DemoFiles.two_files = Returns h d'
        /\ driver_ok d' /\ (h = -1 \/ 0 < h))
  /\ (forall fd r d',
        cart_close fd DemoFiles.two_files = Returns r d' -> driver_ok d')
  /\ (forall fd loc r d',
        cart_seek fd loc DemoFiles.two_files = Returns r d' -> driver_ok d').
Proof.
  assert (H2 : fileSystemSize DemoFiles.two_files < 2 ^ 15 - 2) by (cbn; lia).
  split; [exact (conj two_files_ok (conj H2 demo_names_terminated)) |].
  exact (table_stays_in_good_order 0 Demo.after_name DemoFiles.two_files
           two_files_ok H2 demo_names_terminated).
Defined.

(** *** Power on and power off, once more *)

Section PowerCalls.

Context {Dev : Type}.
Variable client_cart_bus_request : Z -> list byte -> Dev -> Z * list byte * Dev.
Variables CART_FRAME_SIZE CART_MAX_CARTRIDGES indeterminate : Z.
Variable indeterminate_byte : byte.
Variable cache_malloc_ok : Z -> bool.
Variable after_name : Z -> list byte.

(** X20. With a controller that accepts every request, [cart_poweron]
    sends INIT and then LOAD and ZERO for each cartridge in turn, leaves the
    table of files alone, and then asks [malloc] for the block of the cache:
    it returns 0 when [malloc] has a block and -1 when it has none. If
    [set_cart_cache_size] was called before, with a size below 2^31, then
    with a block the cache has that many entries afterwards and is in a
    state where [put_cart_cache] and [get_cart_cache] can start, and without
    one it has no entries. *)
Theorem cart_poweron_initialises (d : driver Dev) max_frames :
  accepts_all client_cart_bus_request ->
  0 <= max_frames < 2 ^ 31 ->
  cart_cache d = fst (set_cart_cache_size max_frames (mkCache [] 0 0)) ->
  exists d',
    cart_poweron CART_FRAME_SIZE CART_MAX_CARTRIDGES Dev client_cart_bus_request
      indeterminate indeterminate_byte cache_malloc_ok d
    = Returns (if cache_malloc_ok max_frames then 0 else -1) d'
    /\ bus_log d' = bus_log d
         ++ generateBusRequest (request_regs 0 0 0)
            :: load_and_zero 0 (Z.to_nat CART_MAX_CARTRIDGES)
    /\ filesystem d' = filesystem d
    /\ fileSystemSize d' = fileSystemSize d
    /\ (cache_malloc_ok max_frames = true ->
        cart_cache d'
        = cache_after_init max_frames
            (fresh_cache_block CART_FRAME_SIZE indeterminate indeterminate_byte
               max_frames)
        /\ Z.of_nat (length (myCache (cart_cache d'))) = max_frames
        /\ cache_reachable CART_FRAME_SIZE (cart_cache d'))
    /\ (cache_malloc_ok max_frames = false ->
        cart_cache d' = mkCache [] max_frames max_frames).
Proof.
  intros accepted Hmax Hcache.
  assert (HM : myMaxFrames (cart_cache d) = max_frames).
  { rewrite Hcache. cbn. apply int32_small. lia. }
  destruct (cart_poweron_accepted client_cart_bus_request CART_FRAME_SIZE
              CART_MAX_CARTRIDGES indeterminate indeterminate_byte
              cache_malloc_ok accepted d)
    as (d' & Hrun & Hlog & _ & _ & Hfs & Hsz & Hc).
  rewrite HM in Hrun, Hc.
  exists d'. split; [exact Hrun |]. split; [exact Hlog |].
  split; [exact Hfs |]. split; [exact Hsz |].
  split; intros Hblock; rewrite Hblock in Hc.
  - assert (Hinit : cart_cache d'
                    = cache_after_init max_frames
                        (fresh_cache_block CART_FRAME_SIZE indeterminate
                           indeterminate_byte max_frames))
      by (rewrite Hc, Hcache; reflexivity).
    split; [exact Hinit |]. split.
    + rewrite Hc. cbn. unfold fresh_cache_block. rewrite length_replicate. lia.
    + rewrite Hinit. apply reach_init; [exact Hmax |].
      unfold fresh_cache_block. apply length_replicate.
  - rewrite Hc, Hcache. cbn. now rewrite int32_small by lia.
Qed.

(** X21. When the controller refuses the INIT request, [cart_poweron]
    returns -1 at once: INIT is the only request sent, no cartridge is
    loaded or zeroed, and the cache gets no block. *)
Theorem cart_poweron_refused (d : driver Dev) :
  rt (readBusResponse
        (client_cart_bus_request (generateBusRequest (request_regs 0 0 0)) []
           (controller d)).1.1) <> 0 ->
  exists d',
    cart_poweron CART_FRAME_SIZE CART_MAX_CARTRIDGES Dev client_cart_bus_request
      indeterminate indeterminate_byte cache_malloc_ok d = Returns (-1) d'
    /\ bus_log d' = bus_log d ++ [generateBusRequest (request_regs 0 0 0)]
    /\ filesystem d' = filesystem d
    /\ cart_cache d' = cart_cache d.
Proof.
  intros Hrt. unfold cart_poweron, bind at 1, runBusRequest.
  destruct (client_cart_bus_request _ [] (controller d))
    as [[response buf'] dev']. cbn [fst] in Hrt.
  rewrite bind_get. cbn [regstate].
  destruct (Z.eqb_spec (rt (readBusResponse response)) 0); [contradiction |].
  cbn [negb]. unfold ret. eexists. split; [reflexivity |].
  cbn [bus_log filesystem cart_cache]. auto.
Qed.

(** The loop of [cart_poweroff] over a table that has the files it visits. *)
Lemma poweroff_loop_runs (d : driver Dev) n : forall (k : nat) fs,
  filesystem d = Block fs -> (k + n <= length fs)%nat ->
  exists fs',
    poweroff_loop Dev n (Z.of_nat k) d = Returns tt (set_filesystem (Block fs') d)
    /\ length fs' = length fs.
Proof.
  revert d. induction n as [| n IH]; intros d k fs Hfs Hk.
  - exists fs. split; [| reflexivity]. cbn. unfold ret. f_equal.
    destruct d; cbn in *. now subst.
  - destruct (lookup_lt_is_Some_2 fs k ltac:(lia)) as [f Hf].
    cbn [poweroff_loop].
    rewrite (bind_Returns _ _ _ _ _
               (file_update_table d fs k f (with_fileHandle 0) Hfs Hf)).
    replace (Z.of_nat k + 1) with (Z.of_nat (S k)) by lia.
    destruct (IH (set_filesystem (Block (<[k := with_fileHandle 0 f]> fs)) d)
                (S k) _ eq_refl) as (fs' & -> & Hlen).
    { rewrite length_insert. lia. }
    exists fs'. split; [reflexivity |]. now rewrite Hlen, length_insert.
Qed.

(** X22. With a table of files and a controller that accepts every request,
    [cart_poweroff] returns 0, sends the one POWEROFF request, gives the
    block of the cache back, and leaves [filesystem] pointing to the table it
    freed. Every [cart_open] after that reads the freed table, also after
    another [cart_poweron] (which returns 0 when [malloc] has a block for
    the cache). *)
Theorem cart_poweroff_frees_the_table (d : driver Dev) fs :
  accepts_all client_cart_bus_request ->
  filesystem d = Block fs ->
  Z.of_nat (length fs) = fileSystemSize d + 1 ->
  exists d',
    cart_poweroff client_cart_bus_request d = Returns 0 d'
    /\ filesystem d' = Freed
    /\ bus_log d' = bus_log d ++ [generateBusRequest (request_regs 5 0 0)]
    /\ myCache (cart_cache d') = []
    /\ (forall path, cart_open indeterminate after_name path d' = GoesWrong FreedFilesystem)
    /\ exists d'',
         cart_poweron CART_FRAME_SIZE CART_MAX_CARTRIDGES Dev
           client_cart_bus_request indeterminate indeterminate_byte
           cache_malloc_ok d'
         = Returns (if cache_malloc_ok (myMaxFrames (cart_cache d))
                    then 0 else -1) d''
         /\ forall path,
              cart_open indeterminate after_name path d'' = GoesWrong FreedFilesystem.
Proof.
  intros accepted Hfs Hsize.
  assert (Hopen : forall (x : driver Dev) path,
            filesystem x = Freed ->
            cart_open indeterminate after_name path x = GoesWrong FreedFilesystem).
  { intros x path Hx. unfold cart_open. now rewrite bind_get, Hx. }
  unfold cart_poweroff. rewrite bind_get.
  destruct (poweroff_loop_runs d (Z.to_nat (fileSystemSize d + 1)) 0 fs Hfs
              ltac:(lia)) as (fs' & Hloop & _).
  change (Z.of_nat 0) with 0 in Hloop.
  rewrite (bind_Returns _ _ _ _ _ Hloop), bind_modify.
  destruct (runBusRequest_accepted client_cart_bus_request accepted 5 0 0 []
              (set_filesystem Freed (set_filesystem (Block fs') d)))
    as (b1 & d1 & Hreq & Hrt1 & Hlog1 & Hfs1 & Hsz1 & _ & Hc1).
  cbn [set_filesystem bus_log filesystem] in Hlog1, Hfs1.
  cbv beta. rewrite (bind_Returns _ _ _ _ _ Hreq), bind_get, Hrt1.
  cbn [Z.eqb negb].
  unfold bind, on_cache, close_cart_cache, ret. cbn [fst snd Z.eqb negb].
  eexists. split; [reflexivity |].
  split; [exact Hfs1 |]. split; [exact Hlog1 |]. split; [reflexivity |].
  split; [intros path; apply Hopen; change (filesystem d1 = Freed); exact Hfs1 |].
  destruct (cart_poweron_accepted client_cart_bus_request CART_FRAME_SIZE
              CART_MAX_CARTRIDGES indeterminate indeterminate_byte
              cache_malloc_ok accepted
              (set_cart_cache Dev (with_myCache [] (cart_cache d1)) d1))
    as (d2 & Hon & _ & _ & _ & Hfs2 & _).
  exists d2. split.
  { rewrite Hon. cbn [set_cart_cache cart_cache with_myCache myMaxFrames].
    now rewrite Hc1. }
  intros path. apply Hopen. rewrite Hfs2. change (filesystem d1 = Freed). exact Hfs1.
Qed.

End PowerCalls.

Lemma cart_poweron_initialises_witness :
  (accepts_all (zeroed_controller Demo.frame_size)
   /\ 0 <= 4 < 2 ^ 31
   /\ cart_cache Demo.start = fst (set_cart_cache_size 4 (mkCache [] 0 0)))
  /\ exists d',
       cart_poweron Demo.frame_size Demo.max_cartridges unit
           (zeroed_controller Demo.frame_size) 0 x00 Demo.cache_malloc_ok
           Demo.start
       = Returns (if Demo.cache_malloc_ok 4 then 0 else -1) d'
       /\ bus_log d' = bus_log Demo.start
            ++ generateBusRequest (request_regs 0 0 0)
               :: load_and_zero 0 (Z.to_nat Demo.max_cartridges)
       /\ filesystem d' = filesystem Demo.start
       /\ fileSystemSize d' = fileSystemSize Demo.start
       /\ (Demo.cache_malloc_ok 4 = true ->
           cart_cache d'
           = cache_after_init 4 (fresh_cache_block Demo.frame_size 0 x00 4)
           /\ Z.of_nat (length (myCache (cart_cache d'))) = 4
           /\ cache_reachable Demo.frame_size (cart_cache d'))
       /\ (Demo.cache_malloc_ok 4 = false -> cart_cache d' = mkCache [] 4 4).
Proof.
  assert (H1 : accepts_all (zeroed_controller Demo.frame_size))
    by exact (zeroed_controller_accepts Demo.frame_size).
  assert (H2 : 0 <= 4 < 2 ^ 31) by lia.
  assert (H3 : cart_cache Demo.start
               = fst (set_cart_cache_size 4 (mkCache [] 0 0))) by reflexivity.
  split; [exact (conj H1 (conj H2 H3)) |].
  exact (cart_poweron_initialises (zeroed_controller Demo.frame_size)
           Demo.frame_size Demo.max_cartridges 0 x00 Demo.cache_malloc_ok
           Demo.start 4 H1 H2 H3).
Defined.

Lemma cart_poweron_refused_witness :
  rt (readBusResponse
        (refusing_controller (generateBusRequest (request_regs 0 0 0)) []
           (controller Demo.start)).1.1) <> 0
  /\ exists d',
       cart_poweron Demo.frame_size Demo.max_cartridges unit refusing_controller
         0 x00 Demo.cache_malloc_ok Demo.start = Returns (-1) d'
       /\ bus_log d'
          = bus_log Demo.start ++ [generateBusRequest (request_regs 0 0 0)]
       /\ filesystem d' = filesystem Demo.start
       /\ cart_cache d' = cart_cache Demo.start.
Proof.
  assert (H1 : rt (readBusResponse
                     (refusing_controller
                        (generateBusRequest (request_regs 0 0 0)) []
                        (controller Demo.start)).1.1) <> 0)
    by (vm_compute; discriminate).
  split; [exact H1 |].
  exact (cart_poweron_refused refusing_controller Demo.frame_size
           Demo.max_cartridges 0 x00 Demo.cache_malloc_ok Demo.start H1).
Defined.

Lemma cart_poweroff_frees_the_table_witness :
  (accepts_all (zeroed_controller Demo.frame_size)
   /\ filesystem Demo.one_file = Block [Demo.three_bytes]
   /\ Z.of_nat (length [Demo.three_bytes]) = fileSystemSize Demo.one_file + 1)
  /\ exists d',
       cart_poweroff (zeroed_controller Demo.frame_size) Demo.one_file = Returns 0 d'
       /\ filesystem d' = Freed
       /\ bus_log d'
          = bus_log Demo.one_file ++ [generateBusRequest (request_regs 5 0 0)]
       /\ myCache (cart_cache d') = []
       /\ (forall path, cart_open 0 Demo.after_name path d' = GoesWrong FreedFilesystem)
       /\ exists d'',
            cart_poweron Demo.frame_size Demo.max_cartridges unit
                (zeroed_controller Demo.frame_size) 0 x00 Demo.cache_malloc_ok d'
            = Returns (if Demo.cache_malloc_ok
                            (myMaxFrames (cart_cache Demo.one_file))
                       then 0 else -1) d''
            /\ forall path, cart_open 0 Demo.after_name path d'' = GoesWrong FreedFilesystem.
Proof.
  assert (H1 : accepts_all (zeroed_controller Demo.frame_size))
    by exact (zeroed_controller_accepts Demo.frame_size).
  assert (H2 : filesystem Demo.one_file = Block [Demo.three_bytes]) by reflexivity.
  assert (H3 : Z.of_nat (length [Demo.three_bytes])
               = fileSystemSize Demo.one_file + 1) by reflexivity.
  split; [exact (conj H1 (conj H2 H3)) |].
  exact (cart_poweroff_frees_the_table (zeroed_controller Demo.frame_size)
           Demo.frame_size Demo.max_cartridges 0 x00 Demo.cache_malloc_ok
           Demo.after_name Demo.one_file _ H1 H2 H3).
Defined.

(** ** What the calls leave alone *)

Lemma opcode_request ky ct fm :
  opcode (generateBusRequest (request_regs ky ct fm)) = ky mod 2 ^ 8.
Proof.
  unfold opcode. rewrite request_word.
  pose proof (Z.mod_pos_bound ky (2 ^ 8) ltac:(lia)).
  pose proof (Z.mod_pos_bound ct (2 ^ 16) ltac:(lia)).
  pose proof (Z.mod_pos_bound fm (2 ^ 16) ltac:(lia)).
  now rewrite decode_packed.
Qed.

Lemma sent_only_refl {Dev} ops (d d' : driver Dev) :
  bus_log d' = bus_log d -> sent_only ops d d'.
Proof. intros H. exists []. rewrite app_nil_r. split; [exact H | constructor]. Qed.

Lemma sent_only_trans {Dev} ops (a b c : driver Dev) :
  sent_only ops a b -> sent_only ops b c -> sent_only ops a c.
Proof.
  intros (l1 & H1 & F1) (l2 & H2 & F2). exists (l1 ++ l2).
  split; [now rewrite H2, H1, app_assoc | now apply Forall_app].
Qed.

Lemma sent_only_request {Dev} ops (d d' : driver Dev) ky ct fm :
  bus_log d' = bus_log d ++ [generateBusRequest (request_regs ky ct fm)] ->
  ky mod 2 ^ 8 ∈ ops -> sent_only ops d d'.
Proof.
  intros H Hin. eexists. split; [exact H |].
  apply Forall_singleton. now rewrite opcode_request.
Qed.

Lemma same_frames_refl c : same_frames c c.
Proof. intros Hinv. split; [exact Hinv |]. do 2 (split; [reflexivity |]). reflexivity. Qed.

Lemma same_frames_trans a b c :
  same_frames a b -> same_frames b c -> same_frames a c.
Proof.
  intros Hab Hbc Ha. destruct (Hab Ha) as (Hb & HM & HU & Hk).
  destruct (Hbc Hb) as (Hc & HM' & HU' & Hk').
  split; [exact Hc |]. split; [congruence |]. split; [congruence |].
  intros k f x. now rewrite Hk', Hk.
Qed.

(** [get_cart_cache] changes priorities only. *)
Lemma same_frames_get s cart frm s' r :
  get_cart_cache cart frm s = Some (s', r) -> same_frames s s'.
Proof.
  intros Hrun Hinv.
  destruct (get_outcome s cart frm Hinv)
    as [(s1 & data & Heq & Hinv1 & _) | [Heq _]].
  - rewrite Heq in Hrun. injection Hrun as <- <-. split; [exact Hinv1 |].
    destruct (get_effect s cart frm Hinv)
      as [(k & e & s2 & Hin & Hc & Hf & Hget & HM & HU & Hafter) | [Hget _]];
      rewrite Hget in Heq; [| discriminate].
    injection Heq as <- _.
    split; [exact HM |]. split; [exact HU |].
    intros c f b. split.
    + intros (j & e' & Hin' & Hc' & Hf' & Hb').
      apply Hafter in Hin' as [[-> ->] | (Hne & e0 & Hin0 & ->)].
      * exists k, e. auto.
      * exists j, e0. auto.
    + intros (j & e0 & Hin0 & Hc0 & Hf0 & Hb0).
      destruct (Z.eq_dec j k) as [-> | Hne].
      * rewrite (in_use_unique s k e0 e Hin0 Hin) in *.
        exists k, (with_priority (numberOfUnoccupiedFrames s + 1) e).
        split; [apply Hafter; left; auto | auto].
      * eexists j, _. split; [apply Hafter; right; eauto | auto].
  - rewrite Heq in Hrun. injection Hrun as <- <-. now apply same_frames_refl.
Qed.

Section Keeps.

Context {Dev : Type}.
Variable R : driver Dev -> driver Dev -> Prop.
Hypothesis R_refl : forall d, R d d.
Hypothesis R_trans : forall a b c, R a b -> R b c -> R a c.

Lemma keeps_ret {A} (a : A) : keeps R (ret a).
Proof. intros d x d' [= _ <-]. apply R_refl. Qed.

Lemma keeps_bind {A B} (m : act Dev A) (k : A -> act Dev B) :
  keeps R m -> (forall a, keeps R (k a)) -> keeps R (bind m k).
Proof.
  intros Hm Hk d b d' Hrun. unfold bind in Hrun.
  destruct (m d) as [a d1 |] eqn:E; [| discriminate].
  exact (R_trans _ _ _ (Hm d a d1 E) (Hk a d1 b d' Hrun)).
Qed.

Lemma keeps_get {A} (proj : driver Dev -> A) : keeps R (get Dev proj).
Proof. intros d x d' [= _ <-]. apply R_refl. Qed.

Lemma keeps_defined {A} flt (o : option A) : keeps R (defined Dev flt o).
Proof.
  intros d x d' Hrun. unfold defined in Hrun.
  destruct o; [| discriminate]. injection Hrun as _ <-. apply R_refl.
Qed.

Lemma keeps_undefined {A} flt : keeps R (undefined Dev (A := A) flt).
Proof. intros d x d' Hrun. discriminate. Qed.

Lemma keeps_file_at i : keeps R (file_at (Dev := Dev) i).
Proof.
  intros d x d' Hrun. unfold file_at in Hrun.
  destruct (filesystem d); try discriminate.
  destruct (i <? 0); [discriminate |].
  destruct (_ !! _); [| discriminate]. injection Hrun as _ <-. apply R_refl.
Qed.

Lemma keeps_find_handle n : forall i fd, keeps R (find_handle (Dev := Dev) n i fd).
Proof.
  induction n as [| n IH]; intros i fd; cbn [find_handle].
  - apply keeps_ret.
  - apply keeps_bind; [apply keeps_file_at |]. intros f.
    destruct (fileHandle f =? fd); [apply keeps_ret | apply IH].
Qed.

Lemma keeps_fileSystemIndex_of fd : keeps R (fileSystemIndex_of (Dev := Dev) fd).
Proof.
  unfold fileSystemIndex_of. apply keeps_bind; [apply keeps_get |].
  intros size. apply keeps_find_handle.
Qed.

End Keeps.

Lemma file_update_inv {Dev} i g (d : driver Dev) u d' :
  file_update i g d = Returns u d' ->
  exists fs f,
    filesystem d = Block fs /\ 0 <= i /\ fs !! Z.to_nat i = Some f
    /\ d' = set_filesystem (Block (<[Z.to_nat i := g f]> fs)) d.
Proof.
  unfold file_update, bind, file_at. intros Hrun.
  destruct (filesystem d) as [| fs |] eqn:Hfs; try discriminate.
  destruct (Z.ltb_spec i 0); [discriminate |].
  destruct (fs !! Z.to_nat i) as [f |] eqn:Hf; [| discriminate].
  rewrite Hfs in Hrun. injection Hrun as _ <-. exists fs, f. auto.
Qed.

Lemma runBusRequest_inv {Dev} ctl ky ct fm buf (d : driver Dev) b d' :
  runBusRequest Dev ctl ky ct fm buf d = Returns b d' ->
  bus_log d' = bus_log d ++ [generateBusRequest (request_regs ky ct fm)]
  /\ filesystem d' = filesystem d
  /\ fileSystemSize d' = fileSystemSize d
  /\ currentlyLoadedCartridge d' = currentlyLoadedCartridge d
  /\ nextFrame d' = nextFrame d
  /\ nextCartridge d' = nextCartridge d
  /\ cart_cache d' = cart_cache d.
Proof.
  unfold runBusRequest. intros Hrun.
  destruct (ctl _ buf (controller d)) as [[response buf'] dev'].
  injection Hrun as _ <-. cbn. auto 10.
Qed.

Lemma on_cache_inv {Dev A} (f : cache_state -> option (cache_state * A))
    (d : driver Dev) a d' :
  on_cache Dev f d = Returns a d' ->
  exists c, f (cart_cache d) = Some (c, a) /\ d' = set_cart_cache Dev c d.
Proof.
  unfold on_cache. intros Hrun.
  destruct (f (cart_cache d)) as [[c x] |]; [| discriminate].
  injection Hrun as <- <-. eauto.
Qed.

Section ReadOnly.

Context {Dev : Type}.
Variable client_cart_bus_request : Z -> list byte -> Dev -> Z * list byte * Dev.
Variable CART_FRAME_SIZE : Z.
Variable indeterminate_byte : byte.

Lemma read_only_intro (d d' : driver Dev) :
  fileSystemSize d' = fileSystemSize d ->
  nextFrame d' = nextFrame d ->
  nextCartridge d' = nextCartridge d ->
  without_cursors (filesystem d') = without_cursors (filesystem d) ->
  sent_only [2; 3] d d' ->
  same_frames (cart_cache d) (cart_cache d') ->
  read_only d d'.
Proof. unfold read_only. auto 10. Qed.

Lemma read_only_refl (d : driver Dev) : read_only d d.
Proof.
  apply read_only_intro; try reflexivity.
  - now apply sent_only_refl.
  - apply same_frames_refl.
Qed.

Lemma read_only_trans (a b c : driver Dev) :
  read_only a b -> read_only b c -> read_only a c.
Proof.
  intros (H1 & H2 & H3 & H4 & H5 & H6) (K1 & K2 & K3 & K4 & K5 & K6).
  apply read_only_intro; try congruence.
  - exact (sent_only_trans _ _ _ _ H5 K5).
  - exact (same_frames_trans _ _ _ H6 K6).
Qed.

Lemma read_only_request ky ct fm buf :
  ky = 2 \/ ky = 3 ->
  keeps read_only (runBusRequest Dev client_cart_bus_request ky ct fm buf).
Proof.
  intros Hky d b d' (Hlog & Hfs & Hsz & _ & Hnf & Hnc & Hc)%runBusRequest_inv.
  apply read_only_intro; try congruence.
  - apply (sent_only_request _ _ _ ky ct fm Hlog).
    destruct Hky as [-> | ->];
      [change (2 mod 2 ^ 8) with 2 | change (3 mod 2 ^ 8) with 3];
      repeat constructor.
  - rewrite Hc. apply same_frames_refl.
Qed.

Lemma read_only_loaded c :
  keeps read_only (modify Dev (set_currentlyLoadedCartridge Dev c)).
Proof.
  intros d u d' Hrun. unfold modify in Hrun. injection Hrun as Hd. subst d'.
  apply read_only_intro; try reflexivity.
  - now apply sent_only_refl.
  - apply same_frames_refl.
Qed.

Lemma read_only_get_cart_cache cart frm :
  keeps read_only (on_cache Dev (get_cart_cache cart frm)).
Proof.
  intros d r d' (c & Hget & ->)%on_cache_inv.
  apply read_only_intro; try reflexivity.
  - now apply sent_only_refl.
  - apply (same_frames_get _ _ _ _ _ Hget).
Qed.

Lemma read_only_cursor i p :
  keeps read_only (file_update (Dev := Dev) i (with_filePointer p)).
Proof.
  intros d u d' (fs & f & Hfs & Hi & Hf & ->)%file_update_inv.
  apply read_only_intro; try reflexivity.
  - cbn. rewrite Hfs. cbn. f_equal. rewrite list_fmap_insert. cbn.
    apply list_insert_id. now rewrite list_lookup_fmap, Hf.
  - now apply sent_only_refl.
  - apply same_frames_refl.
Qed.

Ltac keeps_read_only :=
  unfold slot_of, copied;
  repeat first
    [ apply keeps_ret; exact read_only_refl
    | apply keeps_get; exact read_only_refl
    | apply keeps_defined; exact read_only_refl
    | apply keeps_file_at; exact read_only_refl
    | apply keeps_fileSystemIndex_of; [exact read_only_refl | exact read_only_trans]
    | apply read_only_request; auto
    | apply read_only_loaded
    | apply read_only_get_cart_cache
    | apply read_only_cursor
    | apply keeps_bind; [exact read_only_trans | | intros ?]
    | match goal with
      | |- keeps _ (if ?b then _ else _) => destruct b
      | |- keeps _ (match ?x with _ => _ end) => destruct x
      end ].

Lemma read_only_load_cartridge c :
  keeps read_only (load_cartridge Dev client_cart_bus_request c).
Proof. unfold load_cartridge. keeps_read_only. Qed.

Lemma read_only_fetch_slot idx start i localBuf :
  keeps read_only
    (fetch_slot CART_FRAME_SIZE Dev client_cart_bus_request idx start i localBuf).
Proof.
  unfold fetch_slot. keeps_read_only.
Qed.

Lemma read_only_fetch_loop n : forall idx start i localBuf,
  keeps read_only
    (fetch_loop CART_FRAME_SIZE Dev client_cart_bus_request n idx start i localBuf).
Proof.
  induction n as [| n IH]; intros idx start i localBuf; cbn [fetch_loop].
  - keeps_read_only.
  - apply keeps_bind; [exact read_only_trans | apply read_only_fetch_slot |].
    intros [[r |] buf]; [keeps_read_only | apply IH].
Qed.

Lemma read_only_cart_read fd count :
  keeps read_only
    (cart_read CART_FRAME_SIZE Dev client_cart_bus_request indeterminate_byte
       fd count).
Proof.
  unfold cart_read. keeps_read_only. apply read_only_fetch_loop.
  all: keeps_read_only.
Qed.

(** X23. [cart_read] reads only. Whenever it returns, [fileSystemSize],
    [nextFrame] and [nextCartridge] are as before; the table of files is as
    before but for cursors; the requests it sent are LOAD (opcode 2) and READ
    (opcode 3) requests only; and a cache that was in good order still is,
    with as many places, as many of them free, and the same frames under the
    same keys: a frame read from the controller is not put into the cache. *)
Theorem cart_read_reads_only (d : driver Dev) fd count r d' :
  cart_read CART_FRAME_SIZE Dev client_cart_bus_request indeterminate_byte
    fd count d = Returns r d' ->
  fileSystemSize d' = fileSystemSize d
  /\ nextFrame d' = nextFrame d
  /\ nextCartridge d' = nextCartridge d
  /\ without_cursors (filesystem d') = without_cursors (filesystem d)
  /\ sent_only [2; 3] d d'
  /\ same_frames (cart_cache d) (cart_cache d').
Proof. intros Hrun. exact (read_only_cart_read fd count d r d' Hrun). Qed.


(** The loops that fetch frames leave the table of files as it is, and
    return early with -1 only. *)
Lemma same_table_refl (d : driver Dev) : same_table d d.
Proof. split; reflexivity. Qed.

Lemma same_table_trans (a b c : driver Dev) :
  same_table a b -> same_table b c -> same_table a c.
Proof. intros [H1 H2] [K1 K2]. split; congruence. Qed.

Lemma same_table_request ky ct fm buf :
  keeps same_table (runBusRequest Dev client_cart_bus_request ky ct fm buf).
Proof.
  intros d b d' (_ & Hfs & Hsz & _)%runBusRequest_inv. split; assumption.
Qed.

Lemma same_table_loaded c :
  keeps same_table (modify Dev (set_currentlyLoadedCartridge Dev c)).
Proof.
  intros d u d' Hrun. unfold modify in Hrun. injection Hrun as Hd. subst d'.
  split; reflexivity.
Qed.

Lemma same_table_on_cache {A} (f : cache_state -> option (cache_state * A)) :
  keeps same_table (on_cache Dev f).
Proof. intros d r d' (c & _ & ->)%on_cache_inv. split; reflexivity. Qed.

Ltac keeps_same_table :=
  unfold slot_of, copied;
  repeat first
    [ apply keeps_ret; exact same_table_refl
    | apply keeps_get; exact same_table_refl
    | apply keeps_defined; exact same_table_refl
    | apply keeps_file_at; exact same_table_refl
    | apply same_table_request
    | apply same_table_loaded
    | apply same_table_on_cache
    | apply keeps_bind; [exact same_table_trans | | intros ?]
    | match goal with
      | |- keeps _ (if ?b then _ else _) => destruct b
      | |- keeps _ (match ?x with _ => _ end) => destruct x
      end ].

Lemma same_table_fetch_slot idx start i localBuf :
  keeps same_table
    (fetch_slot CART_FRAME_SIZE Dev client_cart_bus_request idx start i localBuf).
Proof. unfold fetch_slot, load_cartridge. keeps_same_table. Qed.

Lemma same_table_fetch_loop n : forall idx start i localBuf,
  keeps same_table
    (fetch_loop CART_FRAME_SIZE Dev client_cart_bus_request n idx start i localBuf).
Proof.
  induction n as [| n IH]; intros idx start i localBuf; cbn [fetch_loop].
  - keeps_same_table.
  - apply keeps_bind; [exact same_table_trans | apply same_table_fetch_slot |].
    intros [[r |] buf]; [keeps_same_table | apply IH].
Qed.

Lemma yields_ret {A} (Q : A -> Prop) (a : A) : Q a -> yields (Dev := Dev) Q (ret a).
Proof. intros H d x d' [= <- _]. exact H. Qed.

Lemma yields_bind {A B} (Q : B -> Prop) (m : act Dev A) (k : A -> act Dev B) :
  (forall a, yields Q (k a)) -> yields Q (bind m k).
Proof.
  intros Hk d b d' Hrun. unfold bind in Hrun.
  destruct (m d) as [a d1 |]; [| discriminate]. exact (Hk a d1 b d' Hrun).
Qed.

Lemma yields_bind_with {A B} (P : A -> Prop) (Q : B -> Prop)
    (m : act Dev A) (k : A -> act Dev B) :
  yields P m -> (forall a, P a -> yields Q (k a)) -> yields Q (bind m k).
Proof.
  intros Hm Hk d b d' Hrun. unfold bind in Hrun.
  destruct (m d) as [a d1 |] eqn:E; [| discriminate].
  exact (Hk a (Hm d a d1 E) d1 b d' Hrun).
Qed.

Ltac yields_steps :=
  repeat first
    [ apply yields_ret; unfold early_is_minus_1; cbn; solve [auto]
    | apply yields_bind; intros ?
    | match goal with
      | |- yields _ (if ?b then _ else _) => destruct b
      | |- yields _ (match ?x with _ => _ end) => destruct x
      end ].

Lemma load_cartridge_early c :
  yields (fun e => e = None \/ e = Some (-1))
    (load_cartridge Dev client_cart_bus_request c).
Proof. unfold load_cartridge. yields_steps. Qed.

Lemma fetch_slot_early idx start i localBuf :
  yields early_is_minus_1
    (fetch_slot CART_FRAME_SIZE Dev client_cart_bus_request idx start i localBuf).
Proof.
  unfold fetch_slot.
  apply yields_bind; intros f. apply yields_bind; intros c.
  apply yields_bind; intros fm. apply yields_bind; intros hit.
  destruct hit; [yields_steps |].
  apply (yields_bind_with _ _ _ _ (load_cartridge_early _)).
  intros e [-> | ->]; yields_steps.
Qed.

Lemma fetch_loop_early n : forall idx start i localBuf,
  yields early_is_minus_1
    (fetch_loop CART_FRAME_SIZE Dev client_cart_bus_request n idx start i localBuf).
Proof.
  induction n as [| n IH]; intros idx start i localBuf; cbn [fetch_loop].
  - apply yields_ret. now left.
  - intros d p d' Hrun. unfold bind in Hrun.
    destruct (fetch_slot _ _ _ _ _ _ _ d) as [[[r |] buf] d1 |] eqn:E;
      [| exact (IH _ _ _ _ _ _ _ Hrun) | discriminate].
    injection Hrun as <- _. exact (fetch_slot_early _ _ _ _ _ _ _ E).
Qed.


Lemma strncpy_bytes_length n : forall src out,
  strncpy_bytes n src = Some out -> length out = n.
Proof.
  induction n as [| n IH]; intros src out; cbn [strncpy_bytes].
  - now intros [= <-].
  - destruct src as [| b src]; [discriminate |].
    destruct (Byte.eqb b x00).
    + intros [= <-]. cbn. now rewrite length_replicate.
    + destruct (strncpy_bytes n src) as [o |] eqn:E; [| discriminate].
      intros [= <-]. cbn. f_equal. exact (IH _ _ E).
Qed.

Lemma strncpy_from_length src soff n out :
  strncpy_from src soff n = Some out -> 0 <= n /\ Z.of_nat (length out) = n.
Proof.
  unfold strncpy_from.
  destruct (Z.ltb_spec n 0) as [| Hn]; [discriminate |].
  destruct (soff <? 0); [discriminate |]. cbn [orb].
  intros Hlen%strncpy_bytes_length. lia.
Qed.

(** X24. What [cart_read] returns for an open file. For a [count] that is
    an [int32_t], as the parameter is, and with [filePointer + count] within
    [int] as well: whenever [cart_read fd count] returns, it returned -1 with
    the table of files unchanged (the controller refused a request), or the
    number of bytes from the cursor to the end of the file, but at most
    [count]: that number is not negative, that many bytes were stored in the
    buffer, the cursor of the file moved forward by that number (its name,
    length, frames and handle are kept), and no other file changed. *)
Theorem cart_read_result (d : driver Dev) fs fd (i : nat) f count n out d' :
  - 2 ^ 31 <= count < 2 ^ 31 ->
  - 2 ^ 31 <= filePointer f + count < 2 ^ 31 ->
  filesystem d = Block fs ->
  Z.of_nat (length fs) = fileSystemSize d + 1 ->
  fd <> 0 ->
  file_of_handle fs fd = Some (i, f) ->
  cart_read CART_FRAME_SIZE Dev client_cart_bus_request indeterminate_byte
    fd count d = Returns (n, out) d' ->
  (n = -1 /\ out = [] /\ filesystem d' = Block fs)
  \/ (0 <= n
      /\ n = Z.min count (file_length f - filePointer f)
      /\ Z.of_nat (length out) = n
      /\ filesystem d'
         = Block (<[i := mkFile (fileName f) (file_length f) (filePointer f + n)
                           (location f) (fileHandle f)]> fs)).
Proof.
  intros _ _.
  intros Hfs Hsize Hfd Hfind Hrun.
  pose proof (fileSystemIndex_of_handle d fs fd i f Hfs Hsize Hfind) as Hidx.
  pose proof Hfind as (Hi & Hh & _)%list_find_Some.
  unfold cart_read in Hrun. rewrite (bind_Returns _ _ _ _ _ Hidx) in Hrun.
  destruct (Z.eqb_spec (Z.of_nat i) (-1)); [lia |].
  rewrite (bind_Returns _ _ _ _ _ (file_at_table d fs i f Hfs Hi)) in Hrun.
  destruct (Z.eqb_spec (fileHandle f) 0); [lia |].
  cbv zeta in Hrun. unfold bind at 1 in Hrun.
  match type of Hrun with
  | match ?m with _ => _ end = _ =>
      destruct m as [[early localBuf] d1 |] eqn:Hloop; [| discriminate]
  end.
  pose proof (same_table_fetch_loop _ _ _ _ _ _ _ _ Hloop) as [Hfs1 _].
  rewrite Hfs in Hfs1.
  pose proof (fetch_loop_early _ _ _ _ _ _ _ _ Hloop) as Hearly.
  destruct early as [r |].
  - left. destruct Hearly as [? | [= ->]]; [discriminate |].
    unfold ret in Hrun. injection Hrun as <- <- <-. auto.
  - right. clear Hearly.
    rewrite (bind_Returns _ _ _ _ _ (file_at_table d1 fs i f Hfs1 Hi)) in Hrun.
    destruct (Z.gtb_spec (filePointer f + count) (file_length f)) as [Hgt | Hle].
    + unfold copied, bind at 1, defined in Hrun.
      destruct (strncpy_from _ _ _) as [o |] eqn:Hcopy; [| discriminate].
      apply strncpy_from_length in Hcopy as [Hn Hlen].
      rewrite (bind_Returns _ _ _ _ _
                 (file_update_table d1 fs i f _ Hfs1 Hi)) in Hrun.
      unfold ret in Hrun. injection Hrun as <- <- <-.
      split; [exact Hn |]. split; [lia |]. split; [exact Hlen |].
      replace (filePointer f + (file_length f - filePointer f))
        with (file_length f) by lia.
      reflexivity.
    + unfold copied, bind at 1, defined in Hrun.
      destruct (strncpy_from _ _ _) as [o |] eqn:Hcopy; [| discriminate].
      apply strncpy_from_length in Hcopy as [Hn Hlen].
      rewrite (bind_Returns _ _ _ _ _
                 (file_update_table d1 fs i f _ Hfs1 Hi)) in Hrun.
      unfold ret in Hrun. injection Hrun as <- <- <-.
      split; [exact Hn |]. split; [lia |]. split; [exact Hlen |]. reflexivity.
Qed.


End ReadOnly.

Lemma alter_blank_insert (fs : list files) (k : nat) f x :
  fs !! k = Some f -> blank x = blank f ->
  alter blank k (<[k := x]> fs) = alter blank k fs.
Proof.
  intros Hk Hx. apply list_eq. intros j.
  destruct (Nat.eq_dec j k) as [-> | Hne].
  - rewrite !list_lookup_alter_eq, list_lookup_insert_eq, Hk
      by (now apply lookup_lt_Some in Hk).
    cbn. now rewrite Hx.
  - rewrite !list_lookup_alter_ne, list_lookup_insert_ne by congruence.
    reflexivity.
Qed.

Section WritesFile.

Context {Dev : Type}.
Variable client_cart_bus_request : Z -> list byte -> Dev -> Z * list byte * Dev.
Variables CART_FRAME_SIZE indeterminate : Z.
Variable indeterminate_byte : byte.
Variable i : Z.

Lemma writes_file_intro (d d' : driver Dev) :
  fileSystemSize d' = fileSystemSize d ->
  without_file i (filesystem d') = without_file i (filesystem d) ->
  sent_only [2; 3; 4] d d' ->
  (cache_inv (cart_cache d) ->
   cache_inv (cart_cache d')
   /\ myMaxFrames (cart_cache d') = myMaxFrames (cart_cache d)) ->
  writes_file i d d'.
Proof. unfold writes_file. auto. Qed.

Lemma writes_file_refl (d : driver Dev) : writes_file i d d.
Proof.
  apply writes_file_intro; try reflexivity; [now apply sent_only_refl | auto].
Qed.

Lemma writes_file_trans (a b c : driver Dev) :
  writes_file i a b -> writes_file i b c -> writes_file i a c.
Proof.
  intros (H1 & H2 & H3 & H4) (K1 & K2 & K3 & K4).
  apply writes_file_intro; try congruence.
  - exact (sent_only_trans _ _ _ _ H3 K3).
  - intros Ha. destruct (H4 Ha) as [Hb HM]. destruct (K4 Hb) as [Hc HM'].
    split; [exact Hc | congruence].
Qed.

Lemma writes_file_request ky ct fm buf :
  ky = 2 \/ ky = 3 \/ ky = 4 ->
  keeps (writes_file i)
    (runBusRequest Dev client_cart_bus_request ky ct fm buf).
Proof.
  intros Hky d b d' (Hlog & Hfs & Hsz & _ & Hnf & Hnc & Hc)%runBusRequest_inv.
  apply writes_file_intro; try congruence.
  - apply (sent_only_request _ _ _ ky ct fm Hlog).
    destruct Hky as [-> | [-> | ->]];
      [change (2 mod 2 ^ 8) with 2 | change (3 mod 2 ^ 8) with 3
      | change (4 mod 2 ^ 8) with 4];
      repeat constructor.
  - rewrite Hc. auto.
Qed.

Lemma writes_file_modify (g : driver Dev -> driver Dev) :
  (forall d, fileSystemSize (g d) = fileSystemSize d
             /\ filesystem (g d) = filesystem d
             /\ bus_log (g d) = bus_log d
             /\ cart_cache (g d) = cart_cache d) ->
  keeps (writes_file i) (modify Dev g).
Proof.
  intros Hg d u d' Hrun. unfold modify in Hrun. injection Hrun as Hd. subst d'.
  destruct (Hg d) as (H1 & H2 & H3 & H4).
  apply writes_file_intro; try congruence.
  - now apply sent_only_refl.
  - rewrite H4. auto.
Qed.

Lemma writes_file_get_cart_cache cart frm :
  keeps (writes_file i) (on_cache Dev (get_cart_cache cart frm)).
Proof.
  intros d r d' (c & Hget & ->)%on_cache_inv.
  apply writes_file_intro; try reflexivity.
  - now apply sent_only_refl.
  - intros Hinv. destruct (same_frames_get _ _ _ _ _ Hget Hinv) as (H1 & H2 & _).
    auto.
Qed.

Lemma writes_file_put_cart_cache cart frm buf :
  keeps (writes_file i)
    (on_cache Dev (put_cart_cache CART_FRAME_SIZE cart frm buf)).
Proof.
  intros d r d' (c & Hput & ->)%on_cache_inv.
  apply writes_file_intro; try reflexivity.
  - now apply sent_only_refl.
  - intros Hinv. cbn.
    destruct (put_outcome CART_FRAME_SIZE _ cart frm buf Hinv)
      as [[_ Heq] | [(_ & _ & Heq) | (_ & s1 & Heq & Hinv1 & HM & _)]];
      rewrite Heq in Hput; [| discriminate |]; injection Hput as <- _; auto.
Qed.

Lemma writes_file_update g :
  (forall f, blank (g f) = blank f) ->
  keeps (writes_file i) (file_update (Dev := Dev) i g).
Proof.
  intros Hg d u d' (fs & f & Hfs & Hi & Hf & ->)%file_update_inv.
  apply writes_file_intro; try reflexivity.
  - cbn. rewrite Hfs. cbn. destruct (Z.ltb_spec i 0); [lia |].
    f_equal. now apply (alter_blank_insert fs _ f).
  - now apply sent_only_refl.
  - auto.
Qed.

Ltac keeps_writes_file :=
  unfold slot_of, copied, update_location;
  repeat first
    [ apply keeps_ret; exact writes_file_refl
    | apply keeps_get; exact writes_file_refl
    | apply keeps_defined; exact writes_file_refl
    | apply keeps_file_at; exact writes_file_refl
    | apply writes_file_request; solve [auto]
    | apply writes_file_modify; intros ?; solve [auto]
    | apply writes_file_get_cart_cache
    | apply writes_file_put_cart_cache
    | apply writes_file_update; intros ?; reflexivity
    | apply keeps_bind; [exact writes_file_trans | | intros ?]
    | match goal with
      | |- keeps _ (if ?b then _ else _) => destruct b
      | |- keeps _ (match ?x with _ => _ end) => destruct x
      end ].

Lemma writes_file_load_cartridge c :
  keeps (writes_file i) (load_cartridge Dev client_cart_bus_request c).
Proof. unfold load_cartridge. keeps_writes_file. Qed.

Lemma writes_file_fetch_slot start k localBuf :
  keeps (writes_file i)
    (fetch_slot CART_FRAME_SIZE Dev client_cart_bus_request i start k localBuf).
Proof. unfold fetch_slot, load_cartridge. keeps_writes_file. Qed.

Lemma writes_file_fetch_loop n : forall start k localBuf,
  keeps (writes_file i)
    (fetch_loop CART_FRAME_SIZE Dev client_cart_bus_request n i start k localBuf).
Proof.
  induction n as [| n IH]; intros start k localBuf; cbn [fetch_loop].
  - keeps_writes_file.
  - apply keeps_bind; [exact writes_file_trans | apply writes_file_fetch_slot |].
    intros [[r |] buf]; [keeps_writes_file | apply IH].
Qed.

Lemma writes_file_flush_slot start k localBuf :
  keeps (writes_file i)
    (flush_slot CART_FRAME_SIZE Dev client_cart_bus_request indeterminate_byte
       i start k localBuf).
Proof. unfold flush_slot, load_cartridge. keeps_writes_file. Qed.

Lemma writes_file_flush_loop n : forall start k localBuf,
  keeps (writes_file i)
    (flush_loop CART_FRAME_SIZE Dev client_cart_bus_request indeterminate_byte
       n i start k localBuf).
Proof.
  induction n as [| n IH]; intros start k localBuf; cbn [flush_loop].
  - keeps_writes_file.
  - apply keeps_bind; [exact writes_file_trans | apply writes_file_flush_slot |].
    intros [r |]; [keeps_writes_file | apply IH].
Qed.

Lemma writes_file_first_frame buf count :
  keeps (writes_file i)
    (write_first_frame CART_FRAME_SIZE Dev client_cart_bus_request
       indeterminate_byte i buf count).
Proof.
  unfold write_first_frame, store_occupiedFrame, store_occupiedCartridge,
    advance_frontier, load_cartridge.
  keeps_writes_file.
Qed.

Lemma writes_file_more buf count :
  keeps (writes_file i)
    (write_more CART_FRAME_SIZE Dev client_cart_bus_request indeterminate
       indeterminate_byte i buf count).
Proof.
  unfold write_more, store_occupiedFrame, store_occupiedCartridge.
  keeps_writes_file.
  all: try apply writes_file_fetch_loop.
  all: keeps_writes_file.
  all: try apply writes_file_flush_loop.
  all: keeps_writes_file.
Qed.

End WritesFile.

Lemma without_file_inv (fs fs' : list files) (i : nat) f :
  fs !! i = Some f ->
  alter blank i fs' = alter blank i fs ->
  exists f',
    fs' = <[i := f']> fs
    /\ fileName f' = fileName f /\ fileHandle f' = fileHandle f.
Proof.
  intros Hi Heq.
  assert (Hlook : forall j, alter blank i fs' !! j = alter blank i fs !! j)
    by (intros j; now rewrite Heq).
  pose proof (Hlook i) as Hat.
  rewrite !list_lookup_alter_eq, Hi in Hat.
  destruct (fs' !! i) as [f' |] eqn:Hi'; [| discriminate].
  cbn in Hat. assert (Hblank : blank f' = blank f) by congruence.
  exists f'. split; [| split].
  - apply list_eq. intros j. destruct (Nat.eq_dec j i) as [-> | Hne].
    + rewrite list_lookup_insert_eq by (now apply lookup_lt_Some in Hi).
      exact Hi'.
    + rewrite list_lookup_insert_ne by congruence.
      specialize (Hlook j). now rewrite !list_lookup_alter_ne in Hlook by congruence.
  - exact (f_equal fileName Hblank).
  - exact (f_equal fileHandle Hblank).
Qed.

Lemma table_ok_same_names_handles fs fs' size :
  table_ok fs size ->
  fileName <$> fs' = fileName <$> fs ->
  fileHandle <$> fs' = fileHandle <$> fs ->
  table_ok fs' size.
Proof.
  intros [Hsz Hn Hp Hh] Hnames Hhandles. constructor.
  - rewrite <- Hsz. f_equal.
    rewrite <- (length_fmap fileName fs'), Hnames. apply length_fmap.
  - now rewrite Hnames.
  - apply (Forall_fmap fileHandle (fun h => 0 <= h)).
    rewrite Hhandles. now apply Forall_fmap.
  - now rewrite Hhandles.
Qed.

Lemma fmap_fmap_same {A} (p : files -> A) (g : files -> files) (fs : list files) :
  (forall f, p (g f) = p f) -> p <$> (g <$> fs) = p <$> fs.
Proof.
  intros Hg. apply list_eq. intros j. rewrite !list_lookup_fmap.
  destruct (fs !! j); cbn; [now rewrite Hg | reflexivity].
Qed.

Lemma fmap_alter_same {A} (p : files -> A) (g : files -> files) (k : nat)
    (fs : list files) :
  (forall f, p (g f) = p f) -> p <$> alter g k fs = p <$> fs.
Proof.
  intros Hg. apply list_eq. intros j. rewrite !list_lookup_fmap.
  destruct (Nat.eq_dec j k) as [-> | Hne].
  - rewrite list_lookup_alter_eq. destruct (fs !! k); cbn; [now rewrite Hg | reflexivity].
  - now rewrite list_lookup_alter_ne by congruence.
Qed.

Section ReadWrite.

Context {Dev : Type}.
Variable client_cart_bus_request : Z -> list byte -> Dev -> Z * list byte * Dev.
Variables CART_FRAME_SIZE indeterminate : Z.
Variable indeterminate_byte : byte.

(** [cart_write] once the index of the file is known. *)
Lemma cart_write_run (d : driver Dev) fd buf count r d' :
  cart_write CART_FRAME_SIZE Dev client_cart_bus_request indeterminate
    indeterminate_byte fd buf count d = Returns r d' ->
  exists i,
    fileSystemIndex_of fd d = Returns i d /\ writes_file i d d'.
Proof.
  intros Hrun. unfold cart_write in Hrun. unfold bind at 1 in Hrun.
  destruct (fileSystemIndex_of fd d) as [i d1 |] eqn:Hidx; [| discriminate].
  assert (d = d1) as <-.
  { apply (keeps_fileSystemIndex_of eq) in Hidx; [exact Hidx | reflexivity |].
    intros a b c -> ->. reflexivity. }
  exists i. split; [reflexivity |].
  revert Hrun. generalize d r d'.
  change (keeps (writes_file i)
            (if i =? -1 then ret (-1)
             else bind (file_at i)
                    (fun f =>
                       if fileHandle f =? 0 then ret (-1)
                       else if file_length f =? 0
                            then write_first_frame CART_FRAME_SIZE Dev
                                   client_cart_bus_request indeterminate_byte
                                   i buf count
                            else write_more CART_FRAME_SIZE Dev
                                   client_cart_bus_request indeterminate
                                   indeterminate_byte i buf count))).
  destruct (i =? -1); [apply keeps_ret; exact (writes_file_refl i) |].
  apply keeps_bind; [exact (writes_file_trans i) | |].
  - apply keeps_file_at. exact (writes_file_refl i).
  - intros f. destruct (fileHandle f =? 0);
      [apply keeps_ret; exact (writes_file_refl i) |].
    destruct (file_length f =? 0).
    + apply writes_file_first_frame.
    + apply writes_file_more.
Qed.

(** X25. [cart_write] touches one file. Whenever [cart_write] on the
    handle of an open file returns, [fileSystemSize] is as before and the
    table of files is as before but for the record of that file, which keeps
    its name and its handle; the requests it sent are LOAD (opcode 2), READ
    (opcode 3) and WRITE (opcode 4) requests only; and a cache that was in good
    order still is, with as many places. *)
Theorem cart_write_touches_one_file (d : driver Dev) fs fd (i : nat) f
    buf count r d' :
  filesystem d = Block fs ->
  Z.of_nat (length fs) = fileSystemSize d + 1 ->
  file_of_handle fs fd = Some (i, f) ->
  cart_write CART_FRAME_SIZE Dev client_cart_bus_request indeterminate
    indeterminate_byte fd buf count d = Returns r d' ->
  fileSystemSize d' = fileSystemSize d
  /\ (exists f',
        filesystem d' = Block (<[i := f']> fs)
        /\ fileName f' = fileName f /\ fileHandle f' = fileHandle f)
  /\ sent_only [2; 3; 4] d d'
  /\ (cache_inv (cart_cache d) ->
      cache_inv (cart_cache d')
      /\ myMaxFrames (cart_cache d') = myMaxFrames (cart_cache d)).
Proof.
  intros Hfs Hsize Hfind Hrun.
  destruct (cart_write_run d fd buf count r d' Hrun)
    as (k & Hidx & Hsz & Htable & Hsent & Hcache).
  rewrite (fileSystemIndex_of_handle d fs fd i f Hfs Hsize Hfind) in Hidx.
  injection Hidx as <-.
  split; [exact Hsz |]. split; [| split; assumption].
  pose proof Hfind as (Hi & _)%list_find_Some.
  rewrite Hfs in Htable. unfold without_file in Htable.
  destruct (filesystem d') as [| fs' |]; try discriminate.
  destruct (Z.ltb_spec (Z.of_nat i) 0); [lia |].
  rewrite Nat2Z.id in Htable. injection Htable as Htable.
  destruct (without_file_inv fs fs' i f Hi Htable) as (f' & -> & Hn & Hh).
  eauto.
Qed.

(** X26. [cart_read] and [cart_write] keep the table of files in good
    order: from globals in good order (no table yet, or a table with as many
    files as [fileSystemSize] says, pairwise different names, no negative
    handle and pairwise different handles among the open files), the globals
    are in good order again whenever one of the two returns. *)
Theorem read_and_write_keep_good_order (d : driver Dev) :
  driver_ok d ->
  (forall fd count r d',
     cart_read CART_FRAME_SIZE Dev client_cart_bus_request indeterminate_byte
       fd count d = Returns r d' -> driver_ok d')
  /\ (forall fd buf count r d',
        cart_write CART_FRAME_SIZE Dev client_cart_bus_request indeterminate
          indeterminate_byte fd buf count d = Returns r d' -> driver_ok d').
Proof.
  unfold driver_ok at 1. intros Hok. split.
  - intros fd count r d' Hrun.
    destruct (read_only_cart_read client_cart_bus_request CART_FRAME_SIZE
                indeterminate_byte fd count d r d' Hrun)
      as (Hsz & _ & _ & Htable & _).
    unfold driver_ok. rewrite Hsz.
    destruct (filesystem d) as [| fs |], (filesystem d') as [| fs' |];
      try discriminate; try assumption.
    injection Htable as Htable.
    apply (table_ok_same_names_handles fs fs' _ Hok).
    + apply (f_equal (fmap fileName)) in Htable.
      now rewrite !(fmap_fmap_same fileName) in Htable by reflexivity.
    + apply (f_equal (fmap fileHandle)) in Htable.
      now rewrite !(fmap_fmap_same fileHandle) in Htable by reflexivity.
  - intros fd buf count r d' Hrun.
    destruct (cart_write_run d fd buf count r d' Hrun)
      as (k & Hidx & Hsz & Htable & _).
    unfold driver_ok. rewrite Hsz. unfold without_file in Htable.
    destruct (filesystem d) as [| fs |], (filesystem d') as [| fs' |];
      try discriminate; try assumption.
    injection Htable as Htable.
    destruct (k <? 0); [now subst |].
    apply (table_ok_same_names_handles fs fs' _ Hok).
    + apply (f_equal (fmap fileName)) in Htable.
      now rewrite !(fmap_alter_same fileName) in Htable by reflexivity.
    + apply (f_equal (fmap fileHandle)) in Htable.
      now rewrite !(fmap_alter_same fileHandle) in Htable by reflexivity.
Qed.

End ReadWrite.

(** *** The examples *)

Lemma opened_state_table :
  filesystem DemoRuns.opened_state = Block [new_file 0 "a" 1].
Proof. reflexivity. Defined.

Lemma after_write_run :
  cart_write Demo.frame_size unit (zeroed_controller Demo.frame_size) 0 x00
    1 [x01; x03; x02] 3 DemoRuns.opened_state
  = Returns 3 DemoRuns.after_write.
Proof. vm_compute. reflexivity. Defined.

Lemma after_seek_table :
  filesystem DemoRuns.after_seek
  = Block [mkFile "a" 3 0 (mkLocation 0 [0] 0 [0]) 1].
Proof. reflexivity. Defined.

Lemma after_read_run :
  cart_read Demo.frame_size unit (zeroed_controller Demo.frame_size) x00
    1 3 DemoRuns.after_seek
  = Returns (3, [x01; x03; x02]) DemoRuns.after_read.
Proof. vm_compute. reflexivity. Defined.

Lemma cart_read_reads_only_witness :
  cart_read Demo.frame_size unit (zeroed_controller Demo.frame_size) x00
    1 3 DemoRuns.after_seek
  = Returns (3, [x01; x03; x02]) DemoRuns.after_read
  /\ (fileSystemSize DemoRuns.after_read = fileSystemSize DemoRuns.after_seek
      /\ nextFrame DemoRuns.after_read = nextFrame DemoRuns.after_seek
      /\ nextCartridge DemoRuns.after_read = nextCartridge DemoRuns.after_seek
      /\ without_cursors (filesystem DemoRuns.after_read)
         = without_cursors (filesystem DemoRuns.after_seek)
      /\ sent_only [2; 3] DemoRuns.after_seek DemoRuns.after_read
      /\ same_frames (cart_cache DemoRuns.after_seek)
           (cart_cache DemoRuns.after_read)).
Proof.
  split; [exact after_read_run |].
  exact (cart_read_reads_only (zeroed_controller Demo.frame_size)
           Demo.frame_size x00 DemoRuns.after_seek 1 3 _ _ after_read_run).
Defined.

Lemma cart_read_result_witness :
  (- 2 ^ 31 <= 3 < 2 ^ 31
   /\ - 2 ^ 31 <= filePointer (mkFile "a" 3 0 (mkLocation 0 [0] 0 [0]) 1) + 3
      < 2 ^ 31
   /\ filesystem DemoRuns.after_seek
      = Block [mkFile "a" 3 0 (mkLocation 0 [0] 0 [0]) 1]
   /\ Z.of_nat (length [mkFile "a" 3 0 (mkLocation 0 [0] 0 [0]) 1])
      = fileSystemSize DemoRuns.after_seek + 1
   /\ 1 <> 0
   /\ file_of_handle [mkFile "a" 3 0 (mkLocation 0 [0] 0 [0]) 1] 1
      = Some (0%nat, mkFile "a" 3 0 (mkLocation 0 [0] 0 [0]) 1)
   /\ cart_read Demo.frame_size unit (zeroed_controller Demo.frame_size) x00
        1 3 DemoRuns.after_seek
      = Returns (3, [x01; x03; x02]) DemoRuns.after_read)
  /\ ((3 = -1 /\ [x01; x03; x02] = []
       /\ filesystem DemoRuns.after_read
          = Block [mkFile "a" 3 0 (mkLocation 0 [0] 0 [0]) 1])
      \/ (0 <= 3
          /\ 3 = Z.min 3 (3 - 0)
          /\ Z.of_nat (length [x01; x03; x02]) = 3
          /\ filesystem DemoRuns.after_read
             = Block (<[0%nat := mkFile "a" 3 (0 + 3) (mkLocation 0 [0] 0 [0]) 1]>
                        [mkFile "a" 3 0 (mkLocation 0 [0] 0 [0]) 1]))).
Proof.
  assert (H0 : - 2 ^ 31 <= 3 < 2 ^ 31) by lia.
  assert (H1 : - 2 ^ 31
               <= filePointer (mkFile "a" 3 0 (mkLocation 0 [0] 0 [0]) 1) + 3
               < 2 ^ 31) by (cbn; lia).
  assert (H2 : Z.of_nat (length [mkFile "a" 3 0 (mkLocation 0 [0] 0 [0]) 1])
               = fileSystemSize DemoRuns.after_seek + 1) by reflexivity.
  assert (H3 : 1 <> 0) by lia.
  assert (H4 : file_of_handle [mkFile "a" 3 0 (mkLocation 0 [0] 0 [0]) 1] 1
               = Some (0%nat, mkFile "a" 3 0 (mkLocation 0 [0] 0 [0]) 1))
    by reflexivity.
  split; [exact (conj H0 (conj H1 (conj after_seek_table (conj H2 (conj H3
                   (conj H4 after_read_run)))))) |].
  exact (cart_read_result (zeroed_controller Demo.frame_size) Demo.frame_size x00
           DemoRuns.after_seek _ 1 0%nat _ 3 3 _ _
           H0 H1 after_seek_table H2 H3 H4 after_read_run).
Defined.

Lemma cart_write_touches_one_file_witness :
  (filesystem DemoRuns.opened_state = Block [new_file 0 "a" 1]
   /\ Z.of_nat (length [new_file 0 "a" 1])
      = fileSystemSize DemoRuns.opened_state + 1
   /\ file_of_handle [new_file 0 "a" 1] 1 = Some (0%nat, new_file 0 "a" 1)
   /\ cart_write Demo.frame_size unit (zeroed_controller Demo.frame_size) 0 x00
        1 [x01; x03; x02] 3 DemoRuns.opened_state
      = Returns 3 DemoRuns.after_write)
  /\ fileSystemSize DemoRuns.after_write = fileSystemSize DemoRuns.opened_state
  /\ (exists f',
        filesystem DemoRuns.after_write
        = Block (<[0%nat := f']> [new_file 0 "a" 1])
        /\ fileName f' = fileName (new_file 0 "a" 1)
        /\ fileHandle f' = fileHandle (new_file 0 "a" 1))
  /\ sent_only [2; 3; 4] DemoRuns.opened_state DemoRuns.after_write
  /\ (cache_inv (cart_cache DemoRuns.opened_state) ->
      cache_inv (cart_cache DemoRuns.after_write)
      /\ myMaxFrames (cart_cache DemoRuns.after_write)
         = myMaxFrames (cart_cache DemoRuns.opened_state)).
Proof.
  assert (H2 : Z.of_nat (length [new_file 0 "a" 1])
               = fileSystemSize DemoRuns.opened_state + 1) by reflexivity.
  assert (H3 : file_of_handle [new_file 0 "a" 1] 1
               = Some (0%nat, new_file 0 "a" 1)) by reflexivity.
  split; [exact (conj opened_state_table (conj H2 (conj H3 after_write_run))) |].
  exact (cart_write_touches_one_file (zeroed_controller Demo.frame_size)
           Demo.frame_size 0 x00 DemoRuns.opened_state _ 1 0%nat _
           [x01; x03; x02] 3 3 _ opened_state_table H2 H3 after_write_run).
Defined.

Lemma opened_state_ok : driver_ok DemoRuns.opened_state.
Proof.
  unfold driver_ok. rewrite opened_state_table. constructor.
  - reflexivity.
  - apply NoDup_singleton.
  - apply Forall_singleton. cbn. lia.
  - intros i j a Hi%lookup_lt_Some Hj%lookup_lt_Some _. cbn in *. lia.
Defined.

Lemma read_and_write_keep_good_order_witness :
  driver_ok DemoRuns.opened_state
  /\ (forall fd count r d',
        cart_read Demo.frame_size unit (zeroed_controller Demo.frame_size) x00
          fd count DemoRuns.opened_state = Returns r d' -> driver_ok d')
  /\ (forall fd buf count r d',
        cart_write Demo.frame_size unit (zeroed_controller Demo.frame_size) 0 x00
          fd buf count DemoRuns.opened_state = Returns r d' ->
        driver_ok d').
Proof.
  split; [exact opened_state_ok |].
  exact (read_and_write_keep_good_order (zeroed_controller Demo.frame_size)
           Demo.frame_size 0 x00 DemoRuns.opened_state opened_state_ok).
Defined.

(** X27. Bytes written are the bytes read back. For an open file that has
    no bytes yet and a buffer of at most [CART_FRAME_SIZE] bytes, none of them
    null: [cart_write] of the buffer returns its length, [cart_seek] to 0
    returns 0, and [cart_read] of as many bytes returns that length and stores
    the bytes that were written. (The controller accepts every request, the
    cache has a place and is in good order, the slot arrays of the file have
    room for one frame.) *)
Theorem written_bytes_are_read_back {Dev}
    (client_cart_bus_request : Z -> list byte -> Dev -> Z * list byte * Dev)
    (CART_FRAME_SIZE indeterminate : Z) (indeterminate_byte : byte)
    (d : driver Dev) fs fd (i : nat) f buf :
  accepts_all client_cart_bus_request ->
  filesystem d = Block fs ->
  Z.of_nat (length fs) = fileSystemSize d + 1 ->
  0 < fd ->
  file_of_handle fs fd = Some (i, f) ->
  file_length f = 0 ->
  occupiedFrames (location f) <> [] ->
  occupiedCartridges (location f) <> [] ->
  cache_inv (cart_cache d) ->
  0 < myMaxFrames (cart_cache d) ->
  0 < CART_FRAME_SIZE < 2 ^ 31 ->
  Z.of_nat (length buf) <= CART_FRAME_SIZE ->
  Forall (fun b => b <> x00) buf ->
  exists d',
    bind (cart_write CART_FRAME_SIZE Dev client_cart_bus_request indeterminate
            indeterminate_byte fd buf (Z.of_nat (length buf)))
      (fun w =>
         bind (cart_seek fd 0)
           (fun s =>
              bind (cart_read CART_FRAME_SIZE Dev client_cart_bus_request
                      indeterminate_byte fd (Z.of_nat (length buf)))
                (fun r => ret (w, s, r)))) d
    = Returns (Z.of_nat (length buf), 0, (Z.of_nat (length buf), buf)) d'.
Proof.
  intros accepted Hfs Hsize Hfd Hfind Hlen HoF HoC Hinv HM HFS Hn Hnul.
  exact (write_seek_read_without_null_bytes client_cart_bus_request
           CART_FRAME_SIZE indeterminate indeterminate_byte accepted
           d fs fd i f buf Hfs Hsize Hfd Hfind Hlen HoF HoC Hinv HM HFS Hn Hnul).
Qed.

Lemma written_bytes_are_read_back_witness :
  (accepts_all (zeroed_controller Demo.frame_size)
   /\ filesystem DemoRuns.opened_state = Block [new_file 0 "a" 1]
   /\ Z.of_nat (length [new_file 0 "a" 1])
      = fileSystemSize DemoRuns.opened_state + 1
   /\ 0 < 1
   /\ file_of_handle [new_file 0 "a" 1] 1 = Some (0%nat, new_file 0 "a" 1)
   /\ file_length (new_file 0 "a" 1) = 0
   /\ occupiedFrames (location (new_file 0 "a" 1)) <> []
   /\ occupiedCartridges (location (new_file 0 "a" 1)) <> []
   /\ cache_inv (cart_cache DemoRuns.opened_state)
   /\ 0 < myMaxFrames (cart_cache DemoRuns.opened_state)
   /\ 0 < Demo.frame_size < 2 ^ 31
   /\ Z.of_nat (length [x01; x03; x02]) <= Demo.frame_size
   /\ Forall (fun b => b <> x00) [x01; x03; x02])
  /\ exists d',
       bind (cart_write Demo.frame_size unit (zeroed_controller Demo.frame_size)
               0 x00 1 [x01; x03; x02] (Z.of_nat (length [x01; x03; x02])))
         (fun w =>
            bind (cart_seek 1 0)
              (fun s =>
                 bind (cart_read Demo.frame_size unit
                         (zeroed_controller Demo.frame_size) x00 1
                         (Z.of_nat (length [x01; x03; x02])))
                   (fun r => ret (w, s, r)))) DemoRuns.opened_state
       = Returns (Z.of_nat (length [x01; x03; x02]), 0,
                  (Z.of_nat (length [x01; x03; x02]), [x01; x03; x02])) d'.
Proof.
  assert (H1 : accepts_all (zeroed_controller Demo.frame_size))
    by exact (zeroed_controller_accepts Demo.frame_size).
  assert (H3 : Z.of_nat (length [new_file 0 "a" 1])
               = fileSystemSize DemoRuns.opened_state + 1) by reflexivity.
  assert (H4 : 0 < 1) by lia.
  assert (H5 : file_of_handle [new_file 0 "a" 1] 1
               = Some (0%nat, new_file 0 "a" 1)) by reflexivity.
  assert (H6 : file_length (new_file 0 "a" 1) = 0) by reflexivity.
  assert (H7 : occupiedFrames (location (new_file 0 "a" 1)) <> [])
    by discriminate.
  assert (H8 : occupiedCartridges (location (new_file 0 "a" 1)) <> [])
    by discriminate.
  assert (H9 : cache_inv (cart_cache DemoRuns.opened_state)).
  { apply (init_inv 4 (replicate 4 (mkCachedFrame 0 0 (replicate 1024 x00) 0)));
      [lia | reflexivity]. }
  assert (H10 : 0 < myMaxFrames (cart_cache DemoRuns.opened_state))
    by reflexivity.
  assert (H11 : 0 < Demo.frame_size < 2 ^ 31) by (unfold Demo.frame_size; lia).
  assert (H12 : Z.of_nat (length [x01; x03; x02]) <= Demo.frame_size)
    by (unfold Demo.frame_size; cbn; lia).
  assert (H13 : Forall (fun b => b <> x00) [x01; x03; x02])
    by (repeat constructor; discriminate).
  split.
  - exact (conj H1 (conj opened_state_table (conj H3 (conj H4 (conj H5 (conj H6
             (conj H7 (conj H8 (conj H9 (conj H10 (conj H11
             (conj H12 H13)))))))))))).
  - exact (written_bytes_are_read_back (zeroed_controller Demo.frame_size)
             Demo.frame_size 0 x00 DemoRuns.opened_state _ 1 0%nat _
             [x01; x03; x02] H1 opened_state_table H3 H4 H5 H6 H7 H8 H9 H10
             H11 H12 H13).
Defined.

(** X28. The first write to a file takes the frame at the frontier. For an
    open file that has no bytes yet and a buffer of at most [CART_FRAME_SIZE]
    bytes, none of them null, [cart_write] of the whole buffer returns its
    length; the file then has that length, its cursor at its end, and one
    frame, the one [nextCartridge] and [nextFrame] named; no other file
    changes; and the cache holds under that frame the bytes written, filled
    up to a frame with what the frame buffer happened to contain. (The
    controller accepts every request, the cache has a place and is in good
    order, the slot arrays of the file have room for one frame.) *)
Theorem first_write_takes_the_frontier_frame {Dev}
    (client_cart_bus_request : Z -> list byte -> Dev -> Z * list byte * Dev)
    (CART_FRAME_SIZE indeterminate : Z) (indeterminate_byte : byte)
    (d : driver Dev) fs fd (i : nat) f buf :
  accepts_all client_cart_bus_request ->
  filesystem d = Block fs ->
  Z.of_nat (length fs) = fileSystemSize d + 1 ->
  0 < fd ->
  file_of_handle fs fd = Some (i, f) ->
  file_length f = 0 ->
  occupiedFrames (location f) <> [] ->
  occupiedCartridges (location f) <> [] ->
  cache_inv (cart_cache d) ->
  0 < myMaxFrames (cart_cache d) ->
  Z.of_nat (length buf) <= CART_FRAME_SIZE ->
  Forall (fun b => b <> x00) buf ->
  exists d',
    cart_write CART_FRAME_SIZE Dev client_cart_bus_request indeterminate
      indeterminate_byte fd buf (Z.of_nat (length buf)) d
    = Returns (Z.of_nat (length buf)) d'
    /\ filesystem d'
       = Block (<[i := first_frame f (nextCartridge d) (nextFrame d)
                         (Z.of_nat (length buf))]> fs)
    /\ fileSystemSize d' = fileSystemSize d
    /\ cache_inv (cart_cache d')
    /\ key_holds (cart_cache d') (uint16 (nextCartridge d)) (uint16 (nextFrame d))
         (buf ++ drop (length buf)
                   (replicate (Z.to_nat CART_FRAME_SIZE) indeterminate_byte)).
Proof.
  intros accepted Hfs Hsize Hfd Hfind Hlen0 HoF HoC Hinv HM Hn Hnul.
  pose proof (fileSystemIndex_of_handle d fs fd i f Hfs Hsize Hfind) as Hidx.
  pose proof Hfind as (Hi & Hh & _)%list_find_Some.
  destruct d as [rs p size loaded nf nc cs dev log]. cbn in Hfs, Hsize, Hinv, HM.
  subst p.
  destruct (write_first_frame_runs client_cart_bus_request CART_FRAME_SIZE
              indeterminate_byte accepted rs fs size loaded nf nc cs dev log
              i f buf Hi HoF HoC Hinv HM Hn Hnul)
    as (rs1 & loaded1 & nf1 & nc1 & cs1 & dev1 & log1 & Hwrite & Hinv1 & Hholds).
  eexists. split.
  - unfold cart_write. rewrite (bind_Returns _ _ _ _ _ Hidx).
    destruct (Z.eqb_spec (Z.of_nat i) (-1)); [lia |].
    erewrite bind_Returns; [| eapply file_at_table; [reflexivity | exact Hi]].
    destruct (Z.eqb_spec (fileHandle f) 0); [lia |].
    rewrite Hlen0. exact Hwrite.
  - cbn. split; [reflexivity |]. split; [reflexivity |].
    split; [exact Hinv1 | exact Hholds].
Qed.

Lemma first_write_takes_the_frontier_frame_witness :
  (accepts_all (zeroed_controller Demo.frame_size)
   /\ filesystem DemoRuns.opened_state = Block [new_file 0 "a" 1]
   /\ Z.of_nat (length [new_file 0 "a" 1])
      = fileSystemSize DemoRuns.opened_state + 1
   /\ 0 < 1
   /\ file_of_handle [new_file 0 "a" 1] 1 = Some (0%nat, new_file 0 "a" 1)
   /\ file_length (new_file 0 "a" 1) = 0
   /\ occupiedFrames (location (new_file 0 "a" 1)) <> []
   /\ occupiedCartridges (location (new_file 0 "a" 1)) <> []
   /\ cache_inv (cart_cache DemoRuns.opened_state)
   /\ 0 < myMaxFrames (cart_cache DemoRuns.opened_state)
   /\ Z.of_nat (length [x01; x03; x02]) <= Demo.frame_size
   /\ Forall (fun b => b <> x00) [x01; x03; x02])
  /\ exists d',
       cart_write Demo.frame_size unit (zeroed_controller Demo.frame_size) 0 x00
         1 [x01; x03; x02] (Z.of_nat (length [x01; x03; x02]))
         DemoRuns.opened_state
       = Returns (Z.of_nat (length [x01; x03; x02])) d'
       /\ filesystem d'
          = Block (<[0%nat := first_frame (new_file 0 "a" 1)
                                (nextCartridge DemoRuns.opened_state)
                                (nextFrame DemoRuns.opened_state)
                                (Z.of_nat (length [x01; x03; x02]))]>
                     [new_file 0 "a" 1])
       /\ fileSystemSize d' = fileSystemSize DemoRuns.opened_state
       /\ cache_inv (cart_cache d')
       /\ key_holds (cart_cache d')
            (uint16 (nextCartridge DemoRuns.opened_state))
            (uint16 (nextFrame DemoRuns.opened_state))
            ([x01; x03; x02]
             ++ drop (length [x01; x03; x02])
                  (replicate (Z.to_nat Demo.frame_size) x00)).
Proof.
  assert (H1 : accepts_all (zeroed_controller Demo.frame_size))
    by exact (zeroed_controller_accepts Demo.frame_size).
  assert (H3 : Z.of_nat (length [new_file 0 "a" 1])
               = fileSystemSize DemoRuns.opened_state + 1) by reflexivity.
  assert (H4 : 0 < 1) by lia.
  assert (H5 : file_of_handle [new_file 0 "a" 1] 1
               = Some (0%nat, new_file 0 "a" 1)) by reflexivity.
  assert (H6 : file_length (new_file 0 "a" 1) = 0) by reflexivity.
  assert (H7 : occupiedFrames (location (new_file 0 "a" 1)) <> [])
    by discriminate.
  assert (H8 : occupiedCartridges (location (new_file 0 "a" 1)) <> [])
    by discriminate.
  assert (H9 : cache_inv (cart_cache DemoRuns.opened_state)).
  { apply (init_inv 4 (replicate 4 (mkCachedFrame 0 0 (replicate 1024 x00) 0)));
      [lia | reflexivity]. }
  assert (H10 : 0 < myMaxFrames (cart_cache DemoRuns.opened_state))
    by reflexivity.
  assert (H12 : Z.of_nat (length [x01; x03; x02]) <= Demo.frame_size)
    by (unfold Demo.frame_size; cbn; lia).
  assert (H13 : Forall (fun b => b <> x00) [x01; x03; x02])
    by (repeat constructor; discriminate).
  split.
  - exact (conj H1 (conj opened_state_table (conj H3 (conj H4 (conj H5 (conj H6
             (conj H7 (conj H8 (conj H9 (conj H10 (conj H12 H13))))))))))).
  - exact (first_write_takes_the_frontier_frame
             (zeroed_controller Demo.frame_size) Demo.frame_size 0 x00
             DemoRuns.opened_state _ 1 0%nat _ [x01; x03; x02]
             H1 opened_state_table H3 H4 H5 H6 H7 H8 H9 H10 H12 H13).
Defined.
